(** * neon-sql: query composer and value codec (src/index.ts)

    A shallow embedding of the template composer, the type inference and
    serialization layer, the deserializer with its bracketed-array text
    parser, and the deferred Query object, together with the properties
    stated about them.

    JavaScript strings are modelled by [string] (one character per code
    unit, which is exact for ASCII text); type identifiers (OIDs) by [Z];
    array indices and lengths by [nat]. *)

From Stdlib Require Import List String Ascii ZArith Lia Bool Arith.
From Stdlib Require Import DecimalString DecimalZ DecimalNat.
Import ListNotations.
Open Scope string_scope.
Open Scope list_scope.

(** String concatenation, the JavaScript [+] on strings. *)
Infix "+++" := String.append (right associativity, at level 60).
Set Warnings "-register-all".

(** The double quote and the backslash, by character code. *)
Definition dquote : ascii := ascii_of_nat 34.
Definition backslash : ascii := ascii_of_nat 92.

(** ** Native values *)

(** The native values the library handles, over a host number type [num].
    Wrapper objects ([Parameter], [Identifier], [Query], [Builder]) are
    values too, since they travel through the same [any]-typed slots. *)
Inductive value (num : Type) : Type :=
| VUndefined
| VNull
| VBool (b : bool)
| VNumber (n : num)
| VBigInt (z : Z)
| VString (s : string)
| VDate (t : option Z)                       (* time value in ms; None = Invalid Date *)
| VBuffer (bs : list nat)                    (* Uint8Array / Buffer, one byte per entry *)
| VArray (xs : list (value num))
| VObject (fields : list (string * value num)) (* plain object, keys in insertion order *)
| VPromise                                   (* a pending Promise that is not a Query *)
| VParameter (v : value num) (type : Z) (array : option (list Z))
| VIdentifier (s : string)
| VQuery (strings : list string) (args : list (value num))
| VBuilder (first : value num) (rest : list (value num)).

Arguments VUndefined {num}.
Arguments VNull {num}.
Arguments VBool {num} b.
Arguments VNumber {num} n.
Arguments VBigInt {num} z.
Arguments VString {num} s.
Arguments VDate {num} t.
Arguments VBuffer {num} bs.
Arguments VArray {num} xs.
Arguments VObject {num} fields.
Arguments VPromise {num}.
Arguments VParameter {num} v type array.
Arguments VIdentifier {num} s.
Arguments VQuery {num} strings args.
Arguments VBuilder {num} first rest.

(** ** The host: ECMAScript built-ins the source calls *)

(** The source relies on built-ins of the JavaScript host.  They are kept
    abstract in the development and instantiated for evaluation below. *)
Class Host := {
  number : Type;
  (** [x % 1 === 0] *)
  is_integer : number -> bool;
  (** [Number.isFinite(x)], used by JSON.stringify *)
  is_finite : number -> bool;
  (** string concatenation [empty + x] on a number *)
  number_toString : number -> string;
  (** unary [+] on a string *)
  ToNumber : string -> number;
  (** [Date.prototype.toISOString] on a valid time value *)
  Date_toISOString : Z -> string;
  (** the time value of [new Date(text)]; [None] is the NaN time value *)
  Date_parse : string -> option Z;
  (** [BigInt(text)]; [None] is a SyntaxError *)
  BigInt_parse : string -> option Z;
  (** [JSON.parse(text)]; [None] is a SyntaxError *)
  JSON_parse : string -> option (value number);
  (** [text.search(re)] for the case-insensitive RegExp built from [source] *)
  RegExp_search : string -> string -> Z;
  (** the number with a given integer value *)
  number_of_Z : Z -> number;
  (** ToPropertyKey: the property name a value denotes in [row[column]] *)
  ToPropertyKey : value number -> string
}.

Abbreviation val := (value number).

(** ** Exceptions *)

Inductive error : Type :=
| TypeError (msg : string)
| RangeError (msg : string)
| SyntaxError (msg : string)
| Error (msg : string).

Inductive exc (A : Type) : Type :=
| Ok (a : A)
| Throw (e : error).

Arguments Ok {A} a.
Arguments Throw {A} e.

Definition exc_bind {A B} (m : exc A) (k : A -> exc B) : exc B :=
  match m with
  | Ok a => k a
  | Throw e => Throw e
  end.

(** ** String helpers mirroring the JavaScript string operations used *)

(** [x[i]]: the character at index [i], or undefined. *)
Definition char_at (x : string) (i : nat) : option ascii := String.get i x.

(** [x.slice(a, b)] for non-negative indices. *)
Definition slice (x : string) (a b : nat) : string := substring a (b - a) x.

(** [x.slice(a)] for a non-negative index. *)
Definition slice_from (x : string) (a : nat) : string :=
  substring a (String.length x - a) x.

Definition str1 (c : ascii) : string := String c EmptyString.

(** [str += c] where [c] may be undefined. *)
Definition append_char (s : string) (c : option ascii) : string :=
  match c with
  | Some c => s +++ str1 c
  | None => s +++ "undefined"
  end.

Definition is_char (c : option ascii) (d : ascii) : bool :=
  match c with
  | Some c => Ascii.eqb c d
  | None => false
  end.

(** [xs.join(sep)] on an array of strings. *)
Fixpoint join (sep : string) (xs : list string) : string :=
  match xs with
  | [] => EmptyString
  | [x] => x
  | x :: rest => x +++ sep +++ join sep rest
  end.

(** Decimal text of a natural number, as string concatenation prints an array length. *)
Definition nat_toString (n : nat) : string :=
  NilZero.string_of_uint (Nat.to_uint n).

(** Decimal text of an integer, as [BigInt.prototype.toString] prints it. *)
Definition Z_toString (z : Z) : string :=
  NilZero.string_of_int (Z.to_int z).

(** The source text of the RegExp of a keyword [x], as [builders] builds it. *)
Definition pattern_prefix : string :=
  "((?:^|[" +++ str1 backslash +++ "s(])".
Definition pattern_suffix : string :=
  "(?:$|[" +++ str1 backslash +++ "s(]))(?![" +++ str1 backslash +++ "s"
  +++ str1 backslash +++ "S]*" +++ str1 backslash +++ "1)".
Definition regexp_source (x : string) : string :=
  pattern_prefix +++ x +++ pattern_suffix.

(** ** Array text parser *)

Module ArrayParser.

(** [arrayParserState]: the scratch record shared by all parses. *)
Record state := mkState {
  i : nat;
  p : option ascii;
  char : option ascii;
  str : string;
  quoted : bool;
  last : nat
}.

(** The value of the module-level constant when the module is loaded. *)
Definition arrayParserState : state :=
  {| i := 0; p := None; char := None; str := EmptyString; quoted := false; last := 0 |}.

Definition set_i (s : state) (n : nat) : state :=
  {| i := n; p := p s; char := char s; str := str s; quoted := quoted s; last := last s |}.
Definition set_p (s : state) (c : option ascii) : state :=
  {| i := i s; p := c; char := char s; str := str s; quoted := quoted s; last := last s |}.
Definition set_char (s : state) (c : option ascii) : state :=
  {| i := i s; p := p s; char := c; str := str s; quoted := quoted s; last := last s |}.
Definition set_str (s : state) (t : string) : state :=
  {| i := i s; p := p s; char := char s; str := t; quoted := quoted s; last := last s |}.
Definition set_quoted (s : state) (b : bool) : state :=
  {| i := i s; p := p s; char := char s; str := str s; quoted := b; last := last s |}.
Definition set_last (s : state) (n : nat) : state :=
  {| i := i s; p := p s; char := char s; str := str s; quoted := quoted s; last := n |}.

Section Loop.
Context {H : Host}.

(** [parser ? parser(t) : t] *)
Definition apply_parser (parser : option (string -> val)) (t : string) : val :=
  match parser with
  | Some f => f t
  | None => VString t
  end.

(** The tail of [arrayParserLoop] after its [for] loop. *)
Definition finish (s : state) (x : string) (parser : option (string -> val))
    (xs : list val) : list val * state :=
  (if Nat.ltb (last s) (i s)
   then xs ++ [apply_parser parser (slice x (last s) (i s + 1))]
   else xs, s).

(** [arrayParserLoop]: [loop fuel s x parser typarray xs] runs the [for]
    loop from the state [s] with [xs] the elements pushed so far, then the
    tail.  Each iteration and each nested call spends one unit of fuel;
    [None] means the fuel ran out. *)
Fixpoint loop (fuel : nat) (s : state) (x : string)
    (parser : option (string -> val)) (typarray : Z) (xs : list val)
    : option (list val * state) :=
  match fuel with
  | O => None
  | S fuel =>
    let delimiter := if Z.eqb typarray 1020 then ";"%char else ","%char in
    if Nat.ltb (i s) (String.length x) then
      let s := set_char s (char_at x (i s)) in
      if quoted s then
        if is_char (char s) backslash then
          let s := set_i s (i s + 1) in
          let s := set_str s (append_char (str s) (char_at x (i s))) in
          loop fuel (set_i (set_p s (char s)) (i s + 1)) x parser typarray xs
        else if is_char (char s) dquote then
          let xs := xs ++ [apply_parser parser (str s)] in
          let s := set_str s EmptyString in
          let s := set_quoted s (is_char (char_at x (i s + 1)) dquote) in
          let s := set_last s (i s + 2) in
          loop fuel (set_i (set_p s (char s)) (i s + 1)) x parser typarray xs
        else
          let s := set_str s (append_char (str s) (char s)) in
          loop fuel (set_i (set_p s (char s)) (i s + 1)) x parser typarray xs
      else if is_char (char s) dquote then
        let s := set_quoted s true in
        loop fuel (set_i (set_p s (char s)) (i s + 1)) x parser typarray xs
      else if is_char (char s) "{"%char then
        let s := set_i s (i s + 1) in
        let s := set_last s (i s) in
        match loop fuel s x parser typarray [] with
        | None => None
        | Some (inner, s) =>
          let xs := xs ++ [VArray inner] in
          loop fuel (set_i (set_p s (char s)) (i s + 1)) x parser typarray xs
        end
      else if is_char (char s) "}"%char then
        let s := set_quoted s false in
        let xs := if Nat.ltb (last s) (i s)
                  then xs ++ [apply_parser parser (slice x (last s) (i s))]
                  else xs in
        let s := set_last s (i s + 1) in
        Some (finish s x parser xs)
      else if is_char (char s) delimiter
              && negb (is_char (p s) "}"%char)
              && negb (is_char (p s) dquote) then
        let xs := xs ++ [apply_parser parser (slice x (last s) (i s))] in
        let s := set_last s (i s + 1) in
        loop fuel (set_i (set_p s (char s)) (i s + 1)) x parser typarray xs
      else
        loop fuel (set_i (set_p s (char s)) (i s + 1)) x parser typarray xs
    else Some (finish s x parser xs)
  end.

Definition arrayParserLoop (fuel : nat) (s : state) (x : string)
    (parser : option (string -> val)) (typarray : Z) :=
  loop fuel s x parser typarray [].

(** Fuel that always suffices for the text [x]. *)
Definition fuel_for (x : string) : nat := S (String.length x).

(** [arrayParser]: resets [i] and [last] of the scratch state, then runs
    the loop on it.  The scratch state left behind is returned as well. *)
Definition arrayParser (s : state) (x : string)
    (parser : option (string -> val)) (typarray : Z)
    : option (list val * state) :=
  let s := set_last (set_i s 0) 0 in
  arrayParserLoop (fuel_for x) s x parser typarray.

End Loop.
End ArrayParser.

(** ** Type inference and serialization *)

(** The result of the [typeof] operator on the modelled values. *)
Inductive jstype := TUndefined | TObject | TBoolean | TNumber | TBigint | TString.

Definition typeof {num} (x : value num) : jstype :=
  match x with
  | VUndefined => TUndefined
  | VBool _ => TBoolean
  | VNumber _ => TNumber
  | VBigInt _ => TBigint
  | VString _ => TString
  | _ => TObject
  end.

(** The type identifiers, named as the table in the source names them. *)
Module Oid.
Definition bool : Z := 16.
Definition bytea : Z := 17.
Definition int8 : Z := 20.
Definition int2 : Z := 21.
Definition int4 : Z := 23.
Definition text : Z := 25.
Definition oid : Z := 26.
Definition float4 : Z := 700.
Definition float8 : Z := 701.
Definition date : Z := 1082.
Definition timestamptz : Z := 1184.
Definition timestamp : Z := 1114.
Definition jsonb : Z := 114.
Definition untyped : Z := 0.
End Oid.

Section Codec.
Context {H : Host}.

(** [inferScalarType] *)
Definition inferScalarType (x : val) : Z :=
  match x with
  | VNull => 0
  | _ =>
    match typeof x with
    | TString => 25
    | TNumber =>
      match x with
      | VNumber n => if is_integer n then 23 else 700
      | _ => 0
      end
    | TBoolean => 16
    | TObject => 114
    | _ => 0
    end
  end%Z.

(** [inferType] *)
Fixpoint inferType (x : val) : Z :=
  match x with
  | VParameter _ type _ => type
  | VDate _ => 1184
  | VBuffer _ => 17
  | VBool _ => 16
  | VBigInt _ => 20
  | VArray xs =>
    match xs with
    | [] => inferScalarType VUndefined
    | x0 :: _ => inferType x0
    end
  | _ => inferScalarType x
  end%Z.

(** [new Parameter(value, type)] with the type given. *)
Definition new_Parameter_typed (v : val) (type : Z) : val :=
  VParameter v type
    (match v with
     | VArray xs => Some (map inferType xs)
     | _ => None
     end).

(** [new Parameter(value)]: the type defaults to [inferType(value)]. *)
Definition new_Parameter (v : val) : val := new_Parameter_typed v (inferType v).

(** *** JSON.stringify on the modelled values *)

Definition hex_digit (n : nat) : ascii :=
  if Nat.ltb n 10 then ascii_of_nat (48 + n) else ascii_of_nat (87 + n).

(** QuoteJSONString: one character. *)
Definition JSON_quote_char (c : ascii) : string :=
  let n := nat_of_ascii c in
  if Ascii.eqb c dquote then str1 backslash +++ str1 dquote
  else if Ascii.eqb c backslash then str1 backslash +++ str1 backslash
  else if Nat.eqb n 8 then str1 backslash +++ "b"
  else if Nat.eqb n 9 then str1 backslash +++ "t"
  else if Nat.eqb n 10 then str1 backslash +++ "n"
  else if Nat.eqb n 12 then str1 backslash +++ "f"
  else if Nat.eqb n 13 then str1 backslash +++ "r"
  else if Nat.ltb n 32 then
    str1 backslash +++ "u00" +++ str1 (hex_digit (n / 16)) +++ str1 (hex_digit (n mod 16))
  else str1 c.

Fixpoint JSON_quote_chars (s : string) : string :=
  match s with
  | EmptyString => EmptyString
  | String c rest => JSON_quote_char c +++ JSON_quote_chars rest
  end.

Definition JSON_quote (s : string) : string :=
  str1 dquote +++ JSON_quote_chars s +++ str1 dquote.

(** An array element that has no JSON text is written as null. *)
Definition JSON_element (r : exc (option string)) : exc string :=
  match r with
  | Ok (Some t) => Ok t
  | Ok None => Ok "null"
  | Throw e => Throw e
  end.

(** An object member that has no JSON text is left out. *)
Definition JSON_member (k : string) (r : exc (option string)) : exc (list string) :=
  match r with
  | Ok (Some t) => Ok [JSON_quote k +++ ":" +++ t]
  | Ok None => Ok []
  | Throw e => Throw e
  end.

(** SerializeJSONProperty.  [None] is the undefined result.  A binary
    buffer is written through Node's [Buffer.prototype.toJSON]; wrapper
    objects through their own enumerable data properties. *)
Fixpoint JSON_property (v : val) : exc (option string) :=
  let elements := fix elements (xs : list val) : exc (list string) :=
    match xs with
    | [] => Ok []
    | x :: rest =>
      exc_bind (JSON_element (JSON_property x)) (fun t =>
      exc_bind (elements rest) (fun ts => Ok (t :: ts)))
    end in
  let members := fix members (fs : list (string * val)) : exc (list string) :=
    match fs with
    | [] => Ok []
    | (k, x) :: rest =>
      exc_bind (JSON_member k (JSON_property x)) (fun t =>
      exc_bind (members rest) (fun ts => Ok (t ++ ts)))
    end in
  let array xs := exc_bind (elements xs) (fun ts => Ok ("[" +++ join "," ts +++ "]")) in
  let strs (ss : list string) := "[" +++ join "," (map JSON_quote ss) +++ "]" in
  match v with
  | VUndefined => Ok None
  | VNull => Ok (Some "null")
  | VBool b => Ok (Some (if b then "true" else "false"))
  | VNumber n => Ok (Some (if is_finite n then number_toString n else "null"))
  | VBigInt _ => Throw (TypeError "Do not know how to serialize a BigInt")
  | VString s => Ok (Some (JSON_quote s))
  | VDate None => Ok (Some "null")
  | VDate (Some t) => Ok (Some (JSON_quote (Date_toISOString t)))
  | VBuffer bs =>
    Ok (Some ("{" +++ JSON_quote "type" +++ ":" +++ JSON_quote "Buffer" +++ ","
              +++ JSON_quote "data" +++ ":[" +++ join "," (map nat_toString bs) +++ "]}"))
  | VArray xs => exc_bind (array xs) (fun t => Ok (Some t))
  | VObject fs =>
    exc_bind (members fs) (fun ts => Ok (Some ("{" +++ join "," ts +++ "}")))
  | VPromise => Ok (Some "{}")
  | VParameter x type arr =>
    exc_bind (JSON_member "value" (JSON_property x)) (fun t =>
    Ok (Some ("{" +++ join ","
          (t ++ [JSON_quote "type" +++ ":" +++ Z_toString type;
                 JSON_quote "array" +++ ":" +++
                 match arr with
                 | Some ts => "[" +++ join "," (map Z_toString ts) +++ "]"
                 | None => "null"
                 end]) +++ "}")))
  | VIdentifier s => Ok (Some ("{" +++ JSON_quote "value" +++ ":" +++ JSON_quote s +++ "}"))
  | VQuery strings args =>
    exc_bind (array args) (fun t =>
    Ok (Some ("{" +++ JSON_quote "strings" +++ ":" +++ strs strings +++ ","
              +++ JSON_quote "args" +++ ":" +++ t +++ "}")))
  | VBuilder first rest =>
    exc_bind (JSON_member "first" (JSON_property first)) (fun t =>
    exc_bind (array rest) (fun r =>
    Ok (Some ("{" +++ join "," (t ++ [JSON_quote "rest" +++ ":" +++ r]) +++ "}"))))
  end.

Definition JSON_stringify (v : val) : exc (option string) := JSON_property v.

(** [xs.join(sep)]: undefined and null entries are written as empty. *)
Definition join_opt (sep : string) (xs : list (option string)) : string :=
  join sep (map (fun o => match o with Some t => t | None => EmptyString end) xs).

(** The body of [serialize] once the Parameter has been unwrapped. *)
Fixpoint serialize_value (x : val) : exc (option string) :=
  let each := fix each (xs : list val) : exc (list (option string)) :=
    match xs with
    | [] => Ok []
    | y :: rest =>
      exc_bind (match y with
                | VParameter v _ _ => serialize_value v
                | _ => serialize_value y
                end) (fun t =>
      exc_bind (each rest) (fun ts => Ok (t :: ts)))
    end in
  match x with
  | VString s => Ok (Some s)
  | VNumber n => Ok (Some (number_toString n))
  | VBool b => Ok (Some (if b then "t" else "f"))
  | VBigInt z => Ok (Some (Z_toString z))
  | VUndefined => Ok None
  | VDate (Some t) => Ok (Some (Date_toISOString t))
  | VDate None => Throw (RangeError "Invalid time value")
  | VArray xs => exc_bind (each xs) (fun ts => Ok (Some ("{" +++ join_opt "," ts +++ "}")))
  | _ => JSON_stringify x
  end.

(** [serialize] *)
Definition serialize (value : val) : exc (option string) :=
  match value with
  | VParameter v _ _ => serialize_value v
  | _ => serialize_value value
  end.

End Codec.

(** ** Deserialization *)

Section Decode.
Context {H : Host}.
Import ArrayParser.

(** The value of one hexadecimal digit, if it is one. *)
Definition hex_value (c : ascii) : option nat :=
  let n := nat_of_ascii c in
  if Nat.leb 48 n && Nat.leb n 57 then Some (n - 48)
  else if Nat.leb 97 n && Nat.leb n 102 then Some (n - 87)
  else if Nat.leb 65 n && Nat.leb n 70 then Some (n - 55)
  else None.

(** [Buffer.from(text, hex)]: whole pairs of hexadecimal digits are
    decoded up to the first pair that is not one. *)
Fixpoint hex_decode (s : string) : list nat :=
  match s with
  | String a (String b rest) =>
    match hex_value a, hex_value b with
    | Some h, Some l => (16 * h + l) :: hex_decode rest
    | _, _ => []
    end
  | _ => []
  end.

(** [xs.flat()]: one level of nested arrays is spliced in. *)
Fixpoint flat (xs : list val) : list val :=
  match xs with
  | [] => []
  | VArray ys :: rest => ys ++ flat rest
  | y :: rest => y :: flat rest
  end.

(** The numeric cases of [deserialize]: [+value]. *)
Definition numeric (value : string) : val := VNumber (ToNumber value).

(** [deserialize].  The array case runs the parser on the shared scratch
    state [s], so the state is threaded through.  The parser never runs out
    of its fuel (see [arrayParser_total]); that branch is dead. *)
Definition deserialize (s : state) (value : string) (dataTypeId : Z)
    : exc val * state :=
  match dataTypeId with
  | 0 | 21 | 23 | 26 | 700 | 701 => (Ok (numeric value), s)
  | 17 => (Ok (VBuffer (hex_decode (slice_from value 2))), s)
  | 16 => (Ok (VBool (String.eqb value "t")), s)
  | 20 =>
    (match BigInt_parse value with
     | Some z => Ok (VBigInt z)
     | None => Throw (SyntaxError "Cannot convert to a BigInt")
     end, s)
  | 25 => (Ok (VString value), s)
  | 1184 | 1082 | 1114 => (Ok (VDate (Date_parse value)), s)
  | 3802 | 114 =>
    (match JSON_parse value with
     | Some v => Ok v
     | None => Throw (SyntaxError "Unexpected token in JSON")
     end, s)
  | 1007 =>
    match arrayParser s value (Some numeric) 0 with
    | Some (v, s') => (Ok (VArray (flat v)), s')
    | None => (Throw (RangeError "out of fuel"), s)
    end
  | _ => (Ok (VString value), s)
  end%Z.

End Decode.

(** ** A host for evaluation

    A stand-in for the ECMAScript built-ins on which the definitions can
    be run: numbers are decimal fractions [m / 10^k] (plus NaN and the
    infinities) printed without exponent, dates follow the proleptic
    Gregorian calendar in UTC. *)

Module EvalHost.

Inductive num := NaN | Inf (neg : bool) | Dec (m : Z) (k : nat).

(** Drop trailing zeros of the fraction. *)
Fixpoint normalize (m : Z) (k : nat) : Z * nat :=
  match k with
  | O => (m, O)
  | S k' => if (m mod 10 =? 0)%Z then normalize (m / 10) k' else (m, k)
  end.

Definition is_integer (x : num) : bool :=
  match x with
  | Dec m k => match normalize m k with (_, O) => true | _ => false end
  | _ => false
  end.

Definition is_finite (x : num) : bool :=
  match x with Dec _ _ => true | _ => false end.

Fixpoint zeros (n : nat) : string :=
  match n with O => EmptyString | S n => "0" +++ zeros n end.

Definition number_toString (x : num) : string :=
  match x with
  | NaN => "NaN"
  | Inf false => "Infinity"
  | Inf true => "-Infinity"
  | Dec m k =>
    let (m, k) := normalize m k in
    match k with
    | O => Z_toString m
    | _ =>
      let a := Z.abs m in
      let q := (a / 10 ^ Z.of_nat k)%Z in
      let r := (a mod 10 ^ Z.of_nat k)%Z in
      let f := Z_toString r in
      (if (m <? 0)%Z then "-" else EmptyString)
        +++ Z_toString q +++ "." +++ zeros (k - String.length f) +++ f
    end
  end.

Definition digit_value (c : ascii) : option Z :=
  let n := nat_of_ascii c in
  if Nat.leb 48 n && Nat.leb n 57 then Some (Z.of_nat (n - 48)) else None.

(** Digits with at most one decimal point. *)
Fixpoint parse_decimal (s : string) (m : Z) (k : nat) (dot any : bool)
    : option (Z * nat) :=
  match s with
  | EmptyString => if any then Some (m, k) else None
  | String c rest =>
    match digit_value c with
    | Some d => parse_decimal rest (10 * m + d)%Z (if dot then S k else k) dot true
    | None =>
      if Ascii.eqb c "."%char && negb dot then parse_decimal rest m k true any
      else None
    end
  end.

Definition ToNumber (s : string) : num :=
  if String.eqb s EmptyString then Dec 0 0
  else if String.eqb s "Infinity" then Inf false
  else if String.eqb s "-Infinity" then Inf true
  else
    let (neg, body) :=
      match s with
      | String c rest => if Ascii.eqb c "-"%char then (true, rest) else (false, s)
      | _ => (false, s)
      end in
    match parse_decimal body 0 0 false false with
    | Some (m, k) => let (m, k) := normalize m k in Dec (if neg then - m else m) k
    | None => NaN
    end.

Definition BigInt_parse (s : string) : option Z :=
  if String.eqb s EmptyString then Some 0%Z
  else option_map Z.of_int (NilZero.int_of_string s).

(** *** Dates *)

Definition pad (width : nat) (z : Z) : string :=
  let t := Z_toString z in zeros (width - String.length t) +++ t.

Local Open Scope Z_scope.

(** Year, month and day of a day number counted from 1970-01-01. *)
Definition civil_from_days (days : Z) : Z * Z * Z :=
  let z := days + 719468 in
  let era := z / 146097 in
  let doe := z - era * 146097 in
  let yoe := (doe - doe / 1460 + doe / 36524 - doe / 146096) / 365 in
  let doy := doe - (365 * yoe + yoe / 4 - yoe / 100) in
  let mp := (5 * doy + 2) / 153 in
  let d := doy - (153 * mp + 2) / 5 + 1 in
  let m := if mp <? 10 then mp + 3 else mp - 9 in
  let y := yoe + era * 400 + (if m <=? 2 then 1 else 0) in
  (y, m, d).

Definition days_from_civil (y m d : Z) : Z :=
  let y := if m <=? 2 then y - 1 else y in
  let era := y / 400 in
  let yoe := y - era * 400 in
  let doy := (153 * (if 2 <? m then m - 3 else m + 9) + 2) / 5 + d - 1 in
  let doe := yoe * 365 + yoe / 4 - yoe / 100 + doy in
  era * 146097 + doe - 719468.

Definition Date_toISOString (t : Z) : string :=
  let days := t / 86400000 in
  let ms := t mod 86400000 in
  let '(y, m, d) := civil_from_days days in
  (if (0 <=? y) && (y <=? 9999) then pad 4 y
   else (if y <? 0 then "-" else "+") +++ pad 6 (Z.abs y))
  +++ "-" +++ pad 2 m +++ "-" +++ pad 2 d +++ "T"
  +++ pad 2 (ms / 3600000) +++ ":" +++ pad 2 (ms / 60000 mod 60) +++ ":"
  +++ pad 2 (ms / 1000 mod 60) +++ "." +++ pad 3 (ms mod 1000) +++ "Z".

(** The digits of [s] from [pos], [len] of them, as a number. *)
Definition digits_at (s : string) (pos len : nat) : option Z :=
  match parse_decimal (substring pos len s) 0 0 true false with
  | Some (m, _) => if Nat.eqb (String.length (substring pos len s)) len then Some m else None
  | None => None
  end.

(** Accepts the format [toISOString] writes for four-digit years. *)
Definition Date_parse (s : string) : option Z :=
  if negb (Nat.eqb (String.length s) 24) then None
  else if negb (String.eqb (substring 4 1 s) "-" && String.eqb (substring 7 1 s) "-"
                && String.eqb (substring 10 1 s) "T" && String.eqb (substring 13 1 s) ":"
                && String.eqb (substring 16 1 s) ":" && String.eqb (substring 19 1 s) "."
                && String.eqb (substring 23 1 s) "Z") then None
  else
    match digits_at s 0 4, digits_at s 5 2, digits_at s 8 2,
          digits_at s 11 2, digits_at s 14 2, digits_at s 17 2, digits_at s 20 3 with
    | Some y, Some m, Some d, Some hh, Some mm, Some ss, Some ms =>
      if (1 <=? m) && (m <=? 12) && (1 <=? d) && (d <=? 31)
         && (hh <=? 23) && (mm <=? 59) && (ss <=? 59)
      then Some (days_from_civil y m d * 86400000 + hh * 3600000 + mm * 60000 + ss * 1000 + ms)
      else None
    | _, _, _, _, _, _, _ => None
    end.

Local Close Scope Z_scope.

(** *** RegExp search for the keyword patterns *)

(** The keyword between the fixed prefix and suffix of a pattern source;
    an escaped parenthesis stands for the parenthesis. *)
Definition pattern_keyword (source : string) : string :=
  let n := String.length source in
  let body := substring (String.length pattern_prefix)
                (n - String.length pattern_prefix - String.length pattern_suffix) source in
  if String.eqb body (str1 backslash +++ "(") then "(" else body.

Definition lower (c : ascii) : ascii :=
  let n := nat_of_ascii c in
  if Nat.leb 65 n && Nat.leb n 90 then ascii_of_nat (n + 32) else c.

Definition space_or_paren (c : ascii) : bool :=
  let n := nat_of_ascii c in
  (Nat.leb 9 n && Nat.leb n 13) || Nat.eqb n 32 || Nat.eqb n 40.

Fixpoint prefix_ci (a b : string) : bool :=
  match a, b with
  | EmptyString, _ => true
  | String x a', String y b' => Ascii.eqb (lower x) (lower y) && prefix_ci a' b'
  | _, _ => false
  end.

Fixpoint occurs_ci (a b : string) : bool :=
  prefix_ci a b || match b with EmptyString => false | String _ b' => occurs_ci a b' end.

(** The keyword, then the end of the text or a boundary character, with
    no later occurrence of what was captured. *)
Definition match_keyword (kw lead s : string) : bool :=
  prefix_ci kw s &&
  let matched := substring 0 (String.length kw) s in
  match substring (String.length kw) (String.length s - String.length kw) s with
  | EmptyString => true
  | String c rest => space_or_paren c && negb (occurs_ci (lead +++ matched +++ str1 c) rest)
  end.

Definition match_at (kw s : string) (at_start : bool) : bool :=
  (at_start && match_keyword kw EmptyString s)
  || match s with
     | String c rest => space_or_paren c && match_keyword kw (str1 c) rest
     | EmptyString => false
     end.

Fixpoint search_from (kw s : string) (pos : nat) : Z :=
  if match_at kw s (Nat.eqb pos 0) then Z.of_nat pos
  else match s with
       | EmptyString => -1
       | String _ rest => search_from kw rest (S pos)
       end.

Definition RegExp_search (source text : string) : Z :=
  search_from (pattern_keyword source) text 0.

(** *** JSON.parse *)

Definition json_space (c : ascii) : bool :=
  let n := nat_of_ascii c in
  Nat.eqb n 32 || Nat.eqb n 9 || Nat.eqb n 10 || Nat.eqb n 13.

Fixpoint skip_space (s : string) : string :=
  match s with
  | String c rest => if json_space c then skip_space rest else s
  | EmptyString => s
  end.

Definition number_char (c : ascii) : bool :=
  match digit_value c with
  | Some _ => true
  | None => Ascii.eqb c "-"%char || Ascii.eqb c "."%char
  end.

(** The longest run of number characters at the head of [s]. *)
Fixpoint number_run (s : string) : string * string :=
  match s with
  | String c rest =>
    if number_char c then let (a, b) := number_run rest in (String c a, b)
    else (EmptyString, s)
  | EmptyString => (EmptyString, s)
  end.

(** The characters of a string literal after its opening quote. *)
Fixpoint string_body (s : string) : option (string * string) :=
  match s with
  | EmptyString => None
  | String c rest =>
    if Ascii.eqb c dquote then Some (EmptyString, rest)
    else if Ascii.eqb c backslash then
      match rest with
      | String e rest' =>
        let lit (x : ascii) :=
          option_map (fun '(a, b) => (String x a, b)) (string_body rest') in
        if Ascii.eqb e "n"%char then lit (ascii_of_nat 10)
        else if Ascii.eqb e "t"%char then lit (ascii_of_nat 9)
        else if Ascii.eqb e "r"%char then lit (ascii_of_nat 13)
        else if Ascii.eqb e "b"%char then lit (ascii_of_nat 8)
        else if Ascii.eqb e "f"%char then lit (ascii_of_nat 12)
        else if Ascii.eqb e dquote || Ascii.eqb e backslash || Ascii.eqb e "/"%char
        then lit e
        else None
      | EmptyString => None
      end
    else option_map (fun '(a, b) => (String c a, b)) (string_body rest)
  end.

Section Parse.
Variable parse_value : string -> option (value num * string).

(** The elements after the opening bracket, [first] before any of them. *)
Fixpoint parse_elements (fuel : nat) (first : bool) (s : string)
    : option (list (value num) * string) :=
  match fuel with
  | O => None
  | S fuel =>
    match skip_space s with
    | String c rest =>
      if Ascii.eqb c "]"%char && first then Some ([], rest)
      else
        match parse_value s with
        | Some (v, s') =>
          match skip_space s' with
          | String d rest' =>
            if Ascii.eqb d ","%char then
              option_map (fun '(vs, r) => (v :: vs, r)) (parse_elements fuel false rest')
            else if Ascii.eqb d "]"%char then Some ([v], rest')
            else None
          | EmptyString => None
          end
        | None => None
        end
    | EmptyString => None
    end
  end.

Fixpoint parse_members (fuel : nat) (first : bool) (s : string)
    : option (list (string * value num) * string) :=
  match fuel with
  | O => None
  | S fuel =>
    match skip_space s with
    | String c rest =>
      if Ascii.eqb c "}"%char && first then Some ([], rest)
      else if Ascii.eqb c dquote then
        match string_body rest with
        | Some (k, s1) =>
          match skip_space s1 with
          | String colon s2 =>
            if Ascii.eqb colon ":"%char then
              match parse_value s2 with
              | Some (v, s') =>
                match skip_space s' with
                | String d rest' =>
                  if Ascii.eqb d ","%char then
                    option_map (fun '(vs, r) => ((k, v) :: vs, r))
                               (parse_members fuel false rest')
                  else if Ascii.eqb d "}"%char then Some ([(k, v)], rest')
                  else None
                | EmptyString => None
                end
              | None => None
              end
            else None
          | EmptyString => None
          end
        | None => None
        end
      else None
    | EmptyString => None
    end
  end.
End Parse.

Fixpoint parse_value (fuel : nat) (s : string) : option (value num * string) :=
  match fuel with
  | O => None
  | S fuel =>
    let s := skip_space s in
    match s with
    | EmptyString => None
    | String c rest =>
      if Ascii.eqb c "["%char then
        option_map (fun '(vs, r) => (VArray vs, r))
                   (parse_elements (parse_value fuel) (String.length s) true rest)
      else if Ascii.eqb c "{"%char then
        option_map (fun '(fs, r) => (VObject fs, r))
                   (parse_members (parse_value fuel) (String.length s) true rest)
      else if Ascii.eqb c dquote then
        option_map (fun '(t, r) => (VString t, r)) (string_body rest)
      else if prefix "null" s then Some (VNull, substring 4 (String.length s - 4) s)
      else if prefix "true" s then Some (VBool true, substring 4 (String.length s - 4) s)
      else if prefix "false" s then Some (VBool false, substring 5 (String.length s - 5) s)
      else
        let (t, r) := number_run s in
        match ToNumber t with
        | NaN => None
        | n => if String.eqb t EmptyString then None else Some (VNumber n, r)
        end
    end
  end.

Definition JSON_parse (s : string) : option (value num) :=
  match parse_value (S (String.length s)) s with
  | Some (v, rest) =>
    if String.eqb (skip_space rest) EmptyString then Some v else None
  | None => None
  end.

(** Property names of primitive values; objects print as objects do. *)
Definition ToPropertyKey (v : value num) : string :=
  match v with
  | VString t => t
  | VNumber n => number_toString n
  | VUndefined => "undefined"
  | VNull => "null"
  | VBool b => if b then "true" else "false"
  | VBigInt z => Z_toString z
  | VArray [] => EmptyString
  | _ => "[object Object]"
  end.

End EvalHost.

#[export] Instance evalHost : Host := {|
  number := EvalHost.num;
  is_integer := EvalHost.is_integer;
  is_finite := EvalHost.is_finite;
  number_toString := EvalHost.number_toString;
  ToNumber := EvalHost.ToNumber;
  Date_toISOString := EvalHost.Date_toISOString;
  Date_parse := EvalHost.Date_parse;
  BigInt_parse := EvalHost.BigInt_parse;
  JSON_parse := EvalHost.JSON_parse;
  RegExp_search := EvalHost.RegExp_search;
  number_of_Z := fun z => EvalHost.Dec z 0;
  ToPropertyKey := EvalHost.ToPropertyKey
|}.

(** ** Template composer *)

(** The accumulators [parameters] and [types] that one [prepare] shares
    with every nested call. *)
Record accum {H : Host} := mkAccum {
  parameters : list val;
  types : list Z
}.

(** [options.transform]: the substitute for undefined and the column
    transform ([None]: the property is undefined). *)
Record transform_t {H : Host} := mkTransform {
  t_undefined : val;
  t_column : option (option (string -> string))
}.

(** [options]; [prepare] passes the empty object. *)
Record options_t {H : Host} := mkOptions {
  transform : option transform_t
}.

Section Composer.
Context {H : Host}.

Definition empty_options : options_t := {| transform := None |}.
Definition empty_accum : accum := {| parameters := []; types := [] |}.

(** A computation over the accumulators that may throw; [None] means the
    recursion fuel ran out. *)
Definition M (A : Type) : Type := accum -> option (exc (A * accum)).

Definition ret {A} (a : A) : M A := fun st => Some (Ok (a, st)).
Definition throw {A} (e : error) : M A := fun _ => Some (Throw e).
Definition out_of_fuel {A} : M A := fun _ => None.
Definition bind {A B} (m : M A) (k : A -> M B) : M B :=
  fun st =>
    match m st with
    | Some (Ok (a, st')) => k a st'
    | Some (Throw e) => Some (Throw e)
    | None => None
    end.
Definition lift {A} (r : exc A) : M A :=
  match r with
  | Ok a => ret a
  | Throw e => throw e
  end.

Notation "x <- m ;; k" := (bind m (fun x => k))
  (at level 61, m at next level, right associativity).

(** [xs.map(f)] for an effectful [f], left to right. *)
Fixpoint mapM {A B} (f : A -> M B) (xs : list A) : M (list B) :=
  match xs with
  | [] => ret []
  | x :: rest => y <- f x ;; ys <- mapM f rest ;; ret (y :: ys)
  end.

Definition undefined_read : error :=
  TypeError "Cannot read properties of undefined".

(** *** Property access *)

(** The array index a property name denotes, if any. *)
Definition index_of_key (k : string) : option nat :=
  match NilEmpty.uint_of_string k with
  | Some u =>
    let n := Nat.of_uint u in
    if String.eqb (nat_toString n) k then Some n else None
  | None => None
  end.

Fixpoint assoc (k : string) (fs : list (string * val)) : val :=
  match fs with
  | [] => VUndefined
  | (k', v) :: rest => if String.eqb k k' then v else assoc k rest
  end.

Definition of_nat (n : nat) : val := VNumber (number_of_Z (Z.of_nat n)).

(** [v[k]] on the data properties of the modelled values. *)
Definition get_prop (v : val) (k : string) : exc val :=
  match v with
  | VUndefined | VNull => Throw undefined_read
  | VObject fs => Ok (assoc k fs)
  | VArray xs =>
    match index_of_key k with
    | Some n => Ok (nth n xs VUndefined)
    | None => Ok (if String.eqb k "length" then of_nat (List.length xs) else VUndefined)
    end
  | VBuffer bs =>
    match index_of_key k with
    | Some n => Ok (match nth_error bs n with Some b => of_nat b | None => VUndefined end)
    | None => Ok (if String.eqb k "length" then of_nat (List.length bs) else VUndefined)
    end
  | VString t =>
    match index_of_key k with
    | Some n => Ok (match char_at t n with Some c => VString (str1 c) | None => VUndefined end)
    | None => Ok (if String.eqb k "length" then of_nat (String.length t) else VUndefined)
    end
  | VParameter x type arr =>
    Ok (if String.eqb k "value" then x
        else if String.eqb k "type" then VNumber (number_of_Z type)
        else if String.eqb k "array" then
          match arr with
          | Some ts => VArray (map (fun t => VNumber (number_of_Z t)) ts)
          | None => VNull
          end
        else VUndefined)
  | VIdentifier t => Ok (if String.eqb k "value" then VString t else VUndefined)
  | VQuery strings args =>
    Ok (if String.eqb k "strings" then VArray (map VString strings)
        else if String.eqb k "args" then VArray args
        else VUndefined)
  | VBuilder first rest =>
    Ok (if String.eqb k "first" then first
        else if String.eqb k "rest" then VArray rest
        else VUndefined)
  | _ => Ok VUndefined
  end.

Definition indices (n : nat) : list val :=
  map (fun k => VString (nat_toString k)) (seq 0 n).

(** [Object.keys(v)] *)
Definition Object_keys (v : val) : exc (list val) :=
  match v with
  | VUndefined | VNull => Throw (TypeError "Cannot convert undefined or null to object")
  | VObject fs => Ok (map (fun kv => VString (fst kv)) fs)
  | VArray xs => Ok (indices (List.length xs))
  | VBuffer bs => Ok (indices (List.length bs))
  | VString t => Ok (indices (String.length t))
  | VParameter _ _ _ => Ok [VString "value"; VString "type"; VString "array"]
  | VIdentifier _ => Ok [VString "value"]
  | VQuery _ _ =>
    Ok [VString "strings"; VString "args"; VString "resolve"; VString "reject";
        VString "handler"]
  | VBuilder _ _ => Ok [VString "first"; VString "rest"]
  | _ => Ok []
  end.

Definition isArray (v : val) : bool :=
  match v with VArray _ => true | _ => false end.

(** *** Identifiers *)

(** [str.replace(/c/g, by)] for a single character [c]. *)
Fixpoint replace_char (c : ascii) (by_ : string) (t : string) : string :=
  match t with
  | EmptyString => EmptyString
  | String d rest =>
    (if Ascii.eqb d c then by_ else str1 d) +++ replace_char c by_ rest
  end.

(** [escapeIdentifier] *)
Definition escapeIdentifier (x : val) : exc string :=
  match x with
  | VString t =>
    Ok (str1 dquote
        +++ replace_char "."%char (str1 dquote +++ "." +++ str1 dquote)
              (replace_char dquote (str1 dquote +++ str1 dquote) t)
        +++ str1 dquote)
  | _ => Throw (TypeError "str.replace is not a function")
  end.

(** [options.transform.column.to ? options.transform.column.to(x) : x] *)
Definition column_to (options : options_t) (x : val) : exc val :=
  match transform options with
  | None => Throw undefined_read
  | Some t =>
    match t_column t with
    | None => Throw undefined_read
    | Some None => Ok x
    | Some (Some to) =>
      match x with
      | VString c => Ok (VString (to c))
      | _ => Ok x
      end
    end
  end.

Fixpoint map_exc {A B} (f : A -> exc B) (xs : list A) : exc (list B) :=
  match xs with
  | [] => Ok []
  | x :: rest =>
    exc_bind (f x) (fun y => exc_bind (map_exc f rest) (fun ys => Ok (y :: ys)))
  end.

(** [escapeIdentifiers]: destructuring the options comes first. *)
Definition escapeIdentifiers (xs : val) (options : options_t) : exc string :=
  match transform options with
  | None => Throw undefined_read
  | Some t =>
    match xs with
    | VArray ys =>
      exc_bind (map_exc (fun x =>
                  exc_bind (match t_column t with
                            | None => Throw undefined_read
                            | Some None => Ok x
                            | Some (Some to) =>
                              match x with
                              | VString c => Ok (VString (to c))
                              | _ => Ok x
                              end
                            end) escapeIdentifier) ys)
               (fun ts => Ok (join "," ts))
    | _ => Throw (TypeError "xs.map is not a function")
    end
  end.

(** *** Values *)

(** [firstIsString] *)
Fixpoint firstIsString (x : val) : Z :=
  match x with
  | VArray [] => 0
  | VArray (x0 :: _) => firstIsString x0
  | VString _ => 1009
  | _ => 0
  end.

(** [a || b] on type identifiers. *)
Definition or_else (a b : Z) : Z := if Z.eqb a 0 then b else a.

(** [x.array[k]] where [k] is a type identifier; 0 when undefined. *)
Definition array_at (arr : list Z) (k : Z) : Z :=
  if Z.ltb k 0 then 0%Z else nth (Z.to_nat k) arr 0%Z.

Definition push (value : val) (type : Z) : M nat :=
  fun st =>
    let st' := {| parameters := parameters st ++ [value];
                  types := types st ++ [type] |} in
    Some (Ok (List.length (types st'), st')).

(** [handleValue].  When the value is undefined the substitute is read
    from [options.transform], which throws when [transform] is missing.
    For a Parameter the substitute is stored in the Parameter while the
    local [value] stays undefined, so the throw follows. *)
Definition handleValue (x : val) (options : options_t) : M string :=
  let value := match x with VParameter v _ _ => v | _ => x end in
  x <- match value with
       | VUndefined =>
         match transform options with
         | None => throw undefined_read
         | Some t =>
           match x with
           | VParameter _ _ _ => throw (Error "Undefined values are not allowed")
           | _ =>
             match t_undefined t with
             | VUndefined => throw (Error "Undefined values are not allowed")
             | substitute => ret substitute
             end
           end
         end
       | _ => ret x
       end ;;
  idx <- match x with
         | VParameter v type arr =>
           push v (match arr with
                   | Some a =>
                     or_else (array_at a (or_else type (inferType v)))
                       (or_else type (firstIsString v))
                   | None => type
                   end)
         | _ => push x (inferType x)
         end ;;
  ret ("$" +++ nat_toString idx).


(** *** The composer proper *)

(** The functions the [builders] table holds. *)
Inductive builder_fn := BValues | BIn | BSelect | BUpdate | BInsert.

(** [builders]: the keyword patterns in the order of the object literal. *)
Definition builders : list (string * builder_fn) :=
  map (fun '(x, fn) => (regexp_source x, fn))
    [("values", BValues); ("in", BIn); ("select", BSelect); ("as", BSelect);
     ("returning", BSelect); (str1 backslash +++ "(", BSelect);
     ("update", BUpdate); ("insert", BInsert)].

(** [xs.sort((a, b) => a.i - b.i)]: a stable sort by the index. *)
Fixpoint insert_sorted (x : builder_fn * Z) (ys : list (builder_fn * Z))
    : list (builder_fn * Z) :=
  match ys with
  | [] => [x]
  | y :: rest =>
    if Z.ltb (snd x) (snd y) then x :: ys else y :: insert_sorted x rest
  end.

Definition sort_by_index (xs : list (builder_fn * Z)) : list (builder_fn * Z) :=
  fold_left (fun acc x => insert_sorted x acc) xs [].

(** The keyword entry [build] picks for the text [before]. *)
Definition keyword (before : string) : builder_fn * Z :=
  last (sort_by_index
          (map (fun '(x, fn) => (fn, RegExp_search x before)) builders))
       (BValues, (-1)%Z).

(** [value && value[0] instanceof Query] *)
Definition first_is_Query (value : val) : bool :=
  match value with
  | VUndefined | VNull => false
  | _ =>
    match get_prop value "0" with
    | Ok (VQuery _ _) => true
    | _ => false
    end
  end.

Section Body.
(** [stringifyValue] as the nested calls see it. *)
Variable stringifyValue : string -> val -> options_t -> M string.

(** The [for] loop of [stringify]: [rest] holds the segments [q.strings[i]]
    from index [i] on. *)
Fixpoint stringify_loop (args : list val) (rest : list string) (i : nat)
    (string_ : string) (value : val) (options : options_t) : M string :=
  match rest with
  | [] => ret string_
  | si :: rest' =>
    t <- stringifyValue string_ value options ;;
    stringify_loop args rest' (S i) (string_ +++ t +++ si)
      (nth i args VUndefined) options
  end.

(** [stringify] *)
Definition stringify (strings : list string) (args : list val)
    (string_ : string) (value : val) (options : options_t) : M string :=
  stringify_loop args (tl strings) 1 string_ value options.

(** [fragment].  A template has at least one segment; anything that is
    not a Query has no [strings] to read. *)
Definition fragment (q : val) (options : options_t) : M string :=
  match q with
  | VQuery strings args =>
    stringify strings args (hd EmptyString strings) (nth 0 args VUndefined) options
  | _ => throw undefined_read
  end.

(** [valuesBuilder] *)
Definition valuesBuilder (first : val) (columns : list val)
    (options : options_t) : M string :=
  match first with
  | VArray rows =>
    ts <- mapM (fun row =>
            cs <- mapM (fun column =>
                    v <- lift (get_prop row (ToPropertyKey column)) ;;
                    stringifyValue "values" v options) columns ;;
            ret ("(" +++ join "," cs +++ ")")) rows ;;
    ret (join "," ts)
  | _ => throw (TypeError "first.map is not a function")
  end.

(** [rest.length ? rest.flat() : Object.keys(v)] *)
Definition columns_of (rest : list val) (v : val) : exc (list val) :=
  match rest with
  | [] => Object_keys v
  | _ => Ok (flat rest)
  end.

(** [values] *)
Definition values (first : val) (rest : list val) (options : options_t)
    : M string :=
  first0 <- lift (get_prop first "0") ;;
  let multi := isArray first0 in
  columns <- lift (columns_of rest (if multi then first0 else first)) ;;
  valuesBuilder (if multi then first else VArray [first]) columns options.

(** [builders.in] *)
Definition in_ (first : val) (rest : list val) (options : options_t)
    : M string :=
  x <- values first rest options ;;
  ret (if String.eqb x "()" then "(null)" else x).

(** [select] *)
Definition select (first : val) (rest : list val) (options : options_t)
    : M string :=
  let first := match first with
               | VString _ => VArray (first :: rest)
               | _ => first
               end in
  if isArray first then lift (escapeIdentifiers first options)
  else
    columns <- lift (columns_of rest first) ;;
    ts <- mapM (fun x =>
            value <- lift (get_prop first (ToPropertyKey x)) ;;
            t <- match value with
                 | VQuery _ _ => fragment value options
                 | VIdentifier t => ret t
                 | _ => handleValue value options
                 end ;;
            c <- lift (exc_bind (column_to options x) escapeIdentifier) ;;
            ret (t +++ " as " +++ c)) columns ;;
    ret (join "," ts).

(** [builders.update]; the array it returns is joined by commas when it is
    appended to the text. *)
Definition update (first : val) (rest : list val) (options : options_t)
    : M string :=
  columns <- lift (columns_of rest first) ;;
  ts <- mapM (fun x =>
          c <- lift (exc_bind (column_to options x) escapeIdentifier) ;;
          v <- lift (get_prop first (ToPropertyKey x)) ;;
          t <- stringifyValue "values" v options ;;
          ret (c +++ "=" +++ t)) columns ;;
  ret (join "," ts).

(** [builders.insert] *)
Definition insert (first : val) (rest : list val) (options : options_t)
    : M string :=
  columns <- match rest with
             | [] =>
               if isArray first
               then v <- lift (get_prop first "0") ;; lift (Object_keys v)
               else lift (Object_keys first)
             | _ => ret (flat rest)
             end ;;
  c <- lift (escapeIdentifiers (VArray columns) options) ;;
  v <- valuesBuilder (if isArray first then first else VArray [first])
         columns options ;;
  ret ("(" +++ c +++ ")values" +++ v).

Definition apply_builder (fn : builder_fn) : val -> list val -> options_t -> M string :=
  match fn with
  | BValues => values
  | BIn => in_
  | BSelect => select
  | BUpdate => update
  | BInsert => insert
  end.

(** [Builder.build] *)
Definition build (first : val) (rest : list val) (before : string)
    (options : options_t) : M string :=
  let kw := keyword before in
  if Z.eqb (snd kw) (-1) then lift (escapeIdentifiers first options)
  else apply_builder (fst kw) first rest options.

(** The body of [stringifyValue]. *)
Definition stringifyValue_body (string_ : string) (value : val)
    (options : options_t) : M string :=
  match value with
  | VBuilder first rest => build first rest string_ options
  | VQuery _ _ => fragment value options
  | VIdentifier t => ret t
  | _ =>
    if first_is_Query value then
      match value with
      | VArray xs =>
        ts <- mapM (fun x => fragment x options) xs ;;
        ret (fold_left (fun acc t => acc +++ " " +++ t) ts EmptyString)
      | _ => throw (TypeError "value.reduce is not a function")
      end
    else handleValue value options
  end.

End Body.

(** [stringifyValue]: each nested call spends one unit of fuel. *)
Fixpoint stringifyValue (fuel : nat) (string_ : string) (value : val)
    (options : options_t) : M string :=
  match fuel with
  | O => out_of_fuel
  | S fuel => stringifyValue_body (stringifyValue fuel) string_ value options
  end.

(** [new Query(strings, args, handler)]: plain values are wrapped. *)
Definition wrap (x : val) : val :=
  match x with
  | VParameter _ _ _ | VIdentifier _ | VQuery _ _ | VBuilder _ _ => x
  | _ => new_Parameter x
  end.

Definition new_Query (strings : list string) (args : list val) : val :=
  VQuery strings (map wrap args).

(** [new Identifier(value)] *)
Definition new_Identifier (value : val) : exc val :=
  exc_bind (escapeIdentifier value) (fun t => Ok (VIdentifier t)).

(** [Payload] *)
Record Payload := mkPayload {
  query : string;
  params : list (option string);
  payload_types : list Z
}.

(** [Query.prepare] *)
Definition prepare (fuel : nat) (q : val) : option (exc Payload) :=
  match q with
  | VQuery strings args =>
    match stringify (stringifyValue fuel) strings args (hd EmptyString strings)
            (nth 0 args VUndefined) empty_options empty_accum with
    | Some (Ok (text, st)) =>
      Some (exc_bind (map_exc serialize (parameters st)) (fun ps =>
            Ok {| query := text; params := ps; payload_types := types st |}))
    | Some (Throw e) => Some (Throw e)
    | None => None
    end
  | _ => Some (Throw undefined_read)
  end.

End Composer.

(** ** The deferred Query object and batches *)

(** What [execute] hands to [fetch]: one statement, or a batch. *)
Inductive request :=
| Single (p : Payload)
| Batch (ps : list Payload).

(** The observable state around one Query object: the requests sent to
    the network so far, and the object's [fragment] mark. *)
Record world := mkWorld {
  fetched : list request;
  fragment_mark : bool
}.


Section QueryObject.
Context {H : Host}.

(** [execute]: the request goes out when the function is called. *)
Definition execute (r : request) (w : world) : world :=
  {| fetched := fetched w ++ [r]; fragment_mark := fragment_mark w |}.





(** The callback of [items.map] in [sql.begin]. *)
Definition prepare_item (fuel : nat) (item : val) : option (exc Payload) :=
  match item with
  | VQuery _ _ => prepare fuel item
  | _ => Some (Throw (Error "Invalid query, expected a Query object"))
  end.

Fixpoint prepare_items (fuel : nat) (items : list val) : option (exc (list Payload)) :=
  match items with
  | [] => Some (Ok [])
  | item :: rest =>
    match prepare_item fuel item with
    | Some (Ok p) =>
      match prepare_items fuel rest with
      | Some (Ok ps) => Some (Ok (p :: ps))
      | other => other
      end
    | Some (Throw e) => Some (Throw e)
    | None => None
    end
  end.

(** The argument of [sql.begin]: the items, or a function that makes them. *)
Inductive itemsOrFn :=
| Items (items : val)
| Fn (f : unit -> val).

(** [sql.begin].  A Query is a Promise, so a single Query is turned away
    by the first test as well. *)
Definition begin (fuel : nat) (arg : itemsOrFn) (w : world)
    : option (exc unit * world) :=
  let items := match arg with Items v => v | Fn f => f tt end in
  match items with
  | VPromise | VQuery _ _ =>
    Some (Throw (Error "Invalid transaction, interactive transactions are not supported"), w)
  | VArray xs =>
    match prepare_items fuel xs with
    | Some (Ok queries) => Some (Ok tt, execute (Batch queries) w)
    | Some (Throw e) => Some (Throw e, w)
    | None => None
    end
  | _ => Some (Throw (Error "Invalid transaction, expected an array of queries"), w)
  end.

End QueryObject.

(** ** Measures and reference renderings used in the statements *)

Section Reference.
Context {H : Host}.

Definition list_max' (xs : list nat) : nat := fold_right Nat.max 0 xs.

(** Nesting depth of a value; the fuel [stringifyValue] needs. *)
Fixpoint depth (v : val) : nat :=
  match v with
  | VArray xs => S (list_max' (map depth xs))
  | VObject fs => S (list_max' (map (fun kv => depth (snd kv)) fs))
  | VParameter x _ _ => S (depth x)
  | VQuery _ args => 3 + list_max' (map depth args)
  | VBuilder first rest => 3 + Nat.max (depth first) (list_max' (map depth rest))
  | _ => 1
  end.

(** A piece of a flattened template: literal text, or a value slot with
    the value and the type identifier sent for it. *)
Inductive piece :=
| Lit (t : string)
| Slot (v : val) (type : Z).

(** The type [handleValue] sends for a Parameter. *)
Definition parameter_type (v : val) (type : Z) (arr : option (list Z)) : Z :=
  match arr with
  | Some a =>
    or_else (array_at a (or_else type (inferType v)))
      (or_else type (firstIsString v))
  | None => type
  end.

(** The segments and arguments of a template interleaved, nested
    templates expanded in place: S0, V1, S1, ..., left to right, depth
    first.  [None] when the template is not simple. *)
Fixpoint flatten (q : val) : option (list piece) :=
  let weave := fix weave (args : list val) (strings : list string) {struct args}
      : option (list piece) :=
    match args, strings with
    | [], [] => Some []
    | a :: args', t :: strings' =>
      match match a with
            | VParameter VUndefined _ _ => None
            | VParameter v type arr => Some [Slot v (parameter_type v type arr)]
            | VQuery _ _ => flatten a
            | _ => None
            end, weave args' strings' with
      | Some ps, Some rest => Some (ps ++ Lit t :: rest)
      | _, _ => None
      end
    | _, _ => None
    end in
  match q with
  | VQuery (s0 :: strings) args =>
    match weave args strings with
    | Some ps => Some (Lit s0 :: ps)
    | None => None
    end
  | _ => None
  end.

(** The text of a flat sequence of pieces when the slots are numbered
    from [k + 1] in order of occurrence. *)
Fixpoint render (ps : list piece) (k : nat) : string :=
  match ps with
  | [] => EmptyString
  | Lit t :: rest => t +++ render rest k
  | Slot _ _ :: rest => "$" +++ nat_toString (S k) +++ render rest (S k)
  end.

(** The values and the types of the slots, in order of occurrence. *)
Fixpoint slot_values (ps : list piece) : list val :=
  match ps with
  | [] => []
  | Lit _ :: rest => slot_values rest
  | Slot v _ :: rest => v :: slot_values rest
  end.

Fixpoint slot_types (ps : list piece) : list Z :=
  match ps with
  | [] => []
  | Lit _ :: rest => slot_types rest
  | Slot _ t :: rest => t :: slot_types rest
  end.

(** The placeholder numbers of a flat sequence numbered from [k + 1]. *)
Fixpoint placeholders (ps : list piece) (k : nat) : list nat :=
  match ps with
  | [] => []
  | Lit _ :: rest => placeholders rest k
  | Slot _ _ :: rest => S k :: placeholders rest (S k)
  end.

End Reference.

(** ** Sample inputs *)

Definition q_ : string := str1 dquote.

(** The array literals of the examples: three elements, two by two, a
    quoted element with a doubled quote, and one with a backslash-escaped
    quote. *)
Definition text_123 : string := "{1,2,3}".
Definition text_2x2 : string := "{{1,2},{3,4}}".
Definition text_doubled : string := "{" +++ q_ +++ "a" +++ q_ +++ q_ +++ "b" +++ q_ +++ "}".
Definition text_escaped : string :=
  "{" +++ q_ +++ "a" +++ str1 backslash +++ q_ +++ "b" +++ q_ +++ "}".

Section ParseViews.
Context {H : Host}.
Import ArrayParser.

(** The sequence [arrayParser] returns from the scratch state [s], with
    no element parser. *)
Definition parse_from (s : state) (x : string) : option (list val) :=
  option_map fst (arrayParser s x None 0).

(** The same from the scratch state of a freshly loaded module. *)
Definition parse_raw (x : string) : option (list val) :=
  parse_from arrayParserState x.

(** The parse followed by the one-level flattening of the decode path. *)
Definition parse_flat (x : string) : option (list val) :=
  option_map flat (parse_raw x).

(** The array case of [deserialize]. *)
Definition decode_array (x : string) : option (list val) :=
  match deserialize arrayParserState x 1007 with
  | (Ok (VArray v), _) => Some v
  | _ => None
  end.

(** The three examples read literally, for a parse function [parse]. *)
Definition examples_as_sequences (parse : string -> option (list val)) : Prop :=
  parse text_123 = Some [VString "1"; VString "2"; VString "3"]
  /\ parse text_2x2 = Some [VArray [VString "1"; VString "2"];
                            VArray [VString "3"; VString "4"]]
  /\ parse text_doubled = Some [VString ("a" +++ q_ +++ "b")].

(** The scratch state a parse of [x] leaves behind. *)
Definition state_after (s : state) (x : string) : state :=
  match arrayParser s x None 0 with
  | Some (_, s') => s'
  | None => s
  end.

(** Two scratch states that differ at most in [char]. *)
Definition same_but_char (s s' : state) : Prop :=
  i s = i s' /\ p s = p s' /\ str s = str s' /\ quoted s = quoted s'
  /\ last s = last s'.

End ParseViews.

(** ** Round trips *)

Section RoundTrip.
Context {H : Host}.

(** Serializing [v] and deserializing the text under the inferred type
    gives [v] back, whatever the scratch state of the array parser. *)
Definition round_trips (v : val) : Prop :=
  forall s, exists text,
    serialize v = Ok (Some text)
    /\ deserialize s text (inferType v) = (Ok v, s).

(** The host reads back the text it writes for [v]: the built-in parse
    matching the kind of [v] inverts the built-in print at [v].  Strings
    and booleans pass through no built-in conversion. *)
Definition reads_back (v : val) : Prop :=
  match v with
  | VString _ | VBool _ => True
  | VNumber n => ToNumber (number_toString n) = n
  | VBigInt z => BigInt_parse (Z_toString z) = Some z
  | VDate (Some t) => Date_parse (Date_toISOString t) = Some t
  | VObject _ =>
    exists text, JSON_stringify v = Ok (Some text) /\ JSON_parse text = Some v
  | _ => False
  end.

End RoundTrip.

(** ** Termination of the composer *)

Section Returns.
Context {H : Host}.

(** The computation [m] finishes within its fuel from every state. *)
Definition returns {A} (m : M A) : Prop := forall st, m st <> None.

End Returns.

(** ** Flattening a template *)

Section Flatten.
Context {H : Host}.

Section Weave.
(** The flattening of nested templates. *)
Variable fl : val -> option (list piece).

(** The pieces of one argument of a simple template. *)
Definition slot_pieces (a : val) : option (list piece) :=
  match a with
  | VParameter VUndefined _ _ => None
  | VParameter v type arr => Some [Slot v (parameter_type v type arr)]
  | VQuery _ _ => fl a
  | _ => None
  end.

(** The arguments interleaved with the segments that follow them. *)
Fixpoint weave (args : list val) (strings : list string)
    : option (list piece) :=
  match args, strings with
  | [], [] => Some []
  | a :: args', t :: strings' =>
    match slot_pieces a, weave args' strings' with
    | Some ps, Some rest => Some (ps ++ Lit t :: rest)
    | _, _ => None
    end
  | _, _ => None
  end.
End Weave.

(** A native value that is defined and is not one of the wrappers. *)
Definition is_plain (v : val) : bool :=
  match v with
  | VUndefined | VParameter _ _ _ | VIdentifier _ | VQuery _ _ | VBuilder _ _ => false
  | _ => true
  end.

(** The accumulators after the slots of [ps] have been pushed. *)
Definition extend (st : accum) (ps : list piece) : accum :=
  {| parameters := parameters st ++ slot_values ps;
     types := types st ++ slot_types ps |}.

(** The payload of a flat sequence of pieces. *)
Definition payload_of (ps : list piece) : exc Payload :=
  exc_bind (map_exc serialize (slot_values ps)) (fun texts =>
  Ok {| query := render ps 0; params := texts; payload_types := slot_types ps |}).

(** What a run of the composer on a simple piece of template does: it
    appends the rendering of the pieces, numbered after the parameters
    already there, and pushes the values and types of the slots. *)
Definition composes (m : M string) (prefix : string) (ps : list piece)
    (st : accum) : Prop :=
  m st = Some (Ok (prefix +++ render ps (List.length (types st)), extend st ps)).

(** A nested fragment of a simple template composes as its flattening
    says, against the accumulators it is given. *)
Definition fragment_composes (fuel : nat) : Prop :=
  forall q ps o st,
    flatten q = Some ps -> depth q <= fuel + 3 ->
    composes (fragment (stringifyValue fuel) q o) EmptyString ps st.

End Flatten.

(** ** Sample templates *)

(** The number with the integer value [z]. *)
Definition jsnum (z : Z) : value EvalHost.num := VNumber (EvalHost.Dec z 0).

(** The template of the test suite: a base query with the nested
    fragment [and age > ${50}]. *)
Definition older_than_50 : value EvalHost.num :=
  new_Query ["select * from users where name is not null "; EmptyString]
    [new_Query ["and age > "; EmptyString] [jsnum 50]].

(** Three levels of nesting with values before, inside and after the
    nested fragments. *)
Definition three_levels : value EvalHost.num :=
  new_Query ["select "; " from t where a = "; " "; " limit "; EmptyString]
    [VString "x";
     jsnum 1;
     new_Query ["and b in ("; ", "; ") "; EmptyString]
       [VBool true;
        VNull;
        new_Query ["or c = "; EmptyString] [VArray [jsnum 2; jsnum 3]]];
     VBigInt 10].

(** ** Statements about consumption and batches *)

Section Statements.
Context {H : Host}.

Definition no_requests : world := {| fetched := []; fragment_mark := false |}.


Definition is_Query (v : val) : bool :=
  match v with VQuery _ _ => true | _ => false end.

(** The argument [sql.begin] accepts: an array of Query objects. *)
Definition array_of_queries (items : val) : bool :=
  match items with
  | VArray xs => forallb is_Query xs
  | _ => false
  end.

Definition items_of (arg : itemsOrFn) : val :=
  match arg with Items v => v | Fn f => f tt end.

End Statements.

(** ** Reference encodings used in further statements *)

(** The text PostgreSQL writes for a bytea value: a backslash, an x, and
    two lowercase hexadecimal digits per byte. *)
Fixpoint hex_encode (bs : list nat) : string :=
  match bs with
  | [] => EmptyString
  | b :: rest =>
    String (hex_digit (b / 16)) (String (hex_digit (b mod 16)) (hex_encode rest))
  end.

Definition bytea_text (bs : list nat) : string :=
  String backslash (String "x"%char (hex_encode bs)).

(** What [escapeIdentifier] makes of one character of the name. *)
Definition escaped_char (c : ascii) : string :=
  if Ascii.eqb c dquote then str1 dquote +++ str1 dquote
  else if Ascii.eqb c "."%char then str1 dquote +++ "." +++ str1 dquote
  else str1 c.

Fixpoint escaped_chars (t : string) : string :=
  match t with
  | EmptyString => EmptyString
  | String c rest => escaped_char c +++ escaped_chars rest
  end.

(** The better of two table entries for [build]: the one with the greater
    index, the later one when the indexes are equal. *)
Definition later_max (best x : builder_fn * Z) : builder_fn * Z :=
  if Z.ltb (snd x) (snd best) then best else x.

Section Dispatch.
Context {H : Host}.

(** The table entries with the index of their keyword in [before]. *)
Definition keyword_indexes (before : string) : list (builder_fn * Z) :=
  map (fun '(x, fn) => (fn, RegExp_search x before)) builders.

End Dispatch.

Section NeverOk.
Context {H : Host}.

(** The computation [m] never completes normally: it throws (or its fuel
    runs out). *)
Definition never_ok {A} (m : M A) : Prop :=
  forall st a st', m st <> Some (Ok (a, st')).

End NeverOk.

Section Grows.
Context {H : Host}.

(** The accumulators [st'] extend [st]: parameters and types were only
    appended, and as many of the ones as of the others. *)
Definition grows (st st' : accum) : Prop :=
  exists ps ts,
    parameters st' = parameters st ++ ps
    /\ types st' = types st ++ ts
    /\ List.length ps = List.length ts.

(** Whenever [m] completes, it has only extended the accumulators. *)
Definition keeps {A} (m : M A) : Prop :=
  forall st a st', m st = Some (Ok (a, st')) -> grows st st'.

End Grows.

(** ** The array helper and result projection *)

Module Projection.

(** [Field]: the name and the type identifier of a column ([None] when
    [dataTypeID] is missing). *)
Record Field := mkField {
  name : string;
  dataTypeID : option Z
}.

(** [Result] *)
Record Result := mkResult {
  command : string;
  rowCount : Z;
  rows : list (list string);
  fields : list Field
}.

(** [ResultSet]: the rows with [command] and [count] attached. *)
Record ResultSet {H : Host} := mkResultSet {
  set_rows : list (list val);
  set_command : string;
  count : Z
}.

Section Process.
Context {H : Host}.
Import ArrayParser.

(** The callback of the inner [map]: [result.fields[index]] is undefined
    past the end of [fields], and reading its [dataTypeID] throws. *)
Definition cell (fs : list Field) (value : string) (index : nat) (s : state)
    : exc val * state :=
  match nth_error fs index with
  | None => (Throw (TypeError "Cannot read properties of undefined"), s)
  | Some f =>
    deserialize s value
      (match dataTypeID f with Some id => id | None => (-1)%Z end)
  end.

(** [row.map(...)], from the cell of index [index] on. *)
Fixpoint cells (fs : list Field) (row : list string) (index : nat) (s : state)
    : exc (list val) * state :=
  match row with
  | [] => (Ok [], s)
  | value :: rest =>
    match cell fs value index s with
    | (Ok v, s1) =>
      match cells fs rest (S index) s1 with
      | (Ok vs, s2) => (Ok (v :: vs), s2)
      | (Throw e, s2) => (Throw e, s2)
      end
    | (Throw e, s1) => (Throw e, s1)
    end
  end.

(** [result.rows.map(...)] *)
Fixpoint each_row (fs : list Field) (rs : list (list string)) (s : state)
    : exc (list (list val)) * state :=
  match rs with
  | [] => (Ok [], s)
  | row :: rest =>
    match cells fs row 0 s with
    | (Ok vs, s1) =>
      match each_row fs rest s1 with
      | (Ok vss, s2) => (Ok (vs :: vss), s2)
      | (Throw e, s2) => (Throw e, s2)
      end
    | (Throw e, s1) => (Throw e, s1)
    end
  end.

(** [processResult] *)
Definition processResult (result : Result) (s : state)
    : exc ResultSet * state :=
  match each_row (fields result) (rows result) s with
  | (Ok set, s') =>
    (Ok {| set_rows := set; set_command := command result;
           count := rowCount result |}, s')
  | (Throw e, s') => (Throw e, s')
  end.

End Process.
End Projection.

Section ArrayHelper.
Context {H : Host}.

(** [sql.array]: the array wrapped as a Parameter of its inferred type,
    text when nothing is inferred, untyped when the array is empty. *)
Definition sql_array (x : list val) : val :=
  new_Parameter_typed (VArray x)
    (match x with
     | [] => 0%Z
     | _ => or_else (inferType (VArray x)) 25
     end).


End ArrayHelper.

(** ** Reference rendering of a values list *)

Section ValuesReference.
Context {H : Host}.

(** A cell [handleValue] takes as it is: a defined native value that is
    not a list of fragments. *)
Definition cell_ok (v : val) : bool := is_plain v && negb (first_is_Query v).

(** The placeholders [$k+1] to [$k+n]. *)
Definition numbered (k n : nat) : list string :=
  map (fun i => "$" +++ nat_toString i) (seq (S k) n).

(** One parenthesized list of placeholders per row, numbered on from
    [k + 1] across the rows. *)
Fixpoint rows_text (table : list (list val)) (k : nat) : list string :=
  match table with
  | [] => []
  | cells :: rest =>
    ("(" +++ join "," (numbered k (List.length cells)) +++ ")")
      :: rows_text rest (k + List.length cells)
  end.

(** [table] holds, row by row, the defined cells that the columns select. *)
Definition selects (rows columns : list val) (table : list (list val)) : Prop :=
  Forall2 (fun row cells =>
    Forall2 (fun column v =>
      get_prop row (ToPropertyKey column) = Ok v /\ cell_ok v = true)
      columns cells) rows table.

End ValuesReference.

(** ** Plain array texts *)

(** A character with no role in an array literal outside quotes. *)
Definition plain_char (c : ascii) : bool :=
  negb (Ascii.eqb c dquote) && negb (Ascii.eqb c "{"%char)
  && negb (Ascii.eqb c "}"%char) && negb (Ascii.eqb c ","%char).

Fixpoint plain_chars (t : string) : bool :=
  match t with
  | EmptyString => true
  | String c rest => plain_char c && plain_chars rest
  end.

(** A non-empty element text made of plain characters. *)
Definition plain_text (t : string) : bool :=
  match t with
  | EmptyString => false
  | _ => plain_chars t
  end.

(** The array literal with the given element texts. *)
Definition array_text (es : list string) : string :=
  "{" +++ join "," es +++ "}".

(** The scratch state after the loop has passed over the plain
    characters of [e]. *)
Fixpoint advance (s : ArrayParser.state) (e : string) : ArrayParser.state :=
  match e with
  | EmptyString => s
  | String c rest =>
    advance
      (ArrayParser.set_i
         (ArrayParser.set_p (ArrayParser.set_char s (Some c)) (Some c))
         (ArrayParser.i s + 1))
      rest
  end.

Section SerializeEach.
Context {H : Host}.
(** [serialize] on the elements, as the nested calls see it. *)
Variable serialize_value' : val -> exc (option string).

(** [x.map(serialize)] *)
Fixpoint serialize_each (xs : list val) : exc (list (option string)) :=
  match xs with
  | [] => Ok []
  | y :: rest =>
    exc_bind (match y with
              | VParameter v _ _ => serialize_value' v
              | _ => serialize_value' y
              end) (fun t =>
    exc_bind (serialize_each rest) (fun ts => Ok (t :: ts)))
  end.

End SerializeEach.

(** ** Array literals *)

(** The delimiter [arrayParserLoop] picks for the array type. *)
Definition delimiter (typarray : Z) : ascii :=
  if Z.eqb typarray 1020 then ";"%char else ","%char.

(** A character with no role outside quotes when [d] is the delimiter. *)
Definition bare_char (d c : ascii) : bool :=
  negb (Ascii.eqb c dquote) && negb (Ascii.eqb c "{"%char)
  && negb (Ascii.eqb c "}"%char) && negb (Ascii.eqb c d).

Fixpoint bare_chars (d : ascii) (t : string) : bool :=
  match t with
  | EmptyString => true
  | String c rest => bare_char d c && bare_chars d rest
  end.

Definition bare_text (d : ascii) (t : string) : bool :=
  match t with
  | EmptyString => false
  | _ => bare_chars d t
  end.

(** An element of an array literal: written as it is, or between double
    quotes. *)
Inductive element : Type :=
| Bare (t : string)
| Quoted (t : string).

Definition contents (e : element) : string :=
  match e with
  | Bare t => t
  | Quoted t => t
  end.

(** Between quotes a double quote and a backslash follow a backslash. *)
Fixpoint escape (t : string) : string :=
  match t with
  | EmptyString => EmptyString
  | String c rest =>
    if Ascii.eqb c dquote || Ascii.eqb c backslash
    then String backslash (String c (escape rest))
    else String c (escape rest)
  end.

Definition element_text (e : element) : string :=
  match e with
  | Bare t => t
  | Quoted t => str1 dquote +++ escape t +++ str1 dquote
  end.

Definition element_ok (d : ascii) (e : element) : bool :=
  match e with
  | Bare t => bare_text d t
  | Quoted _ => true
  end.

(** An array of [S n] dimensions is a list of arrays of [n] dimensions; at
    [0] dimensions there is an element. *)
Fixpoint literal (n : nat) : Type :=
  match n with
  | O => element
  | S n => list (literal n)
  end.

Fixpoint literal_text (d : ascii) (n : nat) : literal n -> string :=
  match n return literal n -> string with
  | O => element_text
  | S n => fun items =>
    "{" +++ join (str1 d) (map (literal_text d n) items) +++ "}"
  end.

Fixpoint literal_ok (d : ascii) (n : nat) : literal n -> bool :=
  match n return literal n -> bool with
  | O => element_ok d
  | S n => forallb (literal_ok d n)
  end.

(** What the literal stands for, with [parser] reading the elements. *)
Fixpoint literal_value {H : Host} (parser : option (string -> val)) (n : nat)
    : literal n -> val :=
  match n return literal n -> val with
  | O => fun e => ArrayParser.apply_parser parser (contents e)
  | S n => fun items => VArray (map (literal_value parser n) items)
  end.

(** The loop, started in the state [s] with [xs] pushed so far, returns
    [r] whenever it has fuel for the rest of the text. *)
Definition runs {H : Host} (x : string) (parser : option (string -> val))
    (typarray : Z) (s : ArrayParser.state) (xs : list val)
    (r : list val * ArrayParser.state) : Prop :=
  forall fuel,
    String.length x - ArrayParser.i s < fuel ->
    ArrayParser.loop fuel s x parser typarray xs = Some r.

(** ** Nested arrays of numbers *)

(** Arrays of numbers nested [n] levels deep. *)
Fixpoint numbers {H : Host} (n : nat) : Type :=
  match n with
  | O => number
  | S n => list (numbers n)
  end.

Fixpoint numbers_value {H : Host} (n : nat) : numbers n -> val :=
  match n return numbers n -> val with
  | O => VNumber
  | S n => fun xs => VArray (map (numbers_value n) xs)
  end.

(** The literal that writes each number as its text. *)
Fixpoint numbers_literal {H : Host} (n : nat) : numbers n -> literal n :=
  match n return numbers n -> literal n with
  | O => fun k => Bare (number_toString k)
  | S n => map (numbers_literal n)
  end.

(** Every number is read back from its text, and the text is bare. *)
Fixpoint numbers_ok {H : Host} (n : nat) : numbers n -> Prop :=
  match n return numbers n -> Prop with
  | O => fun k => ToNumber (number_toString k) = k
                  /\ bare_text ","%char (number_toString k) = true
  | S n => Forall (numbers_ok n)
  end.

(** * Properties *)

(** ** The array parser returns *)

Section ParserTotal.
Context {H : Host}.
Import ArrayParser.




End ParserTotal.


(** ** C5 and C9: the array text parser *)

Section ParserFacts.
Context {H : Host}.
Import ArrayParser.

Lemma same_but_char_set (s s' : state) (c : option ascii) :
  same_but_char s s' -> set_char s c = set_char s' c.
Proof.
  destruct s, s'; unfold same_but_char, set_char; cbn.
  intros (-> & -> & -> & -> & ->). reflexivity.
Qed.

(** The loop reads [char] only after writing it: two runs from states
    that differ at most in [char] push the same elements. *)
Lemma loop_ignores_char (x : string) (parser : option (string -> val))
    (typarray : Z) (fuel : nat) (s s' : state) (xs : list val) :
  same_but_char s s' ->
  match loop fuel s x parser typarray xs, loop fuel s' x parser typarray xs with
  | Some (r, t), Some (r', t') => r = r' /\ same_but_char t t'
  | None, None => True
  | _, _ => False
  end.
Proof.
  intros HR. destruct fuel as [|fuel]; [exact I|].
  cbn [loop].
  pose proof HR as (Hi & _).
  rewrite <- Hi.
  rewrite <- (same_but_char_set s s' _ HR).
  destruct (Nat.ltb (i s) (String.length x)).
  - match goal with
    | |- match ?a with _ => _ end => destruct a as [[r t]|]
    end; [|exact I].
    split; [reflexivity|]. unfold same_but_char. tauto.
  - unfold finish. destruct HR as (_ & Hp & Hs & Hq & Hl).
    rewrite <- Hl, <- Hi. split; [reflexivity|].
    unfold same_but_char. tauto.
Qed.

End ParserFacts.

(** C5 (as amended): from a fresh scratch state and with no element
    parser, [arrayParser] returns the parsed array wrapped in a one-element
    sequence, which the decode path then flattens by one level.  The text
    [{1,2,3}] gives the wrapped sequence of the three strings 1, 2, 3, and
    the three strings themselves once flattened; [{{1,2},{3,4}}] gives the
    two-by-two nested sequence, nested and not flattened, under the same
    wrapping; a quoted element whose quote is escaped by a backslash gives
    the single element a, quote, b. *)
Theorem arrayParser_examples {H : Host} :
  parse_raw text_123 = Some [VArray [VString "1"; VString "2"; VString "3"]]
  /\ parse_flat text_123 = Some [VString "1"; VString "2"; VString "3"]
  /\ parse_raw text_2x2
     = Some [VArray [VArray [VString "1"; VString "2"];
                     VArray [VString "3"; VString "4"]]]
  /\ parse_flat text_2x2
     = Some [VArray [VString "1"; VString "2"];
             VArray [VString "3"; VString "4"]]
  /\ parse_raw text_escaped = Some [VArray [VString ("a" +++ q_ +++ "b")]]
  /\ parse_flat text_escaped = Some [VString ("a" +++ q_ +++ "b")].
Proof.
  repeat split; reflexivity.
Qed.

(** C5 (counterexample): the three examples do not hold as written,
    whether the parse is taken as [arrayParser] returns it, after the
    one-level flattening, or through the array case of [deserialize]: the
    result of [arrayParser] is wrapped, the elements [deserialize] produces
    are numbers, and the doubled quote ends the element instead of
    standing for a quote. *)
Lemma arrayParser_examples_not_as_sequences :
  ~ examples_as_sequences (parse_raw (H := evalHost))
  /\ ~ examples_as_sequences (parse_flat (H := evalHost))
  /\ ~ examples_as_sequences (decode_array (H := evalHost)).
Proof.
  unfold examples_as_sequences.
  split; [|split].
  - intros (E & _). vm_compute in E. discriminate E.
  - intros (_ & _ & E). vm_compute in E. discriminate E.
  - intros (E & _). vm_compute in E. discriminate E.
Qed.

(** What the doubled quote does: the element ends at the first of the two
    quotes, an empty element follows, and the rest of the text is taken in
    quoted mode up to the end. *)
Lemma arrayParser_doubled_quote {H : Host} :
  parse_flat text_doubled
  = Some [VString "a"; VString EmptyString; VString (q_ +++ "}"); VString (q_ +++ "}")]
  /\ ArrayParser.quoted (state_after ArrayParser.arrayParserState text_doubled) = true
  /\ ArrayParser.str (state_after ArrayParser.arrayParserState text_doubled) = "}".
Proof.
  repeat split; reflexivity.
Qed.

(** C9 (as amended): [arrayParser] resets the scan position [i] and the
    element-start offset [last] of the shared scratch state, and [char] is
    written before it is read; so the sequence a top-level parse returns
    is the same from any two scratch states that agree on the quoted flag,
    the previous character and the accumulated string. *)
Theorem arrayParser_reset_covers (s1 s2 : ArrayParser.state) {H : Host}
    (x : string) (parser : option (string -> val)) (typarray : Z) :
  ArrayParser.p s1 = ArrayParser.p s2 ->
  ArrayParser.str s1 = ArrayParser.str s2 ->
  ArrayParser.quoted s1 = ArrayParser.quoted s2 ->
  option_map fst (ArrayParser.arrayParser s1 x parser typarray)
  = option_map fst (ArrayParser.arrayParser s2 x parser typarray).
Proof.
  intros Hp Hs Hq.
  unfold ArrayParser.arrayParser, ArrayParser.arrayParserLoop.
  pose proof (loop_ignores_char x parser typarray (ArrayParser.fuel_for x)
                (ArrayParser.set_last (ArrayParser.set_i s1 0) 0)
                (ArrayParser.set_last (ArrayParser.set_i s2 0) 0) []) as HL.
  destruct ArrayParser.loop as [[r t]|], ArrayParser.loop as [[r' t']|];
    cbn [option_map fst]; try reflexivity.
  - destruct HL as [-> _]; [|reflexivity].
    unfold same_but_char; cbn. tauto.
  - exfalso. apply HL. unfold same_but_char; cbn. tauto.
  - exfalso. apply HL. unfold same_but_char; cbn. tauto.
Qed.

Lemma arrayParser_reset_covers_witness :
  option_map fst
    (ArrayParser.arrayParser (H := evalHost)
       (ArrayParser.mkState 7 None (Some "}"%char) EmptyString false 7)
       text_123 None 0)
  = option_map fst
      (ArrayParser.arrayParser (H := evalHost) ArrayParser.arrayParserState
         text_123 None 0).
Proof.
  apply (arrayParser_reset_covers
           (ArrayParser.mkState 7 None (Some "}"%char) EmptyString false 7)
           ArrayParser.arrayParserState (H := evalHost));
    reflexivity.
Defined.

(** C9 (counterexample): the quoted flag, the previous character and the
    accumulated string are not reset.  After a parse of the text with the
    doubled quote, which ends in quoted mode, a parse of [{1,2,3}] returns
    the whole text as one element; and after any parse that consumed a
    closing brace, the previous character changes how [{,1}] is read. *)
Lemma arrayParser_depends_on_earlier_parse :
  parse_from (H := evalHost)
    (state_after ArrayParser.arrayParserState text_doubled) text_123
  = Some [VString "{1,2,3}"]
  /\ parse_raw (H := evalHost) text_123
     = Some [VArray [VString "1"; VString "2"; VString "3"]]
  /\ parse_from (H := evalHost)
       (state_after ArrayParser.arrayParserState text_123) "{,1}"
     <> parse_raw (H := evalHost) "{,1}".
Proof.
  split; [reflexivity|split; [reflexivity|]].
  vm_compute. discriminate.
Qed.

(** ** C1, C2 and C10: type inference and the codec *)

(** C2 (as amended): [inferType] maps null to untyped (0), a Date to
    timestamptz, a binary buffer to bytea, a boolean to bool, an
    integer-valued number to int4, a non-integer number to float4 (700),
    a bigint to int8, an array to the type of its first element and an
    empty array to untyped, a plain object to jsonb, a string to text; and
    for a Parameter it returns the Parameter's stated type. *)
Theorem inferType_table {H : Host} :
  inferType VNull = Oid.untyped
  /\ (forall t, inferType (VDate t) = Oid.timestamptz)
  /\ (forall bs, inferType (VBuffer bs) = Oid.bytea)
  /\ (forall b, inferType (VBool b) = Oid.bool)
  /\ (forall n, inferType (VNumber n)
                = if is_integer n then Oid.int4 else Oid.float4)
  /\ (forall z, inferType (VBigInt z) = Oid.int8)
  /\ inferType (VArray []) = Oid.untyped
  /\ (forall x xs, inferType (VArray (x :: xs)) = inferType x)
  /\ (forall fs, inferType (VObject fs) = Oid.jsonb)
  /\ (forall t, inferType (VString t) = Oid.text)
  /\ (forall v type arr, inferType (VParameter v type arr) = type).
Proof.
  repeat split; intros; reflexivity.
Qed.

(** C2 (counterexample): the number 1.5 is not integer-valued and its
    inferred type is 700, which the source's table names float4, not
    float8 (701). *)
Lemma inferType_non_integer_not_float8 :
  is_integer (Host := evalHost) (EvalHost.Dec 15 1) = false
  /\ inferType (H := evalHost) (VNumber (EvalHost.Dec 15 1)) = Oid.float4
  /\ inferType (H := evalHost) (VNumber (EvalHost.Dec 15 1)) <> Oid.float8.
Proof.
  split; [reflexivity|split; [reflexivity|]].
  vm_compute. discriminate.
Qed.

(** C1 (as amended): a string, a number, a boolean, a bigint, a valid
    Date or a plain object whose text the host reads back round-trips:
    its serialized text, deserialized under its inferred type, is the
    value again. *)
Theorem serialize_deserialize_round_trip {H : Host} (v : val) :
  reads_back v -> round_trips v.
Proof.
  intros Hv s.
  destruct v as [| |b|n|z|t|[t|]|bs|xs|fs| |x ty arr|t|ss args|f r];
    cbn [reads_back] in Hv; try contradiction.
  - exists (if b then "t" else "f"). split; [reflexivity|].
    destruct b; reflexivity.
  - exists (number_toString n). split; [reflexivity|].
    cbn [inferType inferScalarType typeof].
    destruct (is_integer n); cbn [deserialize]; unfold numeric; rewrite Hv;
      reflexivity.
  - exists (Z_toString z). split; [reflexivity|].
    cbn [inferType deserialize]. rewrite Hv. reflexivity.
  - exists t. split; reflexivity.
  - exists (Date_toISOString t). split; [reflexivity|].
    cbn [inferType deserialize]. rewrite Hv. reflexivity.
  - destruct Hv as (text & Hs & Hp). exists text. split; [exact Hs|].
    cbn [inferType inferScalarType typeof deserialize]. rewrite Hp. reflexivity.
Qed.

Lemma serialize_deserialize_round_trip_witness :
  round_trips (H := evalHost) (VNumber (EvalHost.Dec 15 1))
  /\ round_trips (H := evalHost) (VNumber (EvalHost.Dec (-50) 0))
  /\ round_trips (H := evalHost) (VBigInt (-9007199254740993))
  /\ round_trips (H := evalHost) (VDate (Some 1685108122616%Z))
  /\ round_trips (H := evalHost) (VBool false)
  /\ round_trips (H := evalHost) (VString "hello")
  /\ round_trips (H := evalHost)
       (VObject [("x", VNumber (EvalHost.Dec 1 0)); ("y", VArray [VNull; VString "z"])]).
Proof.
  repeat split; apply (serialize_deserialize_round_trip (H := evalHost));
    cbn [reads_back]; try reflexivity; try exact I.
  eexists. split; reflexivity.
Defined.

(** C1 (counterexample): arrays and binary buffers do not round-trip.
    The array [1, 2] is written as [{1,2}] and its inferred type is that
    of its first element, int4, under which the text is read as a number;
    the one-byte buffer is written as JSON text and its inferred type is
    bytea, under which the text is read as hexadecimal digits, of which
    there are none. *)
Lemma arrays_and_buffers_do_not_round_trip :
  ~ round_trips (H := evalHost)
      (VArray [VNumber (EvalHost.Dec 1 0); VNumber (EvalHost.Dec 2 0)])
  /\ ~ round_trips (H := evalHost) (VBuffer [1])
  /\ ~ round_trips (H := evalHost) (VArray [VString "a"]).
Proof.
  repeat split; intros R;
    destruct (R ArrayParser.arrayParserState) as (text & Hs & Hd);
    vm_compute in Hs; injection Hs as <-;
    vm_compute in Hd; discriminate Hd.
Qed.

(** ** The composer returns: fuel above the nesting depth is enough *)

Section ComposerReturns.
Context {H : Host}.

Lemma returns_ret {A} (a : A) : returns (ret a).
Proof. intros st. discriminate. Qed.

Lemma returns_throw {A} (e : error) : returns (throw (A := A) e).
Proof. intros st. discriminate. Qed.

Lemma returns_lift {A} (r : exc A) : returns (lift r).
Proof. destruct r; [apply returns_ret|apply returns_throw]. Qed.

Lemma returns_bind {A B} (m : M A) (k : A -> M B) :
  returns m -> (forall a, returns (k a)) -> returns (bind m k).
Proof.
  intros Hm Hk st. unfold bind.
  specialize (Hm st). destruct (m st) as [[[a st']|e]|]; try discriminate.
  - apply Hk.
  - contradiction.
Qed.

Lemma returns_bind_lift {A B} (r : exc A) (k : A -> M B) :
  (forall a, r = Ok a -> returns (k a)) -> returns (bind (lift r) k).
Proof.
  intros Hk st. destruct r as [a|e]; cbn.
  - apply Hk. reflexivity.
  - discriminate.
Qed.

Lemma returns_mapM {A B} (f : A -> M B) (xs : list A) :
  (forall x, In x xs -> returns (f x)) -> returns (mapM f xs).
Proof.
  induction xs as [|x xs IH]; intros Hf; cbn [mapM].
  - apply returns_ret.
  - apply returns_bind; [apply Hf; left; reflexivity|].
    intros y. apply returns_bind; [|intros; apply returns_ret].
    apply IH. intros z Hz. apply Hf. right. exact Hz.
Qed.

Lemma returns_push (v : val) (t : Z) : returns (push v t).
Proof. intros st. discriminate. Qed.

Lemma returns_handleValue (x : val) (o : options_t) : returns (handleValue x o).
Proof.
  unfold handleValue.
  apply returns_bind.
  - destruct (match x with VParameter v _ _ => v | _ => x end);
      try apply returns_ret.
    destruct (transform o) as [t|]; [|apply returns_throw].
    destruct x; destruct (t_undefined t);
      first [apply returns_ret|apply returns_throw].
  - intros y. apply returns_bind; [|intros; apply returns_ret].
    destruct y; apply returns_push.
Qed.

Lemma depth_pos (v : val) : 1 <= depth v.
Proof. destruct v; cbn; lia. Qed.

Lemma list_max'_In (n : nat) (ns : list nat) : In n ns -> n <= list_max' ns.
Proof.
  unfold list_max'.
  induction ns as [|m ns IH]; cbn [fold_right In]; [tauto|].
  intros [->|Hn]; [lia|]. specialize (IH Hn). lia.
Qed.

Lemma depth_In (x : val) (xs : list val) :
  In x xs -> depth x <= list_max' (map depth xs).
Proof. intros Hx. apply list_max'_In, in_map, Hx. Qed.

Lemma depth_nth (xs : list val) (n : nat) :
  depth (nth n xs VUndefined) <= Nat.max 1 (list_max' (map depth xs)).
Proof.
  destruct (Nat.lt_ge_cases n (List.length xs)) as [Hlt|Hge].
  - pose proof (depth_In _ _ (nth_In xs VUndefined Hlt)). lia.
  - rewrite (nth_overflow xs VUndefined Hge). cbn [depth list_max' map fold_right]. lia.
Qed.

Lemma depth_assoc (k : string) (fs : list (string * val)) :
  depth (assoc k fs) <= Nat.max 1 (list_max' (map (fun kv => depth (snd kv)) fs)).
Proof.
  induction fs as [|[k' v] fs IH]; cbn [assoc map list_max' fold_right snd].
  - cbn [depth list_max' map fold_right]. lia.
  - destruct (String.eqb k k'); unfold list_max' in *; lia.
Qed.

Lemma depth_get_prop (v w : val) (k : string) :
  get_prop v k = Ok w -> depth w <= depth v.
Proof.
  pose proof (depth_pos v) as Hpos.
  destruct v as [| |b|n|z|t|d|bs|xs|fs| |x ty arr|t|ss args|f r];
    cbn [get_prop]; try discriminate;
    try (intros [= <-]; cbn [depth]; lia).
  - destruct (index_of_key k) as [m|]; intros [= <-];
      [destruct (char_at t m)|destruct (String.eqb k "length")];
      cbn [depth of_nat]; lia.
  - destruct (index_of_key k) as [m|]; intros [= <-];
      [destruct (nth_error bs m)|destruct (String.eqb k "length")];
      cbn [depth of_nat]; lia.
  - destruct (index_of_key k) as [m|]; intros [= <-].
    + pose proof (depth_nth xs m). cbn [depth]. lia.
    + destruct (String.eqb k "length"); cbn [depth of_nat]; lia.
  - intros [= <-]. pose proof (depth_assoc k fs). cbn [depth]. lia.
  - intros [= <-]. cbn [depth] in *.
    destruct (String.eqb k "value"); [lia|].
    destruct (String.eqb k "type"); [cbn [depth]; pose proof (depth_pos x); lia|].
    destruct (String.eqb k "array"); [|cbn [depth]; pose proof (depth_pos x); lia].
    destruct arr as [ts|]; [|cbn [depth]; pose proof (depth_pos x); lia].
    cbn [depth]. pose proof (depth_pos x).
    assert (list_max' (map depth (map (fun t => VNumber (number_of_Z t)) ts)) <= 1).
    { unfold list_max'; induction ts; cbn [map fold_right depth] in *; lia. }
    lia.
  - intros [= <-]. destruct (String.eqb k "value"); cbn [depth]; lia.
  - intros [= <-].
    destruct (String.eqb k "strings").
    + cbn [depth].
      assert (list_max' (map depth (map VString ss)) <= 1).
      { unfold list_max'; induction ss; cbn [map fold_right depth] in *; lia. }
      lia.
    + destruct (String.eqb k "args"); cbn [depth]; lia.
  - intros [= <-].
    destruct (String.eqb k "first"); [cbn [depth]; lia|].
    destruct (String.eqb k "rest"); cbn [depth]; lia.
Qed.

End ComposerReturns.
Section BodyReturns.
Context {H : Host}.
Variable rec : string -> val -> options_t -> M string.
Variable d : nat.
Hypothesis rec_returns :
  forall s v o, depth v <= d -> returns (rec s v o).

Lemma stringify_loop_returns (args : list val) (o : options_t) :
  (forall n, depth (nth n args VUndefined) <= d) ->
  forall rest n s value,
    depth value <= d -> returns (stringify_loop rec args rest n s value o).
Proof.
  intros Hargs. induction rest as [|si rest IH]; intros n s value Hv;
    cbn [stringify_loop].
  - apply returns_ret.
  - apply returns_bind; [apply rec_returns, Hv|].
    intros t. apply IH, Hargs.
Qed.

Lemma fragment_returns (q : val) (o : options_t) :
  depth q <= S d -> returns (fragment rec q o).
Proof.
  intros Hq. destruct q; cbn [fragment]; try apply returns_throw.
  cbn [depth] in Hq. unfold stringify.
  assert (Hargs : forall n, depth (nth n args VUndefined) <= d).
  { intros n. pose proof (depth_nth args n). lia. }
  apply stringify_loop_returns; [exact Hargs|apply Hargs].
Qed.

Lemma valuesBuilder_returns (first : val) (columns : list val) (o : options_t) :
  (forall rows, first = VArray rows -> forall row, In row rows -> depth row <= d) ->
  returns (valuesBuilder rec first columns o).
Proof.
  intros Hrows. destruct first; cbn [valuesBuilder]; try apply returns_throw.
  apply returns_bind; [|intros; apply returns_ret].
  apply returns_mapM. intros row Hrow.
  apply returns_bind; [|intros; apply returns_ret].
  apply returns_mapM. intros column _.
  apply returns_bind_lift. intros v Hv.
  apply rec_returns. apply depth_get_prop in Hv.
  specialize (Hrows _ eq_refl row Hrow). lia.
Qed.

Lemma depth_elements (rows : list val) (row : val) :
  In row rows -> depth row < depth (VArray rows).
Proof.
  intros Hr. pose proof (depth_In _ _ Hr). cbn [depth]. lia.
Qed.

Lemma values_returns (first : val) (rest : list val) (o : options_t) :
  depth first <= d -> returns (values rec first rest o).
Proof.
  intros Hf. unfold values.
  apply returns_bind_lift. intros first0 _.
  apply returns_bind; [apply returns_lift|]. intros columns.
  apply valuesBuilder_returns.
  destruct (isArray first0).
  - intros rows -> row Hrow. pose proof (depth_elements _ _ Hrow). lia.
  - intros rows [= <-] row [<-|[]]. exact Hf.
Qed.

Lemma in_returns (first : val) (rest : list val) (o : options_t) :
  depth first <= d -> returns (in_ rec first rest o).
Proof.
  intros Hf. unfold in_.
  apply returns_bind; [apply values_returns, Hf|]. intros; apply returns_ret.
Qed.

Lemma select_returns (first : val) (rest : list val) (o : options_t) :
  depth first <= d -> returns (select rec first rest o).
Proof.
  intros Hf. unfold select.
  destruct first as [| |b|n|z|t|t|bs|xs|fs| |x ty arr|t|ss args|f r];
    cbn [isArray]; try apply returns_lift.
  all: apply returns_bind; [apply returns_lift|]; intros columns.
  all: apply returns_bind; [|intros; apply returns_ret].
  all: apply returns_mapM; intros c _.
  all: apply returns_bind_lift; intros value Hv.
  all: apply depth_get_prop in Hv.
  all: apply returns_bind.
  all: try (intros t'; apply returns_bind; [apply returns_lift|];
            intros; apply returns_ret).
  all: destruct value; try apply returns_handleValue; try apply returns_ret.
  all: apply fragment_returns; lia.
Qed.

Lemma update_returns (first : val) (rest : list val) (o : options_t) :
  depth first <= d -> returns (update rec first rest o).
Proof.
  intros Hf. unfold update.
  apply returns_bind; [apply returns_lift|]. intros columns.
  apply returns_bind; [|intros; apply returns_ret].
  apply returns_mapM. intros x _.
  apply returns_bind; [apply returns_lift|]. intros c.
  apply returns_bind_lift. intros v Hv.
  apply returns_bind; [|intros; apply returns_ret].
  apply rec_returns. apply depth_get_prop in Hv. lia.
Qed.

Lemma insert_returns (first : val) (rest : list val) (o : options_t) :
  depth first <= d -> returns (insert rec first rest o).
Proof.
  intros Hf. unfold insert.
  apply returns_bind.
  - destruct rest; [|apply returns_ret].
    destruct (isArray first); [|apply returns_lift].
    apply returns_bind; [apply returns_lift|]. intros; apply returns_lift.
  - intros columns. apply returns_bind; [apply returns_lift|]. intros c.
    apply returns_bind; [|intros; apply returns_ret].
    apply valuesBuilder_returns.
    destruct (isArray first).
    + intros rows -> row Hrow. pose proof (depth_elements _ _ Hrow). lia.
    + intros rows [= <-] row [<-|[]]. exact Hf.
Qed.

Lemma build_returns (first : val) (rest : list val) (before : string)
    (o : options_t) :
  depth first <= d -> returns (build rec first rest before o).
Proof.
  intros Hf. unfold build.
  destruct (Z.eqb _ _); [apply returns_lift|].
  destruct (fst (keyword before)); cbn [apply_builder].
  - apply values_returns, Hf.
  - apply in_returns, Hf.
  - apply select_returns, Hf.
  - apply update_returns, Hf.
  - apply insert_returns, Hf.
Qed.

Lemma stringifyValue_body_returns (s : string) (v : val) (o : options_t) :
  depth v <= S d -> returns (stringifyValue_body rec s v o).
Proof.
  intros Hv. unfold stringifyValue_body.
  assert (Hdefault :
    returns (if first_is_Query v
             then match v with
                  | VArray xs =>
                    bind (mapM (fun x => fragment rec x o) xs) (fun ts =>
                    ret (fold_left (fun acc t => acc +++ " " +++ t) ts EmptyString))
                  | _ => throw (TypeError "value.reduce is not a function")
                  end
             else handleValue v o)).
  { destruct (first_is_Query v); [|apply returns_handleValue].
    destruct v; try apply returns_throw.
    apply returns_bind; [|intros; apply returns_ret].
    apply returns_mapM. intros x Hx. apply fragment_returns.
    pose proof (depth_elements _ _ Hx). lia. }
  destruct v; try exact Hdefault.
  - apply returns_ret.
  - apply fragment_returns, Hv.
  - apply build_returns. cbn [depth] in Hv. lia.
Qed.

End BodyReturns.

Section FuelSuffices.
Context {H : Host}.

(** [stringifyValue] returns when its fuel is at least the depth of the
    value. *)
Lemma stringifyValue_returns (fuel : nat) :
  forall s v o, depth v <= fuel -> returns (stringifyValue fuel s v o).
Proof.
  induction fuel as [|fuel IH]; intros s v o Hv.
  - pose proof (depth_pos v). lia.
  - cbn [stringifyValue]. apply stringifyValue_body_returns with (d := fuel).
    + exact IH.
    + exact Hv.
Qed.

(** [prepare] returns, with a payload or an exception, when its fuel is at
    least the depth of the query. *)
Lemma prepare_returns (fuel : nat) (q : val) :
  depth q <= fuel -> prepare fuel q <> None.
Proof.
  intros Hq. destruct q; cbn [prepare]; try discriminate.
  pose proof (fragment_returns (stringifyValue fuel) fuel
                (stringifyValue_returns fuel) (VQuery strings args)
                empty_options) as HR.
  cbn [fragment] in HR.
  specialize (HR ltac:(lia) empty_accum).
  destruct (stringify _ _ _ _ _ _ _) as [[[text st]|e]|];
    [discriminate|discriminate|contradiction].
Qed.

End FuelSuffices.

(** ** C3: numbering of the placeholders *)

Section Strings.

Lemma append_nil_r (s : string) : s +++ EmptyString = s.
Proof. induction s as [|c s IH]; cbn; [reflexivity|rewrite IH; reflexivity]. Qed.

Lemma append_assoc (a b c : string) : (a +++ b) +++ c = a +++ b +++ c.
Proof. induction a as [|x a IH]; cbn; [reflexivity|rewrite IH; reflexivity]. Qed.

End Strings.

Section Numbering.
Context {H : Host}.

Lemma flatten_unfold (s0 : string) (strings : list string) (args : list val) :
  flatten (VQuery (s0 :: strings) args)
  = match weave flatten args strings with
    | Some ps => Some (Lit s0 :: ps)
    | None => None
    end.
Proof. reflexivity. Qed.

(** A plain value in a template is one slot: the constructor wraps it as
    a Parameter of its inferred type. *)
Lemma plain_value_is_one_slot (fl : val -> option (list piece)) (v : val) :
  is_plain v = true ->
  exists arr,
    wrap v = VParameter v (inferType v) arr
    /\ slot_pieces fl (wrap v)
       = Some [Slot v (parameter_type v (inferType v) arr)]
    /\ (isArray v = false -> parameter_type v (inferType v) arr = inferType v).
Proof.
  intros Hv. destruct v; try discriminate; eexists; repeat split.
  discriminate.
Qed.

Lemma slot_values_app (ps qs : list piece) :
  slot_values (ps ++ qs) = slot_values ps ++ slot_values qs.
Proof.
  induction ps as [|[t|v ty] ps IH]; cbn; [reflexivity|exact IH|].
  rewrite IH. reflexivity.
Qed.

Lemma slot_types_app (ps qs : list piece) :
  slot_types (ps ++ qs) = slot_types ps ++ slot_types qs.
Proof.
  induction ps as [|[t|v ty] ps IH]; cbn; [reflexivity|exact IH|].
  rewrite IH. reflexivity.
Qed.

Lemma slot_types_length (ps : list piece) :
  List.length (slot_types ps) = List.length (slot_values ps).
Proof.
  induction ps as [|[t|v ty] ps IH]; cbn; [reflexivity|exact IH|].
  rewrite IH. reflexivity.
Qed.

Lemma render_app (ps qs : list piece) (k : nat) :
  render (ps ++ qs) k
  = render ps k +++ render qs (k + List.length (slot_types ps)).
Proof.
  revert k. induction ps as [|[t|v ty] ps IH]; intros k;
    cbn [render app slot_types List.length].
  - rewrite Nat.add_0_r. reflexivity.
  - rewrite IH, append_assoc. reflexivity.
  - rewrite IH, !append_assoc.
    replace (S k + List.length (slot_types ps))
      with (k + S (List.length (slot_types ps))) by lia.
    reflexivity.
Qed.

Lemma extend_app (st : accum) (ps qs : list piece) :
  extend (extend st ps) qs = extend st (ps ++ qs).
Proof.
  unfold extend; cbn [parameters types].
  rewrite slot_values_app, slot_types_app, !app_assoc. reflexivity.
Qed.

Lemma extend_types_length (st : accum) (ps : list piece) :
  List.length (types (extend st ps))
  = List.length (types st) + List.length (slot_types ps).
Proof. unfold extend; cbn [types]. apply length_app. Qed.

(** The placeholders of a flat sequence are consecutive: no gap, no
    reuse, in order of occurrence. *)
Lemma placeholders_consecutive (ps : list piece) (k : nat) :
  placeholders ps k = seq (S k) (List.length (slot_values ps)).
Proof.
  revert k. induction ps as [|[t|v ty] ps IH]; intros k;
    cbn [placeholders slot_values List.length seq].
  - reflexivity.
  - apply IH.
  - rewrite IH. reflexivity.
Qed.

Section Loop.
Variable rec : string -> val -> options_t -> M string.
Variable args : list val.
Variable o : options_t.
Hypothesis rec_slot :
  forall a ps s st, In a args -> slot_pieces flatten a = Some ps ->
    composes (rec s a o) EmptyString ps st.

Lemma stringify_loop_composes :
  forall todo pre rest ps s st,
    args = pre ++ todo ->
    weave flatten todo rest = Some ps ->
    composes (stringify_loop rec args rest (S (List.length pre)) s
                (nth (List.length pre) args VUndefined) o) s ps st.
Proof.
  induction todo as [|a post IH]; intros pre rest ps s st Hargs Hw.
  - destruct rest; cbn [weave] in Hw; [|discriminate].
    injection Hw as <-. unfold composes. cbn [stringify_loop render].
    rewrite append_nil_r. unfold ret, extend. cbn [slot_values slot_types].
    rewrite !app_nil_r. destruct st; reflexivity.
  - destruct rest as [|t rest]; cbn [weave] in Hw; [discriminate|].
    destruct (slot_pieces flatten a) as [psa|] eqn:Ha; [|discriminate].
    destruct (weave flatten post rest) as [psr|] eqn:Hr; [|discriminate].
    injection Hw as <-.
    assert (Hnth : nth (List.length pre) args VUndefined = a).
    { rewrite Hargs, app_nth2, Nat.sub_diag by lia. reflexivity. }
    rewrite Hnth. unfold composes. cbn [stringify_loop]. unfold bind at 1.
    rewrite (rec_slot a psa s st); [|rewrite Hargs; apply in_elt|exact Ha].
    cbn [append].
    specialize (IH (pre ++ [a]) rest psr
                  (s +++ render psa (List.length (types st)) +++ t)
                  (extend st psa)).
    rewrite length_app in IH. cbn [List.length] in IH.
    rewrite Nat.add_1_r in IH.
    unfold composes in IH. rewrite IH.
    + rewrite extend_types_length, extend_app.
      rewrite render_app. cbn [render].
      rewrite !append_assoc.
      unfold extend. rewrite !slot_values_app, !slot_types_app.
      reflexivity.
    + rewrite Hargs, <- app_assoc. reflexivity.
    + exact Hr.
Qed.

End Loop.
End Numbering.

Section Simple.
Context {H : Host}.

Lemma slot_composes (fuel : nat) (a : val) (ps : list piece) (s : string)
    (o : options_t) (st : accum) :
  fragment_composes fuel ->
  slot_pieces flatten a = Some ps -> depth a <= fuel + 1 ->
  composes (stringifyValue (S fuel) s a o) EmptyString ps st.
Proof.
  intros IH Ha Hd.
  destruct a as [| |b|n|z|t|t|bs|xs|fs| |x ty arr|t|ss args|f r];
    cbn [slot_pieces] in Ha; try discriminate.
  - assert (Hps : x <> VUndefined /\ ps = [Slot x (parameter_type x ty arr)]).
    { destruct x; try discriminate; injection Ha as <-; split;
        try reflexivity; discriminate. }
    destruct Hps as [Hx ->].
    unfold composes. cbn [stringifyValue stringifyValue_body].
    replace (first_is_Query (VParameter x ty arr)) with false by reflexivity.
    destruct x; try contradiction;
      unfold handleValue, bind, ret, push, extend;
      cbn [render slot_values slot_types append parameters types];
      rewrite append_nil_r, length_app, Nat.add_1_r; reflexivity.
  - cbn [stringifyValue stringifyValue_body].
    apply IH; [exact Ha|lia].
Qed.

(** A fragment composes as soon as each of its arguments does. *)
Lemma fragment_composes_from_slots (fuel : nat) (ss : list string)
    (args : list val) (ps : list piece) (o : options_t) (st : accum) :
  (forall a psa s st', In a args -> slot_pieces flatten a = Some psa ->
     composes (stringifyValue fuel s a o) EmptyString psa st') ->
  flatten (VQuery ss args) = Some ps ->
  composes (fragment (stringifyValue fuel) (VQuery ss args) o) EmptyString ps st.
Proof.
  intros Hslot Hq.
  destruct ss as [|s0 ss]; [discriminate|].
  rewrite flatten_unfold in Hq.
  destruct (weave flatten args ss) as [ps'|] eqn:Hw; [|discriminate].
  injection Hq as <-.
  cbn [fragment hd]. unfold stringify. cbn [tl].
  pose proof (stringify_loop_composes (stringifyValue fuel) args o Hslot
                args [] ss ps' s0 st eq_refl Hw) as HL.
  unfold composes in *. cbn [render append List.length] in *.
  rewrite HL. reflexivity.
Qed.

Lemma fragment_composes_all (fuel : nat) : fragment_composes fuel.
Proof.
  induction fuel as [|fuel IH]; intros q ps o st Hq Hd.
  all: destruct q as [| |b|n|z|t|t|bs|xs|fs| |x ty arr|t|ss args|f r];
    try discriminate.
  all: apply fragment_composes_from_slots; [|exact Hq].
  all: intros a psa s st' Hin Ha.
  all: pose proof (depth_In _ _ Hin) as Hda; cbn [depth] in Hd.
  - pose proof (depth_pos a). lia.
  - apply slot_composes; [exact IH|exact Ha|lia].
Qed.

End Simple.

(** C3: a template, nested fragments included at any depth, whose value
    positions each resolve to a single parameter composes to the text of
    its flattening with the slots numbered 1 to k from left to right, the
    parameters are the serialized values of the slots in the same order,
    and the numbers are consecutive, without gap or reuse.  The flattening
    expands nested fragments in place, so the order is depth first and
    left to right, and all parameters go to the same accumulators. *)
Theorem simple_template_numbering {H : Host} (q : val) (ps : list piece)
    (fuel : nat) :
  flatten q = Some ps -> depth q <= fuel ->
  prepare fuel q = Some (payload_of ps)
  /\ placeholders ps 0 = seq 1 (List.length (slot_values ps)).
Proof.
  intros Hq Hd. split; [|apply placeholders_consecutive].
  destruct q as [| |b|n|z|t|t|bs|xs|fs| |x ty arr|t|ss args|f r];
    try discriminate.
  pose proof (fragment_composes_all fuel (VQuery ss args) ps empty_options
                empty_accum Hq ltac:(lia)) as HF.
  unfold composes in HF. cbn [fragment] in HF.
  cbn [prepare]. rewrite HF. reflexivity.
Qed.

Lemma simple_template_numbering_witness :
  prepare (H := evalHost) 12 three_levels
  = Some (Ok {| query := "select $1 from t where a = $2 and b in ($3, $4) or c = $5 limit $6";
                params := [Some "x"; Some "1"; Some "t"; Some "null";
                           Some "{2,3}"; Some "10"];
                payload_types := [25; 23; 16; 0; 23; 20]%Z |})
  /\ [1; 2; 3; 4; 5; 6] = seq 1 6.
Proof.
  exact (simple_template_numbering (H := evalHost) three_levels
           (match flatten (H := evalHost) three_levels with
            | Some ps => ps
            | None => []
            end) 12 eq_refl ltac:(vm_compute; lia)).
Defined.

(** ** C10, C7 and C6: null, undefined, and the empty [in] list *)

(** C10: a null in a value slot takes a parameter slot of its own: the
    constructor wraps it as a Parameter of type 0, [handleValue] pushes
    the null with type 0 and writes the next placeholder, and [serialize]
    turns it into the four-character text null. *)
Theorem null_is_sent_as_text {H : Host} (fuel : nat) (before after : string)
    (s : string) (o : options_t) (st : accum) :
  wrap VNull = VParameter VNull Oid.untyped None
  /\ stringifyValue (S fuel) s (wrap VNull) o st
     = Some (Ok ("$" +++ nat_toString (S (List.length (types st))),
                 {| parameters := parameters st ++ [VNull];
                    types := types st ++ [Oid.untyped] |}))
  /\ serialize VNull = Ok (Some "null")
  /\ prepare (S fuel) (new_Query [before; after] [VNull])
     = Some (Ok {| query := before +++ "$1" +++ after;
                   params := [Some "null"];
                   payload_types := [Oid.untyped] |}).
Proof.
  split; [reflexivity|split; [|split; reflexivity]].
  change (wrap VNull) with (VParameter (num := number) VNull 0%Z None).
  cbn [stringifyValue stringifyValue_body].
  replace (first_is_Query (VParameter VNull 0 None)) with false by reflexivity.
  unfold handleValue, bind, ret, push. cbn [parameters types].
  rewrite length_app, Nat.add_1_r. reflexivity.
Qed.

(** C7 (the code at the failing input): with an undefined value in a
    slot, [prepare] fails while reading the substitute from the missing
    [options.transform]; the throw of its own error, Undefined values are
    not allowed, is never reached. *)
Theorem undefined_slot_throws_TypeError {H : Host} (fuel : nat)
    (before after : string) :
  prepare (S fuel) (new_Query [before; after] [VUndefined])
  = Some (Throw (TypeError "Cannot read properties of undefined"))
  /\ prepare (S fuel) (new_Query [before; after] [VUndefined])
     <> Some (Throw (Error "Undefined values are not allowed")).
Proof.
  split; [reflexivity|discriminate].
Qed.

(** Whatever the options, an undefined value in a slot of a template makes
    [handleValue] throw, and nothing is pushed: it is never sent as null.
    Even with a substitute configured the Parameter keeps the local value
    undefined, so the throw follows. *)
Lemma undefined_slot_always_throws {H : Host} (o : options_t) (st : accum) :
  exists e, handleValue (wrap VUndefined) o st = Some (Throw e).
Proof.
  unfold handleValue, bind. cbn [wrap new_Parameter new_Parameter_typed].
  destruct (transform o) as [t|]; eexists; reflexivity.
Qed.

Section UndefinedSlot.
Context {H : Host}.
Variable rec : string -> val -> options_t -> M string.
Variable args : list val.
Variable o : options_t.
Hypothesis rec_returns :
  forall n s st, rec s (nth n args VUndefined) o st <> None.
Hypothesis rec_undefined :
  forall s st, exists e, rec s (wrap VUndefined) o st = Some (Throw e).

(** If one of the values the loop still has to handle is the wrapped
    undefined, the loop throws: at that value, or before it. *)
Lemma stringify_loop_throws :
  forall rest i s value st j,
    j < List.length rest ->
    value = nth (i - 1) args VUndefined ->
    0 < i ->
    nth (i - 1 + j) args VUndefined = wrap VUndefined ->
    exists e, stringify_loop rec args rest i s value o st = Some (Throw e).
Proof.
  induction rest as [|t rest IH]; intros i s value st j Hj Hv Hi Hu;
    cbn [List.length] in Hj; [lia|].
  cbn [stringify_loop]. unfold bind at 1.
  destruct j as [|j].
  - rewrite Nat.add_0_r, <- Hv in Hu. rewrite Hu.
    destruct (rec_undefined s st) as (e & ->). eexists; reflexivity.
  - pose proof (rec_returns (i - 1) s st) as Hr. rewrite <- Hv in Hr.
    destruct (rec s value o st) as [[[t' st']|e]|];
      [|eexists; reflexivity|contradiction].
    apply (IH (S i) _ _ st' j); [lia| |lia|].
    + replace (S i - 1) with i by lia. reflexivity.
    + replace (S i - 1 + j) with (i - 1 + S j) by lia. exact Hu.
Qed.

End UndefinedSlot.

(** A template with an undefined value in one of its slots never composes:
    [prepare] throws, whatever stands in the other slots. *)
Lemma undefined_slot_never_composes {H : Host} (fuel : nat)
    (strings : list string) (args : list val) (k : nat) :
  List.length strings = S (List.length args) ->
  k < List.length args ->
  nth k args VUndefined = wrap VUndefined ->
  depth (VQuery strings args) <= fuel ->
  exists e, prepare fuel (VQuery strings args) = Some (Throw e).
Proof.
  intros Hlen Hk Hu Hd. cbn [prepare]. unfold stringify.
  destruct (stringify_loop_throws (stringifyValue fuel) args empty_options)
    with (rest := tl strings) (i := 1) (s := hd EmptyString strings)
         (value := nth 0 args VUndefined) (st := empty_accum) (j := k)
    as (e & ->).
  - intros n s st. apply stringifyValue_returns.
    pose proof (depth_nth args n). cbn [depth] in Hd. lia.
  - intros s st. destruct fuel as [|fuel]; [cbn [depth] in Hd; lia|].
    exact (undefined_slot_always_throws empty_options st).
  - destruct strings; cbn [tl List.length] in *; lia.
  - reflexivity.
  - lia.
  - exact Hu.
  - eexists; reflexivity.
Qed.



(** The same through the dispatch of [Builder.build]: the empty list
    after the keyword [in] of a template. *)
Lemma in_empty_list_in_template :
  prepare (H := evalHost) 5
    (new_Query ["select * from t where id in "; EmptyString] [VBuilder (VArray []) []])
  = Some (Ok {| query := "select * from t where id in (null)";
                params := []; payload_types := [] |}).
Proof. reflexivity. Qed.

(** ** C4 and C8: consumption of a Query, and batches *)

Section Consumption.
Context {H : Host}.

Lemma prepare_items_rejects (fuel : nat) (xs : list val) :
  forallb is_Query xs = false ->
  (forall x, In x xs -> depth x <= fuel) ->
  exists e, prepare_items fuel xs = Some (Throw e).
Proof.
  induction xs as [|x xs IH]; intros Hbad Hd; [discriminate|].
  cbn [forallb] in Hbad. cbn [prepare_items].
  destruct (is_Query x) eqn:Hx.
  - destruct x; try discriminate. cbn [prepare_item].
    pose proof (prepare_returns fuel (VQuery strings args)
                  (Hd _ (or_introl eq_refl))) as Hr.
    destruct (prepare fuel (VQuery strings args)) as [[p|e]|];
      [|eexists; reflexivity|contradiction].
    destruct IH as (e & ->); [exact Hbad|intros; apply Hd; right; assumption|].
    eexists; reflexivity.
  - destruct x; try discriminate; cbn [prepare_item]; eexists; reflexivity.
Qed.

End Consumption.




(** C8: when the argument of [sql.begin], or what the function given as
    argument returns, is not an array of Query objects (a pending Promise
    or a single Query, which is a Promise too; any other non-array; an
    array with an element that is not a Query), [begin] throws, so the
    promise it returns rejects, and nothing has been sent. *)
Theorem begin_rejects_without_request {H : Host} (fuel : nat)
    (arg : itemsOrFn) (w : world) :
  array_of_queries (items_of arg) = false ->
  depth (items_of arg) <= fuel ->
  exists e, begin fuel arg w = Some (Throw e, w).
Proof.
  intros Hbad Hd. unfold begin. fold (items_of arg).
  destruct (items_of arg) as [| |b|n|z|t|t|bs|xs|fs| |x ty arr|t|ss args|f r];
    try (eexists; reflexivity).
  cbn [array_of_queries] in Hbad.
  destruct (prepare_items_rejects fuel xs Hbad) as (e & ->).
  - intros x Hx. pose proof (depth_In _ _ Hx). cbn [depth] in Hd. lia.
  - eexists; reflexivity.
Qed.

Lemma begin_rejects_without_request_witness :
  (exists e, begin (H := evalHost) 12 (Items VPromise) no_requests
             = Some (Throw e, no_requests))
  /\ (exists e, begin (H := evalHost) 12 (Items older_than_50) no_requests
                = Some (Throw e, no_requests))
  /\ (exists e, begin (H := evalHost) 12 (Items (VObject [])) no_requests
                = Some (Throw e, no_requests))
  /\ (exists e, begin (H := evalHost) 12
                  (Fn (fun _ => VArray [older_than_50; VArray [jsnum 1]]))
                  no_requests
                = Some (Throw e, no_requests)).
Proof.
  split; [|split; [|split]];
    apply (begin_rejects_without_request (H := evalHost) 12);
    first [reflexivity | vm_compute; lia].
Defined.

(** An array of Query objects, on the other hand, goes out as one batch. *)
Lemma begin_submits_batch :
  option_map (fun r => List.length (fetched (snd r)))
    (begin (H := evalHost) 12 (Items (VArray [older_than_50; older_than_50]))
       no_requests)
  = Some 1.
Proof. reflexivity. Qed.

(** * Further properties of the code *)

(** ** Deserialization *)

Section DecodeFacts.
Context {H : Host}.
Import ArrayParser.

Lemma hex_value_digit (n : nat) : n < 16 -> hex_value (hex_digit n) = Some n.
Proof.
  intros Hn.
  do 16 (destruct n as [|n]; [reflexivity|]). lia.
Qed.

Lemma hex_decode_encode (bs : list nat) :
  Forall (fun b => b < 256) bs -> hex_decode (hex_encode bs) = bs.
Proof.
  induction 1 as [|b bs Hb _ IH]; [reflexivity|].
  cbn [hex_encode hex_decode].
  rewrite !hex_value_digit, IH.
  - f_equal. pose proof (Nat.div_mod_eq b 16). lia.
  - apply Nat.mod_upper_bound. lia.
  - apply Nat.Div0.div_lt_upper_bound. lia.
Qed.

Lemma slice_from_all (t : string) : substring 0 (String.length t) t = t.
Proof. induction t as [|c t IH]; cbn; [reflexivity|rewrite IH; reflexivity]. Qed.

End DecodeFacts.

(** X1: a bytea cell as PostgreSQL writes it decodes to its bytes: the
    two-character prefix is dropped and every pair of hexadecimal digits
    gives one byte, in order. *)
Theorem deserialize_bytea {H : Host} (s : ArrayParser.state) (bs : list nat) :
  Forall (fun b => b < 256) bs ->
  deserialize s (bytea_text bs) Oid.bytea = (Ok (VBuffer bs), s).
Proof.
  intros Hbs. unfold Oid.bytea, deserialize, slice_from, bytea_text.
  cbn [String.length substring Nat.sub].
  rewrite Nat.sub_0_r, slice_from_all, hex_decode_encode by exact Hbs.
  reflexivity.
Qed.

Lemma deserialize_bytea_witness :
  deserialize (H := evalHost) ArrayParser.arrayParserState
    (bytea_text [222; 173; 190; 239]) Oid.bytea
  = (Ok (VBuffer [222; 173; 190; 239]), ArrayParser.arrayParserState).
Proof.
  apply (deserialize_bytea (H := evalHost)).
  repeat constructor.
Defined.



(** ** Identifiers *)

Section IdentifierFacts.
Context {H : Host}.

Lemma replace_char_app (c : ascii) (by_ u v : string) :
  replace_char c by_ (u +++ v) = replace_char c by_ u +++ replace_char c by_ v.
Proof.
  induction u as [|d u IH]; [reflexivity|].
  cbn [append replace_char]. rewrite IH, append_assoc. reflexivity.
Qed.

Lemma replace_char_escaped (t : string) :
  replace_char "."%char (str1 dquote +++ "." +++ str1 dquote)
    (replace_char dquote (str1 dquote +++ str1 dquote) t)
  = escaped_chars t.
Proof.
  induction t as [|c t IH]; [reflexivity|].
  cbn [replace_char escaped_chars]. rewrite replace_char_app, IH.
  f_equal. unfold escaped_char.
  destruct (Ascii.eqb c dquote) eqn:Hq; [reflexivity|].
  cbn [str1 replace_char]. rewrite append_nil_r. reflexivity.
Qed.

Lemma escaped_chars_injective (a : string) :
  forall b, escaped_chars a = escaped_chars b -> a = b.
Proof.
  assert (Hdq : forall c, Ascii.eqb c dquote = false -> c <> dquote).
  { intros c Hc. apply Ascii.eqb_neq. exact Hc. }
  induction a as [|x a IH]; intros [|y b] E; [reflexivity| | |].
  - exfalso. cbn [escaped_chars] in E. unfold escaped_char in E.
    destruct (Ascii.eqb y dquote); [discriminate|].
    destruct (Ascii.eqb y "."); discriminate.
  - exfalso. cbn [escaped_chars] in E. unfold escaped_char in E.
    destruct (Ascii.eqb x dquote); [discriminate|].
    destruct (Ascii.eqb x "."); discriminate.
  - cbn [escaped_chars] in E. unfold escaped_char in E.
    destruct (Ascii.eqb x dquote) eqn:Hx, (Ascii.eqb y dquote) eqn:Hy.
    + apply Ascii.eqb_eq in Hx, Hy. subst.
      cbn [append str1] in E. injection E as E. f_equal. apply IH, E.
    + destruct (Ascii.eqb y ".") eqn:Hy'; cbn [append str1] in E.
      * injection E as E. discriminate E.
      * injection E as E _. apply Hdq in Hy. congruence.
    + destruct (Ascii.eqb x ".") eqn:Hx'; cbn [append str1] in E.
      * injection E as E. discriminate E.
      * injection E as E _. apply Hdq in Hx. congruence.
    + destruct (Ascii.eqb x ".") eqn:Hx', (Ascii.eqb y ".") eqn:Hy';
        cbn [append str1] in E.
      * apply Ascii.eqb_eq in Hx', Hy'. subst.
        injection E as E. f_equal. apply IH, E.
      * injection E as E _. apply Hdq in Hy. congruence.
      * injection E as E _. apply Hdq in Hx. congruence.
      * injection E as E1 E2. subst. f_equal. apply IH, E2.
Qed.

End IdentifierFacts.

(** X3: [escapeIdentifier] never maps two different names to the same
    text: doubling the quotes and quoting the periods can be undone. *)
Theorem escapeIdentifier_injective {H : Host} (a b : string) :
  escapeIdentifier (VString a) = escapeIdentifier (VString b) -> a = b.
Proof.
  cbn [escapeIdentifier]. rewrite !replace_char_escaped.
  intros E. injection E as E.
  apply escaped_chars_injective.
  revert E. generalize (escaped_chars a), (escaped_chars b).
  intros u v E.
  assert (Hcancel : forall p q, p +++ str1 dquote = q +++ str1 dquote -> p = q).
  { induction p as [|c p IHp]; intros [|d q] Epq; cbn in Epq.
    - reflexivity.
    - injection Epq as _ Epq. destruct q; discriminate.
    - injection Epq as _ Epq. destruct p; discriminate.
    - injection Epq as -> Epq. f_equal. apply IHp, Epq. }
  apply Hcancel, E.
Qed.

Lemma escapeIdentifier_injective_witness : "a.b" = "a.b".
Proof.
  apply (escapeIdentifier_injective (H := evalHost) "a.b" "a.b").
  reflexivity.
Defined.

(** ** Keyword dispatch *)

Section DispatchFacts.

Lemma in_insert_sorted (x e : builder_fn * Z) (ys : list (builder_fn * Z)) :
  In e (insert_sorted x ys) <-> e = x \/ In e ys.
Proof.
  induction ys as [|y ys IH]; cbn [insert_sorted In]; [intuition|].
  destruct (Z.ltb (snd x) (snd y)); cbn [In]; rewrite ?IH; intuition.
Qed.

Lemma insert_sorted_nonempty (x : builder_fn * Z) (ys : list (builder_fn * Z)) :
  insert_sorted x ys <> [].
Proof.
  destruct ys as [|y ys]; cbn [insert_sorted]; [discriminate|].
  destruct (Z.ltb (snd x) (snd y)); discriminate.
Qed.

(** Inserting into a list whose last entry has the greatest index: the
    last entry of the result is the later maximum of the two. *)
Lemma last_insert_sorted (x d : builder_fn * Z) (ys : list (builder_fn * Z)) :
  ys <> [] ->
  Forall (fun y => (snd y <= snd (last ys d))%Z) ys ->
  last (insert_sorted x ys) d = later_max (last ys d) x.
Proof.
  induction ys as [|y ys IH]; intros Hne Hmax; [congruence|].
  cbn [insert_sorted]. unfold later_max.
  destruct (Z.ltb (snd x) (snd y)) eqn:Hxy.
  - apply Z.ltb_lt in Hxy.
    change (last (x :: y :: ys) d) with (last (y :: ys) d).
    inversion Hmax as [|? ? Hy _]; subst.
    destruct (Z.ltb_spec (snd x) (snd (last (y :: ys) d))); [reflexivity|lia].
  - apply Z.ltb_ge in Hxy.
    destruct ys as [|z ys].
    + cbn [insert_sorted last].
      destruct (Z.ltb_spec (snd x) (snd y)); [lia|reflexivity].
    + change (last (y :: z :: ys) d) with (last (z :: ys) d) in *.
      pose proof (insert_sorted_nonempty x (z :: ys)) as Hins.
      destruct (insert_sorted x (z :: ys)) as [|w ws] eqn:Ew; [congruence|].
      change (last (y :: w :: ws) d) with (last (w :: ws) d).
      unfold later_max in IH. apply IH; [discriminate|].
      inversion Hmax; assumption.
Qed.

Lemma later_max_ge (best x : builder_fn * Z) :
  (snd best <= snd (later_max best x))%Z /\ (snd x <= snd (later_max best x))%Z.
Proof.
  unfold later_max. destruct (Z.ltb_spec (snd x) (snd best)); lia.
Qed.

Lemma last_sort_fold (xs : list (builder_fn * Z)) :
  forall acc d,
    acc <> [] ->
    Forall (fun y => (snd y <= snd (last acc d))%Z) acc ->
    last (fold_left (fun acc x => insert_sorted x acc) xs acc) d
    = fold_left later_max xs (last acc d).
Proof.
  induction xs as [|x xs IH]; intros acc d Hne Hmax; [reflexivity|].
  cbn [fold_left].
  rewrite IH.
  - rewrite last_insert_sorted by assumption. reflexivity.
  - apply insert_sorted_nonempty.
  - rewrite last_insert_sorted by assumption.
    apply Forall_forall. intros e He. apply in_insert_sorted in He.
    pose proof (later_max_ge (last acc d) x) as [Hb Hx].
    destruct He as [->|He]; [exact Hx|].
    rewrite Forall_forall in Hmax. specialize (Hmax e He). lia.
Qed.

(** The later maximum of a list splits it: nothing before it is greater,
    everything after it is smaller. *)
Lemma fold_later_max_split (xs : list (builder_fn * Z)) :
  forall b,
    exists pre post,
      b :: xs = pre ++ fold_left later_max xs b :: post
      /\ Forall (fun e => (snd e <= snd (fold_left later_max xs b))%Z) pre
      /\ Forall (fun e => (snd e < snd (fold_left later_max xs b))%Z) post.
Proof.
  induction xs as [|x xs IH]; intros b.
  - exists [], []. cbn. repeat split; constructor.
  - cbn [fold_left].
    destruct (IH (later_max b x)) as (pre & post & Hsplit & Hpre & Hpost).
    remember (fold_left later_max xs (later_max b x)) as r eqn:Er.
    assert (Hr : (snd (later_max b x) <= snd r)%Z).
    { destruct pre as [|p pre]; cbn [app] in Hsplit.
      - injection Hsplit as -> _. lia.
      - injection Hsplit as <- _. inversion Hpre; assumption. }
    unfold later_max in Hsplit, Hr.
    destruct (Z.ltb_spec (snd x) (snd b)) as [Hlt|Hge].
    + destruct pre as [|p pre]; cbn [app] in Hsplit.
      * injection Hsplit as Hb Hxs. clear Er. subst b xs.
        exists [], (x :: post). cbn [app].
        repeat split; [constructor|].
        constructor; [exact Hlt|exact Hpost].
      * injection Hsplit as <- Hxs. clear Er.
        exists (b :: x :: pre), post. cbn [app]. rewrite Hxs.
        repeat split; [|exact Hpost].
        constructor; [exact Hr|]. constructor; [lia|].
        inversion Hpre; assumption.
    + exists (b :: pre), post. cbn [app]. rewrite Hsplit.
      repeat split; [|exact Hpost].
      constructor; [lia|exact Hpre].
Qed.

Lemma last_sort_by_index (x0 d : builder_fn * Z) (xs : list (builder_fn * Z)) :
  last (sort_by_index (x0 :: xs)) d = fold_left later_max xs x0.
Proof.
  unfold sort_by_index. cbn [fold_left insert_sorted].
  rewrite (last_sort_fold xs [x0] d); [reflexivity|discriminate|].
  constructor; [cbn [last]; lia|constructor].
Qed.

End DispatchFacts.

(** X4: [Builder.build] picks the table entry whose keyword occurs
    rightmost in the text so far: no entry of the table has a greater
    index than the one picked, and every entry after it in the table has a
    smaller one, so among equal indexes the later entry wins. *)
Theorem keyword_is_rightmost {H : Host} (before : string) :
  exists pre post,
    keyword_indexes before = pre ++ keyword before :: post
    /\ Forall (fun e => (snd e <= snd (keyword before))%Z) pre
    /\ Forall (fun e => (snd e < snd (keyword before))%Z) post.
Proof.
  unfold keyword, keyword_indexes, builders. cbn [map].
  rewrite last_sort_by_index.
  apply fold_later_max_split.
Qed.
(** ** Builders under the options [prepare] passes *)

Section NeverOkFacts.
Context {H : Host}.

Lemma never_ok_throw {A} (e : error) : never_ok (throw (A := A) e).
Proof. intros st a st'. discriminate. Qed.

Lemma never_ok_bind_l {A B} (m : M A) (k : A -> M B) :
  never_ok m -> never_ok (bind m k).
Proof.
  intros Hm st b st'. unfold bind.
  specialize (Hm st). destruct (m st) as [[[a st1]|e]|]; try discriminate.
  exfalso. exact (Hm a st1 eq_refl).
Qed.

Lemma never_ok_bind_r {A B} (m : M A) (k : A -> M B) :
  (forall a, never_ok (k a)) -> never_ok (bind m k).
Proof.
  intros Hk st b st'. unfold bind.
  destruct (m st) as [[[a st1]|e]|]; try discriminate. apply Hk.
Qed.

Lemma never_ok_mapM_cons {A B} (f : A -> M B) (x : A) (xs : list A) :
  never_ok (f x) -> never_ok (mapM f (x :: xs)).
Proof. intros Hf. cbn [mapM]. apply never_ok_bind_l, Hf. Qed.

Lemma never_ok_column (x : val) :
  never_ok (lift (exc_bind (column_to empty_options x) escapeIdentifier)).
Proof. apply never_ok_throw. Qed.

Lemma never_ok_escapeIdentifiers (xs : val) :
  never_ok (lift (escapeIdentifiers xs empty_options)).
Proof. apply never_ok_throw. Qed.

(** With no column to render, the mapping builders render nothing. *)
Lemma bind_columns_empty_or_never
    (columns : exc (list val)) (f : val -> M string) (st : accum)
    (t : string) (st' : accum) :
  (forall x, never_ok (f x)) ->
  bind (lift columns) (fun cs =>
    bind (mapM f cs) (fun ts => ret (join "," ts))) st = Some (Ok (t, st')) ->
  t = EmptyString /\ st' = st.
Proof.
  intros Hf E. destruct columns as [[|c cs]|e]; cbn in E.
  - injection E as <- <-. split; reflexivity.
  - exfalso. revert E.
    apply (never_ok_bind_l (mapM f (c :: cs))).
    apply never_ok_mapM_cons, Hf.
  - discriminate E.
Qed.

End NeverOkFacts.

(** X5: under the options [prepare] passes, a Builder renders through
    [values] or [in] only.  With no keyword before it, or after [select],
    [as], [returning], an opening parenthesis, [update] or [insert], it
    throws while reading the column transform, unless there is no column
    at all, in which case it renders the empty text and pushes nothing. *)
Theorem builders_need_transform {H : Host}
    (stringifyValue' : string -> val -> options_t -> M string)
    (first : val) (rest : list val) (before : string) (st : accum)
    (t : string) (st' : accum) :
  build stringifyValue' first rest before empty_options st = Some (Ok (t, st')) ->
  (snd (keyword before) <> (-1)%Z
   /\ (fst (keyword before) = BValues \/ fst (keyword before) = BIn))
  \/ (t = EmptyString /\ st' = st).
Proof.
  unfold build. destruct (Z.eqb_spec (snd (keyword before)) (-1)) as [Hk|Hk].
  - intros E. exfalso. revert E. apply never_ok_escapeIdentifiers.
  - destruct (fst (keyword before)); cbn [apply_builder]; intros E.
    + left. tauto.
    + left. tauto.
    + right. unfold select in E.
      destruct (isArray _);
        [exfalso; revert E; apply never_ok_escapeIdentifiers|].
      revert E. apply bind_columns_empty_or_never. intros x.
      apply never_ok_bind_r. intros value.
      apply never_ok_bind_r. intros t0.
      apply never_ok_bind_l, never_ok_column.
    + right. unfold update in E.
      revert E. apply bind_columns_empty_or_never. intros x.
      apply never_ok_bind_l, never_ok_column.
    + exfalso. unfold insert in E. revert E.
      apply never_ok_bind_r. intros columns.
      apply never_ok_bind_l, never_ok_escapeIdentifiers.
Qed.

Lemma builders_need_transform_witness :
  (snd (keyword (H := evalHost) "insert into t (a, b) values ") <> (-1)%Z
   /\ (fst (keyword (H := evalHost) "insert into t (a, b) values ") = BValues
       \/ fst (keyword (H := evalHost) "insert into t (a, b) values ") = BIn))
  \/ ("($1,$2)" = EmptyString
      /\ {| parameters := [VString "John"; jsnum 30]; types := [25; 23]%Z |}
         = empty_accum).
Proof.
  apply (builders_need_transform (H := evalHost) (stringifyValue 3)
           (VObject [("name", VString "John"); ("age", jsnum 30)]) []
           "insert into t (a, b) values " empty_accum).
  reflexivity.
Defined.

(** The [insert] builder after its own keyword, as a template would use
    it, throws. *)
Lemma insert_builder_throws :
  prepare (H := evalHost) 5
    (new_Query ["insert into t "; EmptyString]
       [VBuilder (VObject [("name", VString "John"); ("age", jsnum 30)]) []])
  = Some (Throw (TypeError "Cannot read properties of undefined")).
Proof. reflexivity. Qed.

(** ** The accumulators only grow, in step *)

Section KeepsFacts.
Context {H : Host}.

Lemma grows_refl (st : accum) : grows st st.
Proof. exists [], []. rewrite !app_nil_r. repeat split. Qed.

Lemma grows_trans (a b c : accum) : grows a b -> grows b c -> grows a c.
Proof.
  intros (ps & ts & Hp & Ht & Hl) (ps' & ts' & Hp' & Ht' & Hl').
  exists (ps ++ ps'), (ts ++ ts').
  rewrite Hp', Ht', Hp, Ht, !app_assoc, !length_app. repeat split. lia.
Qed.

Lemma keeps_ret {A} (a : A) : keeps (ret a).
Proof. intros st b st' [= _ <-]. apply grows_refl. Qed.

Lemma keeps_throw {A} (e : error) : keeps (throw (A := A) e).
Proof. intros st b st'. discriminate. Qed.

Lemma keeps_lift {A} (r : exc A) : keeps (lift r).
Proof. destruct r; [apply keeps_ret|apply keeps_throw]. Qed.

Lemma keeps_bind {A B} (m : M A) (k : A -> M B) :
  keeps m -> (forall a, keeps (k a)) -> keeps (bind m k).
Proof.
  intros Hm Hk st b st'. unfold bind.
  destruct (m st) as [[[a st1]|e]|] eqn:Em; try discriminate.
  intros Ek. apply grows_trans with st1; [apply (Hm _ _ _ Em)|apply (Hk _ _ _ _ Ek)].
Qed.

Lemma keeps_mapM {A B} (f : A -> M B) (xs : list A) :
  (forall x, keeps (f x)) -> keeps (mapM f xs).
Proof.
  intros Hf. induction xs as [|x xs IH]; cbn [mapM]; [apply keeps_ret|].
  apply keeps_bind; [apply Hf|]. intros y.
  apply keeps_bind; [exact IH|]. intros; apply keeps_ret.
Qed.

Lemma keeps_push (v : val) (t : Z) : keeps (push v t).
Proof.
  intros st n st' [= _ <-]. exists [v], [t]. repeat split.
Qed.

Lemma keeps_handleValue (x : val) (o : options_t) : keeps (handleValue x o).
Proof.
  unfold handleValue. apply keeps_bind.
  - destruct (match x with VParameter v _ _ => v | _ => x end);
      try apply keeps_ret.
    destruct (transform o) as [t|]; [|apply keeps_throw].
    destruct x; destruct (t_undefined t);
      first [apply keeps_ret|apply keeps_throw].
  - intros y. apply keeps_bind; [|intros; apply keeps_ret].
    destruct y; apply keeps_push.
Qed.

Section Body.
Variable rec : string -> val -> options_t -> M string.
Hypothesis rec_keeps : forall s v o, keeps (rec s v o).

Lemma keeps_stringify_loop (args : list val) (o : options_t) :
  forall rest n s value, keeps (stringify_loop rec args rest n s value o).
Proof.
  induction rest as [|si rest IH]; intros n s value; cbn [stringify_loop].
  - apply keeps_ret.
  - apply keeps_bind; [apply rec_keeps|]. intros t. apply IH.
Qed.

Lemma keeps_fragment (q : val) (o : options_t) : keeps (fragment rec q o).
Proof.
  destruct q; cbn [fragment]; try apply keeps_throw.
  apply keeps_stringify_loop.
Qed.

Lemma keeps_valuesBuilder (first : val) (columns : list val) (o : options_t) :
  keeps (valuesBuilder rec first columns o).
Proof.
  destruct first; cbn [valuesBuilder]; try apply keeps_throw.
  apply keeps_bind; [|intros; apply keeps_ret].
  apply keeps_mapM. intros row.
  apply keeps_bind; [|intros; apply keeps_ret].
  apply keeps_mapM. intros column.
  apply keeps_bind; [apply keeps_lift|]. intros v. apply rec_keeps.
Qed.

Lemma keeps_values (first : val) (rest : list val) (o : options_t) :
  keeps (values rec first rest o).
Proof.
  unfold values. apply keeps_bind; [apply keeps_lift|]. intros first0.
  apply keeps_bind; [apply keeps_lift|]. intros columns.
  apply keeps_valuesBuilder.
Qed.

Lemma keeps_select (first : val) (rest : list val) (o : options_t) :
  keeps (select rec first rest o).
Proof.
  unfold select. destruct (isArray _); [apply keeps_lift|].
  apply keeps_bind; [apply keeps_lift|]. intros columns.
  apply keeps_bind; [|intros; apply keeps_ret].
  apply keeps_mapM. intros x.
  apply keeps_bind; [apply keeps_lift|]. intros value.
  apply keeps_bind.
  - destruct value; try apply keeps_handleValue; try apply keeps_ret.
    apply keeps_fragment.
  - intros t. apply keeps_bind; [apply keeps_lift|]. intros; apply keeps_ret.
Qed.

Lemma keeps_update (first : val) (rest : list val) (o : options_t) :
  keeps (update rec first rest o).
Proof.
  unfold update. apply keeps_bind; [apply keeps_lift|]. intros columns.
  apply keeps_bind; [|intros; apply keeps_ret].
  apply keeps_mapM. intros x.
  apply keeps_bind; [apply keeps_lift|]. intros c.
  apply keeps_bind; [apply keeps_lift|]. intros v.
  apply keeps_bind; [apply rec_keeps|]. intros; apply keeps_ret.
Qed.

Lemma keeps_insert (first : val) (rest : list val) (o : options_t) :
  keeps (insert rec first rest o).
Proof.
  unfold insert. apply keeps_bind.
  - destruct rest; [|apply keeps_ret].
    destruct (isArray first); [|apply keeps_lift].
    apply keeps_bind; [apply keeps_lift|]. intros; apply keeps_lift.
  - intros columns. apply keeps_bind; [apply keeps_lift|]. intros c.
    apply keeps_bind; [apply keeps_valuesBuilder|]. intros; apply keeps_ret.
Qed.

Lemma keeps_body (s : string) (v : val) (o : options_t) :
  keeps (stringifyValue_body rec s v o).
Proof.
  unfold stringifyValue_body.
  assert (Hdefault :
    keeps (if first_is_Query v
           then match v with
                | VArray xs =>
                  bind (mapM (fun x => fragment rec x o) xs) (fun ts =>
                  ret (fold_left (fun acc t => acc +++ " " +++ t) ts EmptyString))
                | _ => throw (TypeError "value.reduce is not a function")
                end
           else handleValue v o)).
  { destruct (first_is_Query v); [|apply keeps_handleValue].
    destruct v; try apply keeps_throw.
    apply keeps_bind; [|intros; apply keeps_ret].
    apply keeps_mapM. intros x. apply keeps_fragment. }
  destruct v; try exact Hdefault.
  - apply keeps_ret.
  - apply keeps_fragment.
  - unfold build. destruct (Z.eqb _ _); [apply keeps_lift|].
    destruct (fst (keyword s)); cbn [apply_builder].
    + apply keeps_values.
    + unfold in_. apply keeps_bind; [apply keeps_values|].
      intros; apply keeps_ret.
    + apply keeps_select.
    + apply keeps_update.
    + apply keeps_insert.
Qed.

End Body.

Lemma keeps_stringifyValue (fuel : nat) :
  forall s v o, keeps (stringifyValue fuel s v o).
Proof.
  induction fuel as [|fuel IH]; intros s v o.
  - intros st a st'. discriminate.
  - cbn [stringifyValue]. apply keeps_body. exact IH.
Qed.

Lemma map_exc_length {A B} (f : A -> exc B) (xs : list A) (ys : list B) :
  map_exc f xs = Ok ys -> List.length ys = List.length xs.
Proof.
  revert ys. induction xs as [|x xs IH]; intros ys; cbn [map_exc].
  - intros [= <-]. reflexivity.
  - destruct (f x) as [y|e]; [|discriminate]. cbn [exc_bind].
    destruct (map_exc f xs) as [ys'|e]; [|discriminate]. cbn [exc_bind].
    intros [= <-]. cbn [List.length]. rewrite (IH ys' eq_refl). reflexivity.
Qed.

End KeepsFacts.

(** X6: whatever stands in a slot (a value, a Parameter, an identifier, a
    nested fragment, a list of fragments, a Builder), composing it only
    appends to the parameters and types collected so far: what was there
    stays in place, and as many parameters as types are added. *)
Theorem stringifyValue_appends_in_step {H : Host} (fuel : nat) (s : string)
    (v : val) (o : options_t) (st st' : accum) (t : string) :
  stringifyValue fuel s v o st = Some (Ok (t, st')) ->
  exists ps ts,
    parameters st' = parameters st ++ ps
    /\ types st' = types st ++ ts
    /\ List.length ps = List.length ts.
Proof.
  intros E. exact (keeps_stringifyValue fuel s v o st t st' E).
Qed.

Lemma stringifyValue_appends_in_step_witness :
  exists ps ts,
    [VNull; VString "John"; jsnum 30] = [VNull (num := EvalHost.num)] ++ ps
    /\ [0; 25; 23]%Z = [0%Z] ++ ts
    /\ List.length ps = List.length ts.
Proof.
  apply (stringifyValue_appends_in_step (H := evalHost) 3 "x values "
           (VBuilder (VObject [("name", VString "John"); ("age", jsnum 30)]) [])
           empty_options
           (@mkAccum evalHost [VNull] [0%Z])
           (@mkAccum evalHost [VNull; VString "John"; jsnum 30] [0; 25; 23]%Z)
           "($2,$3)").
  reflexivity.
Defined.

(** X7: every prepared statement has as many parameters as types. *)
Theorem prepare_parameters_and_types_parallel {H : Host} (fuel : nat)
    (q : val) (payload : Payload) :
  prepare fuel q = Some (Ok payload) ->
  List.length (params payload) = List.length (payload_types payload).
Proof.
  destruct q; cbn [prepare]; try discriminate.
  destruct (stringify _ _ _ _ _ _ _) as [[[text st]|e]|] eqn:Es;
    try discriminate.
  destruct (map_exc serialize (parameters st)) as [ps|e] eqn:Ep;
    cbn [exc_bind]; [|discriminate].
  intros [= <-]. cbn [params payload_types].
  rewrite (map_exc_length _ _ _ Ep).
  pose proof (keeps_stringify_loop (stringifyValue fuel)
                (keeps_stringifyValue fuel) args empty_options
                (tl strings) 1 (hd EmptyString strings)
                (nth 0 args VUndefined) empty_accum text st Es)
    as (ps' & ts' & Hp & Ht & Hl).
  rewrite Hp, Ht. cbn [empty_accum parameters types app]. exact Hl.
Qed.

Lemma prepare_parameters_and_types_parallel_witness :
  List.length [Some "x"; Some "1"; Some "t"; Some "null"; Some "{2,3}"; Some "10"]
  = List.length [25; 23; 16; 0; 23; 20]%Z.
Proof.
  apply (prepare_parameters_and_types_parallel (H := evalHost) 12 three_levels
           {| query := "select $1 from t where a = $2 and b in ($3, $4) or c = $5 limit $6";
              params := [Some "x"; Some "1"; Some "t"; Some "null";
                         Some "{2,3}"; Some "10"];
              payload_types := [25; 23; 16; 0; 23; 20]%Z |}).
  reflexivity.
Defined.

(** ** Arrays in templates, and the array helper *)

(** X8: an argument of a template never takes the branch of
    [stringifyValue] that splices a list of fragments, because the
    constructor has wrapped it; an array in a slot, of fragments or of
    anything else, is pushed whole as one parameter. *)
Theorem template_array_is_one_parameter {H : Host} (fuel : nat) (s : string)
    (xs : list val) (o : options_t) (st : accum) :
  (forall x, first_is_Query (wrap x) = false)
  /\ stringifyValue (S fuel) s (wrap (VArray xs)) o st
     = Some (Ok ("$" +++ nat_toString (S (List.length (types st))),
                 {| parameters := parameters st ++ [VArray xs];
                    types := types st
                             ++ [parameter_type (VArray xs) (inferType (VArray xs))
                                   (Some (map inferType xs))] |})).
Proof.
  split.
  - intros x. destruct x; reflexivity.
  - change (wrap (VArray xs))
      with (VParameter (VArray xs) (inferType (VArray xs)) (Some (map inferType xs))).
    cbn [stringifyValue stringifyValue_body].
    replace (first_is_Query (VParameter (VArray xs) (inferType (VArray xs))
                               (Some (map inferType xs))))
      with false by reflexivity.
    unfold handleValue, bind, ret, push, parameter_type. cbn [parameters types].
    rewrite length_app, Nat.add_1_r. reflexivity.
Qed.

Section ArrayHelperFacts.
Context {H : Host}.

Lemma nth_all_equal (t : Z) (ts : list Z) (n : nat) :
  Forall (fun u => u = t) ts -> nth n ts 0%Z = t \/ nth n ts 0%Z = 0%Z.
Proof.
  intros Hall. revert n. induction Hall as [|u ts -> _ IH]; intros [|n]; cbn [nth].
  - right; reflexivity.
  - right; reflexivity.
  - left; reflexivity.
  - apply IH.
Qed.

Lemma or_else_nz (a b : Z) : a <> 0%Z -> or_else a b = a.
Proof. unfold or_else. destruct (Z.eqb_spec a 0); congruence. Qed.

Lemma or_else_0 (b : Z) : or_else 0 b = b.
Proof. reflexivity. Qed.

Lemma array_at_all_equal (t k : Z) (ts : list Z) :
  Forall (fun u => u = t) ts -> array_at ts k = t \/ array_at ts k = 0%Z.
Proof.
  intros Hall. unfold array_at. destruct (Z.ltb k 0); [right; reflexivity|].
  apply nth_all_equal, Hall.
Qed.

End ArrayHelperFacts.

(** X9: for a non-empty array whose elements all have the same inferred
    type, the Parameter [sql.array] makes is sent with that type, or with
    text (25) when the elements are untyped; the array itself is the
    parameter. *)
Theorem sql_array_type {H : Host} (xs : list val) (t : Z) (o : options_t)
    (st : accum) :
  xs <> [] ->
  Forall (fun x => inferType x = t) xs ->
  handleValue (sql_array xs) o st
  = Some (Ok ("$" +++ nat_toString (S (List.length (types st))),
              {| parameters := parameters st ++ [VArray xs];
                 types := types st ++ [or_else t 25] |})).
Proof.
  intros Hne Hall.
  destruct xs as [|x xs]; [congruence|].
  assert (Ht : inferType (VArray (x :: xs)) = t).
  { inversion Hall; subst. reflexivity. }
  unfold sql_array, new_Parameter_typed. rewrite Ht.
  unfold handleValue, bind, ret, push. cbn [parameters types].
  rewrite length_app, Nat.add_1_r.
  assert (Hty :
    or_else (array_at (map inferType (x :: xs))
               (or_else (or_else t 25) (inferType (VArray (x :: xs)))))
      (or_else (or_else t 25) (firstIsString (VArray (x :: xs))))
    = or_else t 25).
  { assert (Hmap : Forall (fun u => u = t) (map inferType (x :: xs))).
    { apply Forall_map. exact Hall. }
    assert (HT : or_else t 25 <> 0%Z).
    { unfold or_else. destruct (Z.eqb_spec t 0); [discriminate|assumption]. }
    rewrite !(or_else_nz (or_else t 25)) by exact HT.
    destruct (array_at_all_equal t (or_else t 25) _ Hmap) as [-> | ->].
    - destruct (Z.eqb_spec t 0) as [->|Hnz]; [reflexivity|].
      rewrite !or_else_nz by exact Hnz. reflexivity.
    - apply or_else_0. }
  rewrite Hty. reflexivity.
Qed.

Lemma sql_array_type_witness :
  handleValue (H := evalHost) (sql_array [VNull; VNull]) empty_options empty_accum
  = Some (Ok ("$1", @mkAccum evalHost [VArray [VNull; VNull]] [25%Z])).
Proof.
  apply (sql_array_type (H := evalHost) [VNull; VNull] 0 empty_options
           empty_accum).
  - discriminate.
  - repeat constructor.
Defined.

(** ** Batches *)

(** X10: given an array of Query objects that all compose, [sql.begin]
    sends exactly one request, the batch of their payloads in the order
    of the array; an empty array sends an empty batch. *)
Theorem begin_sends_one_batch_in_order {H : Host} (fuel : nat)
    (qs : list val) (ps : list Payload) (w : world) :
  Forall2 (fun q p => is_Query q = true /\ prepare fuel q = Some (Ok p)) qs ps ->
  begin fuel (Items (VArray qs)) w = Some (Ok tt, execute (Batch ps) w).
Proof.
  intros Hall. unfold begin.
  assert (Hitems : prepare_items fuel qs = Some (Ok ps)).
  { induction Hall as [|q p qs ps [Hq Hp] _ IH]; [reflexivity|].
    cbn [prepare_items]. destruct q; try discriminate.
    cbn [prepare_item]. rewrite Hp, IH. reflexivity. }
  rewrite Hitems. reflexivity.
Qed.

Lemma begin_sends_one_batch_in_order_witness :
  begin (H := evalHost) 8
    (Items (VArray [older_than_50; new_Query ["select 1"] []])) no_requests
  = Some (Ok tt,
          execute
            (Batch [ {| query := "select * from users where name is not null and age > $1";
                        params := [Some "50"]; payload_types := [23%Z] |};
                     {| query := "select 1"; params := []; payload_types := [] |} ])
            no_requests).
Proof.
  apply (begin_sends_one_batch_in_order (H := evalHost) 8).
  repeat constructor.
Defined.
(** ** Result projection *)

Section ProjectionFacts.
Context {H : Host}.
Import ArrayParser Projection.



Lemma cells_too_wide (fs : list Field) (row : list string) :
  forall index s,
    index <= List.length fs ->
    List.length fs < index + List.length row ->
    exists e s', cells fs row index s = (Throw e, s').
Proof.
  induction row as [|value row IH]; intros index s Hi Hw;
    cbn [List.length] in Hw.
  - lia.
  - cbn [cells]. unfold cell.
    destruct (nth_error fs index) as [f|] eqn:Ef.
    + assert (index < List.length fs) by (apply nth_error_Some; congruence).
      destruct (deserialize s value _) as [[v|e] s1]; [|eexists _, _; reflexivity].
      destruct (IH (S index) s1 ltac:(lia) ltac:(lia)) as (e & s' & ->).
      eexists _, _. reflexivity.
    + eexists _, _. reflexivity.
Qed.


End ProjectionFacts.



(** X12: [processResult] throws when a row has more cells than there are
    fields: the field of the extra cell is undefined. *)
Theorem processResult_row_too_wide {H : Host} (result : Projection.Result)
    (s : ArrayParser.state) (row : list string) :
  In row (Projection.rows result) ->
  List.length (Projection.fields result) < List.length row ->
  exists e s', Projection.processResult result s = (Throw e, s').
Proof.
  intros Hin Hw. unfold Projection.processResult.
  assert (Hrows : exists e s',
            Projection.each_row (Projection.fields result)
              (Projection.rows result) s = (Throw e, s')).
  { revert s. induction (Projection.rows result) as [|r rows IH]; intros s;
      [contradiction|].
    cbn [Projection.each_row].
    destruct Hin as [->|Hin].
    - destruct (cells_too_wide (Projection.fields result) row 0 s
                  ltac:(lia) Hw)
        as (e & s' & ->).
      eexists _, _. reflexivity.
    - destruct (Projection.cells _ r 0 s) as [[vs|e] s1];
        [|eexists _, _; reflexivity].
      destruct (IH Hin s1) as (e & s' & ->). eexists _, _. reflexivity. }
  destruct Hrows as (e & s' & ->). eexists _, _. reflexivity.
Qed.

Lemma processResult_row_too_wide_witness :
  exists e s',
    Projection.processResult (H := evalHost)
      (Projection.mkResult "SELECT" 1 [["1"; "2"]]
         [Projection.mkField "x" (Some 23%Z)])
      ArrayParser.arrayParserState
    = (Throw e, s').
Proof.
  apply (processResult_row_too_wide (H := evalHost)
           (Projection.mkResult "SELECT" 1 [["1"; "2"]]
              [Projection.mkField "x" (Some 23%Z)])
           ArrayParser.arrayParserState ["1"; "2"]).
  - left. reflexivity.
  - cbn. lia.
Defined.



(** ** The values list *)

Section ValuesFacts.
Context {H : Host}.

Lemma cell_ok_push (fuel : nat) (s : string) (v : val) (o : options_t)
    (st : accum) :
  cell_ok v = true ->
  stringifyValue (S fuel) s v o st
  = Some (Ok ("$" +++ nat_toString (S (List.length (types st))),
              {| parameters := parameters st ++ [v];
                 types := types st ++ [inferType v] |})).
Proof.
  unfold cell_ok. intros Hv. apply andb_prop in Hv as [Hp Hq].
  apply negb_true_iff in Hq.
  cbn [stringifyValue]. unfold stringifyValue_body.
  destruct v; try discriminate Hp; rewrite Hq;
    unfold handleValue, bind, ret, push; cbn [parameters types];
    rewrite length_app, Nat.add_1_r; reflexivity.
Qed.

Lemma numbered_cons (k n : nat) :
  numbered k (S n) = ("$" +++ nat_toString (S k)) :: numbered (S k) n.
Proof. reflexivity. Qed.

(** One row: a placeholder per column, the cells pushed in column order. *)
Lemma row_cells (fuel : nat) (row : val) (o : options_t) :
  forall columns cells st,
    Forall2 (fun column v =>
      get_prop row (ToPropertyKey column) = Ok v /\ cell_ok v = true)
      columns cells ->
    mapM (fun column =>
            bind (lift (get_prop row (ToPropertyKey column))) (fun v =>
            stringifyValue (S fuel) "values" v o)) columns st
    = Some (Ok (numbered (List.length (types st)) (List.length cells),
                {| parameters := parameters st ++ cells;
                   types := types st ++ map inferType cells |})).
Proof.
  induction columns as [|column columns IH]; intros cells st Hall;
    inversion Hall as [|? v ? cells' [Hget Hok] Hrest]; subst.
  - cbn [mapM map List.length]. unfold ret, numbered. cbn [seq map].
    rewrite !app_nil_r. destruct st; reflexivity.
  - cbn [mapM]. unfold bind at 1. unfold bind at 1.
    rewrite Hget. cbn [lift ret].
    rewrite (cell_ok_push fuel "values" v o st Hok).
    unfold bind at 1. rewrite (IH cells' _ Hrest).
    cbn [parameters types ret List.length map].
    rewrite length_app, Nat.add_1_r, numbered_cons, <- !app_assoc.
    reflexivity.
Qed.

End ValuesFacts.

(** X14: over rows whose selected cells are all defined native values,
    [valuesBuilder] renders one parenthesized, comma-separated list of
    placeholders per row, the rows separated by commas; the placeholders
    are numbered consecutively after the parameters already collected, row
    by row and column by column, and the cells are pushed in that same
    order, each with its inferred type. *)
Theorem valuesBuilder_numbering {H : Host} (fuel : nat)
    (rows columns : list val) (table : list (list val)) (o : options_t)
    (st : accum) :
  selects rows columns table ->
  valuesBuilder (stringifyValue (S fuel)) (VArray rows) columns o st
  = Some (Ok (join "," (rows_text table (List.length (types st))),
              {| parameters := parameters st ++ List.concat table;
                 types := types st ++ map inferType (List.concat table) |})).
Proof.
  intros Hsel. unfold valuesBuilder.
  assert (Hrows :
    mapM (fun row =>
            bind (mapM (fun column =>
                    bind (lift (get_prop row (ToPropertyKey column))) (fun v =>
                    stringifyValue (S fuel) "values" v o)) columns) (fun cs =>
            ret ("(" +++ join "," cs +++ ")"))) rows st
    = Some (Ok (rows_text table (List.length (types st)),
                {| parameters := parameters st ++ List.concat table;
                   types := types st ++ map inferType (List.concat table) |}))).
  { revert st. induction Hsel as [|row cells rows table Hrow _ IH]; intros st.
    - cbn [mapM rows_text List.concat map]. unfold ret. rewrite !app_nil_r.
      destruct st; reflexivity.
    - cbn [mapM]. unfold bind at 1. unfold bind at 1.
      rewrite (row_cells fuel row o columns cells st Hrow).
      cbn [ret]. unfold bind at 1. rewrite IH.
      cbn [parameters types ret rows_text List.concat].
      rewrite length_app, length_map, map_app, <- !app_assoc. reflexivity. }
  unfold bind at 1. rewrite Hrows. reflexivity.
Qed.

Lemma valuesBuilder_numbering_witness :
  valuesBuilder (H := evalHost) (stringifyValue 1)
    (VArray [VObject [("name", VString "John"); ("age", jsnum 30)];
             VObject [("name", VString "Jane"); ("age", VNull)]])
    [VString "name"; VString "age"] empty_options
    (@mkAccum evalHost [VBool true] [16%Z])
  = Some (Ok ("($2,$3),($4,$5)",
              @mkAccum evalHost
                [VBool true; VString "John"; jsnum 30; VString "Jane"; VNull]
                [16; 25; 23; 25; 0]%Z)).
Proof.
  apply (valuesBuilder_numbering (H := evalHost) 0
           [VObject [("name", VString "John"); ("age", jsnum 30)];
            VObject [("name", VString "Jane"); ("age", VNull)]]
           [VString "name"; VString "age"]
           [[VString "John"; jsnum 30]; [VString "Jane"; VNull]]
           empty_options (@mkAccum evalHost [VBool true] [16%Z])).
  repeat constructor.
Defined.

(** ** Array texts: serializing and parsing back *)

Section StringFacts.

Lemma str_length_app (a b : string) :
  String.length (a +++ b) = String.length a + String.length b.
Proof. induction a as [|c a IH]; cbn; [reflexivity|rewrite IH; reflexivity]. Qed.

Lemma get_app_right (a : string) (c : ascii) (r : string) :
  String.get (String.length a) (a +++ String c r) = Some c.
Proof. induction a as [|d a IH]; cbn; [reflexivity|exact IH]. Qed.

Lemma substring_app_skip (a t : string) (n m : nat) :
  substring (String.length a + n) m (a +++ t) = substring n m t.
Proof. induction a as [|d a IH]; cbn; [reflexivity|exact IH]. Qed.

Lemma substring_prefix (e b : string) :
  substring 0 (String.length e) (e +++ b) = e.
Proof.
  induction e as [|c e IH]; cbn.
  - destruct b; reflexivity.
  - rewrite IH. reflexivity.
Qed.

Lemma slice_middle (a e b : string) :
  slice (a +++ e +++ b) (String.length a) (String.length a + String.length e) = e.
Proof.
  unfold slice.
  replace (String.length a + String.length e - String.length a)
    with (String.length e) by lia.
  rewrite <- (Nat.add_0_r (String.length a)) at 1.
  rewrite substring_app_skip. apply substring_prefix.
Qed.

End StringFacts.

Section ParserSteps.
Context {H : Host}.
Import ArrayParser.
Variable x : string.
Variable parser : option (string -> val).
Variable typarray : Z.
Hypothesis comma : Z.eqb typarray 1020 = false.

Lemma plain_char_spec (c : ascii) :
  plain_char c = true ->
  Ascii.eqb c dquote = false /\ Ascii.eqb c "{" = false
  /\ Ascii.eqb c "}" = false /\ Ascii.eqb c "," = false.
Proof.
  unfold plain_char. intros Hc.
  repeat (apply andb_prop in Hc as [Hc ?]).
  repeat split; apply negb_true_iff; assumption.
Qed.

(** One iteration on a plain character outside quotes. *)
Lemma loop_step_plain (fuel : nat) (s : state) (c : ascii) (xs : list val) :
  i s < String.length x -> char_at x (i s) = Some c ->
  quoted s = false -> plain_char c = true ->
  loop (S fuel) s x parser typarray xs
  = loop fuel (set_i (set_p (set_char s (Some c)) (Some c)) (i s + 1))
      x parser typarray xs.
Proof.
  intros Hlt Hc Hq Hp.
  apply plain_char_spec in Hp as (H1 & H2 & H3 & H4).
  cbn [loop]. apply Nat.ltb_lt in Hlt. rewrite Hlt, Hc, comma.
  cbn [quoted set_char char is_char]. rewrite Hq, H1, H2, H3, H4.
  cbn [andb]. reflexivity.
Qed.

(** One iteration on a delimiter outside quotes, after a plain character. *)
Lemma loop_step_delimiter (fuel : nat) (s : state) (xs : list val) :
  i s < String.length x -> char_at x (i s) = Some ","%char ->
  quoted s = false ->
  is_char (p s) "}" = false -> is_char (p s) dquote = false ->
  loop (S fuel) s x parser typarray xs
  = loop fuel
      (set_i (set_p (set_last (set_char s (Some ","%char)) (i s + 1))
                (Some ","%char)) (i s + 1))
      x parser typarray (xs ++ [apply_parser parser (slice x (last s) (i s))]).
Proof.
  intros Hlt Hc Hq Hp1 Hp2.
  cbn [loop]. apply Nat.ltb_lt in Hlt. rewrite Hlt, Hc, comma.
  cbn [quoted set_char char is_char p last i]. rewrite Hq, Hp1, Hp2.
  replace (Ascii.eqb "," dquote) with false by reflexivity.
  cbn. reflexivity.
Qed.

(** The iteration on the closing brace outside quotes. *)
Lemma loop_step_close (fuel : nat) (s : state) (xs : list val) :
  i s < String.length x -> char_at x (i s) = Some "}"%char ->
  quoted s = false ->
  loop (S fuel) s x parser typarray xs
  = Some (finish
            (set_last (set_quoted (set_char s (Some "}"%char)) false) (i s + 1))
            x parser
            (if Nat.ltb (last s) (i s)
             then xs ++ [apply_parser parser (slice x (last s) (i s))]
             else xs)).
Proof.
  intros Hlt Hc Hq.
  cbn [loop]. apply Nat.ltb_lt in Hlt. rewrite Hlt, Hc, comma.
  cbn [quoted set_char char is_char p last i set_quoted]. rewrite Hq.
  replace (Ascii.eqb "}" dquote) with false by reflexivity.
  cbn. reflexivity.
Qed.

Lemma advance_fields (e : string) :
  forall s,
    i (advance s e) = i s + String.length e
    /\ last (advance s e) = last s
    /\ quoted (advance s e) = quoted s
    /\ str (advance s e) = str s.
Proof.
  induction e as [|c e IH]; intros s; cbn [advance String.length].
  - rewrite Nat.add_0_r. repeat split.
  - destruct (IH (set_i (set_p (set_char s (Some c)) (Some c)) (i s + 1)))
      as (Hi & Hl & Hq & Hs).
    rewrite Hi, Hl, Hq, Hs. cbn [i last quoted str set_i set_p set_char].
    repeat split. lia.
Qed.

Lemma advance_p (e : string) :
  plain_text e = true ->
  forall s, is_char (p (advance s e)) "}" = false
            /\ is_char (p (advance s e)) dquote = false.
Proof.
  destruct e as [|c e]; [discriminate|]. cbn [plain_text].
  revert c. induction e as [|d e IH]; intros c Hc s;
    cbn [plain_chars] in Hc; apply andb_prop in Hc as [Hc He].
  - cbn [advance p set_i set_p is_char].
    apply plain_char_spec in Hc as (H1 & _ & H3 & _). split; assumption.
  - cbn [advance]. apply (IH d He).
Qed.

(** Passing over the plain characters of an element. *)
Lemma loop_scan (e : string) :
  forall a b fuel s xs,
    x = a +++ e +++ b ->
    plain_chars e = true ->
    i s = String.length a -> quoted s = false ->
    loop (String.length e + fuel) s x parser typarray xs
    = loop fuel (advance s e) x parser typarray xs.
Proof.
  induction e as [|c e IH]; intros a b fuel s xs Hx He Hi Hq.
  - reflexivity.
  - cbn [plain_chars] in He. apply andb_prop in He as [Hc He].
    cbn [String.length Nat.add advance].
    rewrite (loop_step_plain _ s c); try assumption.
    + apply (IH (a +++ str1 c) b).
      * rewrite Hx, append_assoc. reflexivity.
      * exact He.
      * cbn [i set_i]. rewrite str_length_app, Hi. reflexivity.
      * exact Hq.
    + rewrite Hx, Hi, !str_length_app. cbn [String.length append]. lia.
    + unfold char_at. rewrite Hx, Hi. cbn [append]. apply get_app_right.
Qed.

End ParserSteps.
Section ParserElements.
Context {H : Host}.
Import ArrayParser.
Variable x : string.
Variable parser : option (string -> val).
Variable typarray : Z.
Hypothesis comma : Z.eqb typarray 1020 = false.

Lemma plain_text_chars (e : string) :
  plain_text e = true -> plain_chars e = true /\ 0 < String.length e.
Proof.
  destruct e as [|c e]; [discriminate|]. cbn [plain_text String.length].
  intros He. split; [exact He|lia].
Qed.

(** The iteration on an opening brace outside quotes. *)
Lemma loop_step_open (fuel : nat) (s : state) (xs : list val) :
  i s < String.length x -> char_at x (i s) = Some "{"%char ->
  quoted s = false ->
  loop (S fuel) s x parser typarray xs
  = match loop fuel
            (set_last (set_i (set_char s (Some "{"%char)) (i s + 1)) (i s + 1))
            x parser typarray [] with
    | None => None
    | Some (inner, s') =>
      loop fuel (set_i (set_p s' (char s')) (i s' + 1)) x parser typarray
        (xs ++ [VArray inner])
    end.
Proof.
  intros Hlt Hc Hq.
  cbn [loop]. apply Nat.ltb_lt in Hlt. rewrite Hlt, Hc, comma.
  cbn [quoted set_char char is_char p last i set_quoted]. rewrite Hq.
  replace (Ascii.eqb "{" dquote) with false by reflexivity.
  replace (Ascii.eqb "{" "{") with true by reflexivity.
  reflexivity.
Qed.

(** Past the end of the text the loop stops. *)
Lemma loop_end (fuel : nat) (s : state) (xs : list val) :
  String.length x <= i s ->
  loop (S fuel) s x parser typarray xs = Some (finish s x parser xs).
Proof.
  intros Hge. cbn [loop]. apply Nat.ltb_ge in Hge. rewrite Hge. reflexivity.
Qed.

(** The elements of one level: from the start of the first element to
    the closing brace. *)
Lemma loop_elements (rest : list string) :
  forall e a b fuel s xs,
    x = a +++ join "," (e :: rest) +++ "}" +++ b ->
    Forall (fun t => plain_text t = true) (e :: rest) ->
    i s = String.length a -> last s = String.length a -> quoted s = false ->
    exists s',
      loop (String.length (join "," (e :: rest)) + S fuel) s x parser typarray xs
      = Some (xs ++ map (apply_parser parser) (e :: rest), s')
      /\ i s' = String.length a + String.length (join "," (e :: rest))
      /\ last s' = i s' + 1
      /\ quoted s' = false.
Proof.
  induction rest as [|e2 rest IH]; intros e a b fuel s xs Hx Hes Hi Hl Hq.
  - cbn [join] in *. apply Forall_cons_iff in Hes as [He _].
    apply plain_text_chars in He as [He Hpos].
    rewrite (loop_scan x parser typarray comma e a ("}" +++ b)); try assumption.
    destruct (advance_fields e s) as (Ai & Al & Aq & _).
    rewrite loop_step_close; try assumption.
    + rewrite Al, Ai, Hl, Hi.
      replace (Nat.ltb (String.length a) (String.length a + String.length e))
        with true by (symmetry; apply Nat.ltb_lt; lia).
      assert (Hslice : slice x (String.length a) (String.length a + String.length e) = e)
        by (rewrite Hx; apply slice_middle).
      rewrite Hslice.
      unfold finish. cbn [last i set_last set_quoted set_char].
      rewrite Ai, Hi.
      replace (Nat.ltb (String.length a + String.length e + 1)
                 (String.length a + String.length e))
        with false by (symmetry; apply Nat.ltb_ge; lia).
      eexists. split; [reflexivity|].
      cbn [i last quoted set_last set_quoted set_char]. rewrite Ai, Hi.
      repeat split.
    + rewrite Ai, Hi, Hx, !str_length_app. cbn [String.length]. lia.
    + unfold char_at. rewrite Ai, Hi, Hx, <- append_assoc, <- str_length_app.
      apply get_app_right.
    + rewrite Aq. exact Hq.
  - apply Forall_cons_iff in Hes as [He Hrest].
    pose proof He as Hplain.
    apply plain_text_chars in He as [He Hpos].
    change (join "," (e :: e2 :: rest))
      with (e +++ "," +++ join "," (e2 :: rest)) in *.
    set (J := join "," (e2 :: rest)) in *.
    replace (String.length (e +++ "," +++ J) + S fuel)
      with (String.length e + S (String.length J + S fuel))
      by (rewrite !str_length_app; cbn [String.length]; lia).
    rewrite (loop_scan x parser typarray comma e a ("," +++ J +++ "}" +++ b));
      try assumption; [|rewrite Hx, !append_assoc; reflexivity].
    destruct (advance_fields e s) as (Ai & Al & Aq & _).
    destruct (advance_p e Hplain s) as (Ap1 & Ap2).
    rewrite loop_step_delimiter; try assumption.
    + rewrite Al, Ai, Hl, Hi.
      assert (Hslice : slice x (String.length a) (String.length a + String.length e) = e)
        by (rewrite Hx, !append_assoc; apply slice_middle).
      rewrite Hslice.
      destruct (IH e2 (a +++ e +++ ",") b fuel
                  (set_i (set_p (set_last (set_char (advance s e) (Some ","%char))
                                   (String.length a + String.length e + 1))
                            (Some ","%char))
                     (String.length a + String.length e + 1))
                  (xs ++ [apply_parser parser e]))
        as (s' & Hloop & Hi' & Hl' & Hq').
      * rewrite Hx, !append_assoc. reflexivity.
      * exact Hrest.
      * cbn [i set_i]. rewrite !str_length_app. cbn [String.length]. lia.
      * cbn [last set_i set_p set_last]. rewrite !str_length_app.
        cbn [String.length]. lia.
      * cbn [quoted set_i set_p set_last set_char]. rewrite Aq. exact Hq.
      * exists s'. fold J in Hloop. rewrite Hloop.
        split; [cbn [map]; rewrite <- app_assoc; reflexivity|].
        split; [|split; assumption].
        rewrite Hi', !str_length_app. cbn [String.length]. fold J. lia.
    + rewrite Ai, Hi, Hx, !str_length_app. cbn [String.length]. lia.
    + unfold char_at. rewrite Ai, Hi, Hx, !append_assoc.
      rewrite <- (append_assoc a e), <- str_length_app.
      apply get_app_right.
    + rewrite Aq. exact Hq.
Qed.

(** A whole one-level array literal, from any state outside quotes. *)
Lemma arrayParser_plain_elements (es : list string) (s : state) :
  x = array_text es ->
  Forall (fun t => plain_text t = true) es ->
  quoted s = false ->
  exists s',
    arrayParser s x parser typarray
    = Some ([VArray (map (apply_parser parser) es)], s').
Proof.
  intros Hx Hes Hq. unfold arrayParser, arrayParserLoop, fuel_for.
  assert (Hlen : String.length x = S (String.length (join "," es) + 1)).
  { rewrite Hx. unfold array_text. cbn [append String.length].
    rewrite str_length_app. reflexivity. }
  assert (Hopen : char_at x 0 = Some "{"%char) by (rewrite Hx; reflexivity).
  rewrite Hlen.
  rewrite loop_step_open; [|cbn [i set_i set_last]; lia|exact Hopen|exact Hq].
  cbn [i set_i set_last set_char Nat.add].
  destruct es as [|e rest].
  - cbn [join String.length Nat.add] in *.
    rewrite (loop_step_close x parser typarray comma);
      [|cbn [i set_i set_last]; lia|rewrite Hx; reflexivity|exact Hq].
    unfold finish.
    cbn [i last set_i set_last set_char set_quoted set_p char Nat.ltb Nat.leb
         Nat.add app].
    rewrite loop_end; [|cbn [i set_i]; lia].
    unfold finish. cbn [i last set_i set_last set_char set_quoted set_p
                        Nat.ltb Nat.leb map].
    eexists. reflexivity.
  - destruct (loop_elements rest e "{" EmptyString 1
                (set_last (set_i (set_char (set_last (set_i s 0) 0)
                                    (Some "{"%char)) 1) 1) [])
      as (s' & Hloop & Hi' & Hl' & Hq').
    + rewrite Hx. unfold array_text. reflexivity.
    + exact Hes.
    + reflexivity.
    + reflexivity.
    + exact Hq.
    + replace (S (String.length (join "," (e :: rest)) + 1))
        with (String.length (join "," (e :: rest)) + 2) by lia.
      rewrite Hloop. cbn [app].
      replace (String.length (join "," (e :: rest)) + 2)
        with (S (String.length (join "," (e :: rest)) + 1)) by lia.
      rewrite loop_end; [|cbn [i set_i]; rewrite Hi'; cbn [String.length]; lia].
      unfold finish. cbn [i last set_i set_p].
      replace (Nat.ltb (last s') (i s' + 1)) with false
        by (symmetry; apply Nat.ltb_ge; lia).
      eexists. reflexivity.
Qed.

End ParserElements.
Section SerializeArrays.
Context {H : Host}.

Lemma serialize_value_array (xs : list val) :
  serialize_value (VArray xs)
  = exc_bind (serialize_each serialize_value xs) (fun ts =>
    Ok (Some ("{" +++ join_opt "," ts +++ "}"))).
Proof. reflexivity. Qed.

Lemma serialize_each_strings (es : list string) :
  serialize_each serialize_value (map VString es) = Ok (map Some es).
Proof.
  induction es as [|e es IH]; [reflexivity|].
  cbn [map serialize_each]. rewrite IH. reflexivity.
Qed.

Lemma serialize_each_numbers (ns : list number) :
  serialize_each serialize_value (map VNumber ns)
  = Ok (map (fun n => Some (number_toString n)) ns).
Proof.
  induction ns as [|n ns IH]; [reflexivity|].
  cbn [map serialize_each]. rewrite IH. reflexivity.
Qed.

Lemma join_opt_some {A} (f : A -> string) (xs : list A) :
  join_opt "," (map (fun x => Some (f x)) xs) = join "," (map f xs).
Proof. unfold join_opt. rewrite map_map. reflexivity. Qed.

Lemma serialize_numbers (ns : list number) :
  serialize (VArray (map VNumber ns))
  = Ok (Some (array_text (map number_toString ns))).
Proof.
  cbn [serialize]. rewrite serialize_value_array, serialize_each_numbers.
  cbn [exc_bind]. rewrite join_opt_some. reflexivity.
Qed.

End SerializeArrays.

(** X15: from any scratch state that is not in quoted mode, and with any
    element parser, the text of a one-level array whose elements are
    non-empty and free of quotes, braces and commas parses to one nested
    array holding the elements in order, each passed through the element
    parser. *)
Theorem arrayParser_splits_plain_elements {H : Host} (es : list string)
    (s : ArrayParser.state) (parser : option (string -> val)) (typarray : Z) :
  Z.eqb typarray 1020 = false ->
  ArrayParser.quoted s = false ->
  Forall (fun t => plain_text t = true) es ->
  option_map fst (ArrayParser.arrayParser s (array_text es) parser typarray)
  = Some [VArray (map (ArrayParser.apply_parser parser) es)].
Proof.
  intros Hc Hq Hes.
  destruct (arrayParser_plain_elements (array_text es) parser typarray Hc es s
              eq_refl Hes Hq) as (s' & ->).
  reflexivity.
Qed.

Lemma arrayParser_splits_plain_elements_witness :
  option_map fst
    (ArrayParser.arrayParser (H := evalHost)
       (ArrayParser.mkState 9 (Some "}"%char) (Some "x"%char) "left" false 4)
       (array_text ["a b"; "NULL"; "10.5"]) None 0)
  = Some [VArray (map (ArrayParser.apply_parser None) ["a b"; "NULL"; "10.5"])].
Proof.
  apply (arrayParser_splits_plain_elements (H := evalHost)).
  - reflexivity.
  - reflexivity.
  - repeat constructor.
Defined.

(** X16: under the array type 1007 an array of numbers round-trips: if
    the host reads back the text of each number, and that text is
    non-empty and free of quotes, braces and commas, then the serialized
    text of the array deserializes to the array, from any scratch state
    that is not in quoted mode. *)
Theorem array_of_numbers_round_trip {H : Host} (ns : list number)
    (s : ArrayParser.state) :
  ArrayParser.quoted s = false ->
  Forall (fun n => ToNumber (number_toString n) = n
                   /\ plain_text (number_toString n) = true) ns ->
  exists text s',
    serialize (VArray (map VNumber ns)) = Ok (Some text)
    /\ deserialize s text 1007 = (Ok (VArray (map VNumber ns)), s').
Proof.
  intros Hq Hns.
  exists (array_text (map number_toString ns)).
  assert (Hplain : Forall (fun t => plain_text t = true) (map number_toString ns)).
  { apply Forall_map. eapply Forall_impl; [|exact Hns]. cbn. tauto. }
  destruct (arrayParser_plain_elements (array_text (map number_toString ns))
              (Some numeric) 0 eq_refl (map number_toString ns) s
              eq_refl Hplain Hq) as (s' & Hparse).
  exists s'. split; [apply serialize_numbers|].
  cbn [deserialize]. rewrite Hparse. cbn [flat]. rewrite app_nil_r.
  do 3 f_equal.
  clear Hparse Hplain. induction Hns as [|n ns [Hn _] _ IH]; [reflexivity|].
  cbn [map ArrayParser.apply_parser]. unfold numeric at 1. rewrite Hn, IH.
  reflexivity.
Qed.

Lemma array_of_numbers_round_trip_witness :
  exists text s',
    serialize (H := evalHost)
      (VArray (map VNumber [EvalHost.Dec 1 0; EvalHost.Dec 25 1; EvalHost.Dec (-3) 0]))
    = Ok (Some text)
    /\ deserialize (H := evalHost) ArrayParser.arrayParserState text 1007
       = (Ok (VArray (map VNumber [EvalHost.Dec 1 0; EvalHost.Dec 25 1;
                                   EvalHost.Dec (-3) 0])), s').
Proof.
  apply (array_of_numbers_round_trip (H := evalHost)).
  - reflexivity.
  - repeat constructor.
Defined.

(** X17: [serialize] writes the strings of an array as they are, with
    neither quotes nor escapes, between braces and separated by commas;
    so the array of the two strings [a] and [b] and the array of the one
    string [a,b] have the same text. *)
Theorem serialize_strings_verbatim {H : Host} (es : list string) (a b : string) :
  serialize (VArray (map VString es)) = Ok (Some (array_text es))
  /\ serialize (VArray [VString a; VString b])
     = serialize (VArray [VString (a +++ "," +++ b)]).
Proof.
  split; [|reflexivity].
  cbn [serialize]. rewrite serialize_value_array, serialize_each_strings.
  cbn [exc_bind]. unfold join_opt. rewrite map_map, map_id. reflexivity.
Qed.

(** ** Array literals of any dimension *)

Section LiteralSteps.
Context {H : Host}.
Import ArrayParser.
Variable x : string.
Variable parser : option (string -> val).
Variable typarray : Z.

Local Abbreviation d := (delimiter typarray).
Local Abbreviation runs := (runs x parser typarray).

Lemma delimiter_cases : d = ";"%char \/ d = ","%char.
Proof. unfold delimiter. destruct (Z.eqb typarray 1020); auto. Qed.

Lemma bare_char_spec (c : ascii) :
  bare_char d c = true ->
  Ascii.eqb c dquote = false /\ Ascii.eqb c "{" = false
  /\ Ascii.eqb c "}" = false /\ Ascii.eqb c d = false.
Proof.
  unfold bare_char. intros Hc.
  repeat (apply andb_prop in Hc as [Hc ?]).
  repeat split; apply negb_true_iff; assumption.
Qed.

Lemma at_position (a : string) (c : ascii) (r : string) (s : state) :
  x = a +++ String c r -> i s = String.length a ->
  Nat.ltb (i s) (String.length x) = true /\ char_at x (i s) = Some c.
Proof.
  intros Hx Hi. split.
  - apply Nat.ltb_lt. rewrite Hx, Hi, str_length_app. cbn [String.length]. lia.
  - unfold char_at. rewrite Hx, Hi. apply get_app_right.
Qed.

Lemma runs_eq (s s' : state) (xs : list val) (R : list val * state) :
  s' = s -> runs s' xs R -> runs s xs R.
Proof. intros ->. exact (fun h => h). Qed.

(** A bare character outside quotes is passed over. *)
Lemma runs_bare (a : string) (c : ascii) (r : string) (s : state)
    (xs : list val) (R : list val * state) :
  x = a +++ String c r -> i s = String.length a -> quoted s = false ->
  bare_char d c = true ->
  runs (set_i (set_p (set_char s (Some c)) (Some c)) (i s + 1)) xs R ->
  runs s xs R.
Proof.
  intros Hx Hi Hq Hc Hrun fuel Hf.
  destruct (at_position a c r s Hx Hi) as [Hlt Hch].
  apply bare_char_spec in Hc as (H1 & H2 & H3 & H4).
  destruct fuel as [|fuel]; [lia|].
  cbn [loop]. rewrite Hlt, Hch.
  change (if Z.eqb typarray 1020 then ";"%char else ","%char) with d.
  cbn [quoted set_char char is_char]. rewrite Hq, H1, H2, H3, H4.
  cbn [andb]. apply Hrun.
  apply Nat.ltb_lt in Hlt. cbn [i set_i]. lia.
Qed.

(** A delimiter after a bare character pushes the element before it. *)
Lemma runs_delimiter_push (a r : string) (s : state)
    (xs : list val) (R : list val * state) :
  x = a +++ String d r -> i s = String.length a -> quoted s = false ->
  is_char (p s) "}" = false -> is_char (p s) dquote = false ->
  runs (set_i (set_p (set_last (set_char s (Some d)) (i s + 1)) (Some d))
          (i s + 1))
    (xs ++ [apply_parser parser (slice x (last s) (i s))]) R ->
  runs s xs R.
Proof.
  intros Hx Hi Hq Hp1 Hp2 Hrun fuel Hf.
  destruct (at_position a d r s Hx Hi) as [Hlt Hch].
  destruct fuel as [|fuel]; [lia|].
  cbn [loop]. rewrite Hlt, Hch.
  change (if Z.eqb typarray 1020 then ";"%char else ","%char) with d.
  cbn [quoted set_char char is_char p last i]. rewrite Hq, Hp1, Hp2.
  rewrite Ascii.eqb_refl.
  assert (Hd : Ascii.eqb d dquote = false /\ Ascii.eqb d "{" = false
               /\ Ascii.eqb d "}" = false)
    by (destruct delimiter_cases as [-> | ->]; repeat split; reflexivity).
  destruct Hd as (-> & -> & ->). cbn [andb negb].
  apply Hrun. apply Nat.ltb_lt in Hlt. cbn [i set_i]. lia.
Qed.

(** A delimiter after a closing brace or a closing quote pushes nothing. *)
Lemma runs_delimiter_skip (a r : string) (s : state)
    (xs : list val) (R : list val * state) :
  x = a +++ String d r -> i s = String.length a -> quoted s = false ->
  is_char (p s) "}" || is_char (p s) dquote = true ->
  runs (set_i (set_p (set_char s (Some d)) (Some d)) (i s + 1)) xs R ->
  runs s xs R.
Proof.
  intros Hx Hi Hq Hp Hrun fuel Hf.
  destruct (at_position a d r s Hx Hi) as [Hlt Hch].
  destruct fuel as [|fuel]; [lia|].
  cbn [loop]. rewrite Hlt, Hch.
  change (if Z.eqb typarray 1020 then ";"%char else ","%char) with d.
  cbn [quoted set_char char is_char p last i]. rewrite Hq.
  assert (Hd : Ascii.eqb d dquote = false /\ Ascii.eqb d "{" = false
               /\ Ascii.eqb d "}" = false)
    by (destruct delimiter_cases as [-> | ->]; repeat split; reflexivity).
  destruct Hd as (-> & -> & ->).
  replace (Ascii.eqb d d && negb (is_char (p s) "}")
           && negb (is_char (p s) dquote)) with false.
  - apply Hrun. apply Nat.ltb_lt in Hlt. cbn [i set_i]. lia.
  - rewrite Ascii.eqb_refl. cbn [andb].
    destruct (is_char (p s) "}"), (is_char (p s) dquote);
      first [reflexivity | discriminate].
Qed.

(** A closing brace ends the level, pushing the bare element before it. *)
Lemma runs_close (a r : string) (s : state) (xs : list val) :
  x = a +++ String "}" r -> i s = String.length a -> quoted s = false ->
  runs s xs
    (if Nat.ltb (last s) (i s)
     then xs ++ [apply_parser parser (slice x (last s) (i s))]
     else xs,
     set_last (set_quoted (set_char s (Some "}"%char)) false) (i s + 1)).
Proof.
  intros Hx Hi Hq fuel Hf.
  destruct (at_position a "}" r s Hx Hi) as [Hlt Hch].
  destruct fuel as [|fuel]; [lia|].
  cbn [loop]. rewrite Hlt, Hch.
  cbn [quoted set_char char is_char p last i set_quoted]. rewrite Hq.
  replace (Ascii.eqb "}" dquote) with false by reflexivity.
  replace (Ascii.eqb "}" "{") with false by reflexivity.
  rewrite Ascii.eqb_refl. unfold finish.
  cbn [i last set_last set_quoted set_char].
  replace (Nat.ltb (i s + 1) (i s)) with false
    by (symmetry; apply Nat.ltb_ge; lia).
  reflexivity.
Qed.

(** An opening brace runs the loop on the level below and pushes what it
    returns. *)
Lemma runs_open (a r : string) (s s' : state)
    (inner xs : list val) (R : list val * state) :
  x = a +++ String "{" r -> i s = String.length a -> quoted s = false ->
  runs (set_last (set_i (set_char s (Some "{"%char)) (i s + 1)) (i s + 1))
    [] (inner, s') ->
  i s <= i s' ->
  runs (set_i (set_p s' (char s')) (i s' + 1)) (xs ++ [VArray inner]) R ->
  runs s xs R.
Proof.
  intros Hx Hi Hq Hin Hle Hrun fuel Hf.
  destruct (at_position a "{" r s Hx Hi) as [Hlt Hch].
  destruct fuel as [|fuel]; [lia|].
  cbn [loop]. rewrite Hlt, Hch.
  cbn [quoted set_char char is_char p last i set_quoted]. rewrite Hq.
  replace (Ascii.eqb "{" dquote) with false by reflexivity.
  rewrite Ascii.eqb_refl.
  apply Nat.ltb_lt in Hlt.
  change (i (set_i (set_char s (Some "{"%char)) (i s + 1))) with (i s + 1).
  rewrite (Hin fuel) by (cbn [i set_i set_last]; lia).
  apply Hrun. cbn [i set_i]. lia.
Qed.

(** An opening quote switches to quoted mode. *)
Lemma runs_quote (a r : string) (s : state)
    (xs : list val) (R : list val * state) :
  x = a +++ String dquote r -> i s = String.length a -> quoted s = false ->
  runs (set_i (set_p (set_quoted (set_char s (Some dquote)) true) (Some dquote))
          (i s + 1)) xs R ->
  runs s xs R.
Proof.
  intros Hx Hi Hq Hrun fuel Hf.
  destruct (at_position a dquote r s Hx Hi) as [Hlt Hch].
  destruct fuel as [|fuel]; [lia|].
  cbn [loop]. rewrite Hlt, Hch.
  cbn [quoted set_char char is_char p last i set_quoted]. rewrite Hq.
  rewrite Ascii.eqb_refl.
  apply Hrun. apply Nat.ltb_lt in Hlt. cbn [i set_i]. lia.
Qed.

(** Between quotes any character but a quote and a backslash is kept. *)
Lemma runs_quoted_char (a : string) (c : ascii) (r : string) (s : state)
    (xs : list val) (R : list val * state) :
  x = a +++ String c r -> i s = String.length a -> quoted s = true ->
  Ascii.eqb c dquote = false -> Ascii.eqb c backslash = false ->
  runs (set_i (set_p (set_str (set_char s (Some c)) (str s +++ str1 c)) (Some c))
          (i s + 1)) xs R ->
  runs s xs R.
Proof.
  intros Hx Hi Hq Hc1 Hc2 Hrun fuel Hf.
  destruct (at_position a c r s Hx Hi) as [Hlt Hch].
  destruct fuel as [|fuel]; [lia|].
  cbn [loop]. rewrite Hlt, Hch.
  cbn [quoted set_char char is_char p last i set_quoted str append_char].
  rewrite Hq, Hc1, Hc2.
  apply Hrun. apply Nat.ltb_lt in Hlt. cbn [i set_i]. lia.
Qed.

(** Between quotes a backslash keeps the character after it. *)
Lemma runs_quoted_escape (a : string) (c : ascii) (r : string) (s : state)
    (xs : list val) (R : list val * state) :
  x = a +++ String backslash (String c r) ->
  i s = String.length a -> quoted s = true ->
  runs (set_i (set_p (set_str (set_char s (Some backslash)) (str s +++ str1 c))
                 (Some backslash))
          (i s + 2)) xs R ->
  runs s xs R.
Proof.
  intros Hx Hi Hq Hrun fuel Hf.
  destruct (at_position a backslash (String c r) s Hx Hi) as [Hlt Hch].
  assert (Hnext : char_at x (i s + 1) = Some c).
  { unfold char_at. rewrite Hx, Hi.
    change (a +++ String backslash (String c r))
      with (a +++ str1 backslash +++ String c r).
    rewrite <- append_assoc.
    replace (String.length a + 1) with (String.length (a +++ str1 backslash))
      by (rewrite str_length_app; reflexivity).
    apply get_app_right. }
  destruct fuel as [|fuel]; [lia|].
  cbn [loop]. rewrite Hlt, Hch.
  cbn [quoted set_char char is_char p last i set_quoted str set_i].
  rewrite Hq, Ascii.eqb_refl, Hnext. cbn [append_char].
  refine (eq_trans _ (Hrun fuel _)).
  - f_equal. unfold set_i, set_p, set_str, set_char. cbn. f_equal. lia.
  - apply Nat.ltb_lt in Hlt. cbn [i set_i]. lia.
Qed.

(** The closing quote pushes the text kept since the opening one. *)
Lemma runs_quote_close (a : string) (c : ascii) (r : string) (s : state)
    (xs : list val) (R : list val * state) :
  x = a +++ String dquote (String c r) ->
  i s = String.length a -> quoted s = true ->
  Ascii.eqb c dquote = false ->
  runs (set_i (set_p (set_last (set_quoted (set_str (set_char s (Some dquote))
                                              EmptyString) false)
                        (i s + 2)) (Some dquote))
          (i s + 1))
    (xs ++ [apply_parser parser (str s)]) R ->
  runs s xs R.
Proof.
  intros Hx Hi Hq Hc Hrun fuel Hf.
  destruct (at_position a dquote (String c r) s Hx Hi) as [Hlt Hch].
  assert (Hnext : char_at x (i s + 1) = Some c).
  { unfold char_at. rewrite Hx, Hi.
    change (a +++ String dquote (String c r))
      with (a +++ str1 dquote +++ String c r).
    rewrite <- append_assoc.
    replace (String.length a + 1) with (String.length (a +++ str1 dquote))
      by (rewrite str_length_app; reflexivity).
    apply get_app_right. }
  destruct fuel as [|fuel]; [lia|].
  cbn [loop]. rewrite Hlt, Hch.
  cbn [quoted set_char char is_char p last i set_quoted str set_i set_str].
  rewrite Hq, Ascii.eqb_refl, Hnext.
  replace (Ascii.eqb dquote backslash) with false by reflexivity.
  cbn [is_char]. rewrite Hc.
  apply Hrun. apply Nat.ltb_lt in Hlt. cbn [i set_i]. lia.
Qed.

(** Past the end of the text the loop stops. *)
Lemma runs_end (s : state) (xs : list val) :
  String.length x <= i s -> runs s xs (finish s x parser xs).
Proof.
  intros Hge fuel Hf. destruct fuel as [|fuel]; [lia|].
  cbn [loop]. apply Nat.ltb_ge in Hge. rewrite Hge. reflexivity.
Qed.

End LiteralSteps.

Section LiteralItems.
Context {H : Host}.
Import ArrayParser.
Variable x : string.
Variable parser : option (string -> val).
Variable typarray : Z.

Local Abbreviation d := (delimiter typarray).
Local Abbreviation runs := (runs x parser typarray).

Local Ltac lens := rewrite ?str_length_app; cbn [String.length str1]; lia.
Local Ltac same_state := f_equal; try lens; try reflexivity.
Local Ltac fields :=
  unfold set_i, set_p, set_char, set_str, set_quoted, set_last;
  cbn [i p char str quoted last].

Lemma append_empty_r (t : string) : t +++ EmptyString = t.
Proof. induction t as [|c t IH]; cbn; [reflexivity|rewrite IH; reflexivity]. Qed.

Lemma runs_result (s : state) (xs : list val) (R R' : list val * state) :
  R = R' -> runs s xs R -> runs s xs R'.
Proof. intros ->. exact (fun h => h). Qed.

(** Passing over the characters of a bare element. *)
Lemma scan_bare (t : string) :
  forall c a r p0 c0 st l,
    x = a +++ String c t +++ r ->
    bare_chars d (String c t) = true ->
    exists c', bare_char d c' = true /\
      forall xs R,
        runs (mkState (String.length a + S (String.length t))
                (Some c') (Some c') st false l) xs R ->
        runs (mkState (String.length a) p0 c0 st false l) xs R.
Proof.
  induction t as [|c2 t IH]; intros c a r p0 c0 st l Hx Hb;
    cbn [bare_chars] in Hb; apply andb_prop in Hb as [Hc Ht].
  - exists c. split; [exact Hc|]. intros xs R Hrun.
    apply (runs_bare x parser typarray a c r); [exact Hx|reflexivity|reflexivity|exact Hc|].
    fields. eapply runs_eq; [|exact Hrun]. same_state.
  - destruct (IH c2 (a +++ str1 c) r (Some c) (Some c) st l) as (c' & Hc' & Hstep).
    + rewrite Hx, append_assoc. reflexivity.
    + exact Ht.
    + exists c'. split; [exact Hc'|]. intros xs R Hrun.
      apply (runs_bare x parser typarray a c (String c2 t +++ r));
        [exact Hx|reflexivity|reflexivity|exact Hc|].
      fields. eapply runs_eq; [|apply Hstep; eapply runs_eq; [|exact Hrun]];
        same_state.
Qed.

(** Passing over the characters between two quotes. *)
Lemma scan_quoted (t : string) :
  forall a r p0 c0 st l,
    x = a +++ escape t +++ r ->
    exists p' c',
      forall xs R,
        runs (mkState (String.length a + String.length (escape t))
                p' c' (st +++ t) true l) xs R ->
        runs (mkState (String.length a) p0 c0 st true l) xs R.
Proof.
  induction t as [|c t IH]; intros a r p0 c0 st l Hx.
  - exists p0, c0. intros xs R Hrun. eapply runs_eq; [|exact Hrun].
    cbn [escape String.length]. rewrite append_empty_r. same_state.
  - cbn [escape] in Hx |- *.
    destruct (Ascii.eqb c dquote || Ascii.eqb c backslash) eqn:E.
    + destruct (IH (a +++ str1 backslash +++ str1 c) r
                  (Some backslash) (Some backslash) (st +++ str1 c) l)
        as (p' & c' & Hstep).
      * rewrite Hx, !append_assoc. reflexivity.
      * exists p', c'. intros xs R Hrun.
        apply (runs_quoted_escape x parser typarray a c (escape t +++ r));
          [exact Hx|reflexivity|reflexivity|].
        fields. eapply runs_eq; [|apply Hstep; eapply runs_eq; [|exact Hrun]].
        -- same_state.
        -- rewrite append_assoc. same_state.
    + apply orb_false_iff in E as [E1 E2].
      destruct (IH (a +++ str1 c) r (Some c) (Some c) (st +++ str1 c) l)
        as (p' & c' & Hstep).
      * rewrite Hx, !append_assoc. reflexivity.
      * exists p', c'. intros xs R Hrun.
        apply (runs_quoted_char x parser typarray a c (escape t +++ r));
          [exact Hx|reflexivity|reflexivity|exact E1|exact E2|].
        fields. eapply runs_eq; [|apply Hstep; eapply runs_eq; [|exact Hrun]].
        -- same_state.
        -- rewrite append_assoc. same_state.
Qed.

Lemma delimiter_not_quote : Ascii.eqb d dquote = false.
Proof. destruct (delimiter_cases typarray) as [-> | ->]; reflexivity. Qed.

(** A bare element up to the delimiter after it. *)
Lemma element_then_delimiter (e : element) (a r : string)
    (p0 c0 : option ascii) :
  x = a +++ element_text e +++ String d r ->
  element_ok d e = true ->
  forall xs R,
    runs (mkState (String.length a + String.length (element_text e) + 1)
            (Some d) (Some d) EmptyString false
            (String.length a + String.length (element_text e) + 1))
      (xs ++ [apply_parser parser (contents e)]) R ->
    runs (mkState (String.length a) p0 c0 EmptyString false (String.length a))
      xs R.
Proof.
  intros Hx Hok xs R Hrun. destruct e as [t|t]; cbn [element_text contents] in *.
  - destruct t as [|c t]; [discriminate|]. cbn [element_ok bare_text] in Hok.
    destruct (scan_bare t c a (String d r) p0 c0 EmptyString (String.length a)
                Hx Hok) as (c' & Hc' & Hstep).
    apply Hstep.
    apply bare_char_spec in Hc' as (H1 & _ & H3 & _).
    apply (runs_delimiter_push x parser typarray (a +++ String c t) r);
      [rewrite Hx, append_assoc; reflexivity|fields; lens|reflexivity
      |exact H3|exact H1|].
    fields.
    replace (slice x (String.length a) (String.length a + S (String.length t)))
      with (String c t)
      by (rewrite Hx; symmetry; apply (slice_middle a (String c t))).
    eapply runs_eq; [|exact Hrun]. same_state.
  - apply (runs_quote x parser typarray a (escape t +++ str1 dquote +++ String d r));
      [rewrite Hx, !append_assoc; reflexivity|reflexivity|reflexivity|].
    fields.
    destruct (scan_quoted t (a +++ str1 dquote) (str1 dquote +++ String d r)
                (Some dquote) (Some dquote) EmptyString (String.length a))
      as (p' & c' & Hstep); [rewrite Hx, !append_assoc; reflexivity|].
    eapply runs_eq; [|apply Hstep]; [same_state|].
    apply (runs_quote_close x parser typarray
             (a +++ str1 dquote +++ escape t) d r);
      [rewrite Hx, !append_assoc; reflexivity|fields; lens|reflexivity
      |apply delimiter_not_quote|].
    fields. cbn [append].
    apply (runs_delimiter_skip x parser typarray
             (a +++ str1 dquote +++ escape t +++ str1 dquote) r);
      [rewrite Hx, !append_assoc; reflexivity|fields; lens|reflexivity
      |fields; cbn [is_char]; rewrite Ascii.eqb_refl; apply orb_true_r|].
    fields. eapply runs_eq; [|exact Hrun]. same_state.
Qed.

(** An element up to the closing brace after it. *)
Lemma element_then_close (e : element) (a r : string)
    (p0 c0 : option ascii) :
  x = a +++ element_text e +++ String "}" r ->
  element_ok d e = true ->
  exists p',
    forall xs,
      runs (mkState (String.length a) p0 c0 EmptyString false (String.length a))
        xs
        (xs ++ [apply_parser parser (contents e)],
         mkState (String.length a + String.length (element_text e))
           p' (Some "}"%char) EmptyString false
           (String.length a + String.length (element_text e) + 1)).
Proof.
  intros Hx Hok. destruct e as [t|t]; cbn [element_text contents] in *.
  - destruct t as [|c t]; [discriminate|]. cbn [element_ok bare_text] in Hok.
    destruct (scan_bare t c a (String "}" r) p0 c0 EmptyString (String.length a)
                Hx Hok) as (c' & Hc' & Hstep).
    exists (Some c'). intros xs. apply Hstep.
    eapply runs_result;
      [|apply (runs_close x parser typarray (a +++ String c t) r);
        [rewrite Hx, append_assoc; reflexivity|fields; lens|reflexivity]].
    fields.
    replace (Nat.ltb (String.length a) (String.length a + S (String.length t)))
      with true by (symmetry; apply Nat.ltb_lt; lia).
    replace (slice x (String.length a) (String.length a + S (String.length t)))
      with (String c t)
      by (rewrite Hx; symmetry; apply (slice_middle a (String c t))).
    f_equal; same_state.
  - destruct (scan_quoted t (a +++ str1 dquote) (str1 dquote +++ String "}" r)
                (Some dquote) (Some dquote) EmptyString (String.length a))
      as (p' & c' & Hstep); [rewrite Hx, !append_assoc; reflexivity|].
    exists (Some dquote). intros xs.
    apply (runs_quote x parser typarray a (escape t +++ str1 dquote +++ String "}" r));
      [rewrite Hx, !append_assoc; reflexivity|reflexivity|reflexivity|].
    fields.
    eapply runs_eq; [|apply Hstep]; [same_state|].
    apply (runs_quote_close x parser typarray
             (a +++ str1 dquote +++ escape t) "}" r);
      [rewrite Hx, !append_assoc; reflexivity|fields; lens|reflexivity
      |reflexivity|].
    fields. cbn [append].
    eapply runs_result;
      [|apply (runs_close x parser typarray
                 (a +++ str1 dquote +++ escape t +++ str1 dquote) r);
        [rewrite Hx, !append_assoc; reflexivity|fields; lens|reflexivity]].
    fields.
    replace (Nat.ltb (String.length (a +++ str1 dquote) + String.length (escape t) + 2)
               (String.length (a +++ str1 dquote) + String.length (escape t) + 1))
      with false by (symmetry; apply Nat.ltb_ge; lia).
    f_equal; same_state.
Qed.

Section Level.
Variable T : Type.
Variable text : T -> string.
Variable value : T -> val.
Variable ok : T -> bool.
(** What is known of [last] where an item starts, given the position. *)
Variable inv : nat -> nat -> Prop.
Hypothesis then_delimiter : forall e a r p0 c0 l,
  x = a +++ text e +++ String d r -> ok e = true -> inv (String.length a) l ->
  exists l', inv (String.length a + String.length (text e) + 1) l' /\
    forall xs R,
      runs (mkState (String.length a + String.length (text e) + 1)
              (Some d) (Some d) EmptyString false l')
        (xs ++ [value e]) R ->
      runs (mkState (String.length a) p0 c0 EmptyString false l) xs R.
Hypothesis then_close : forall e a r p0 c0 l,
  x = a +++ text e +++ String "}" r -> ok e = true -> inv (String.length a) l ->
  exists p', forall xs,
    runs (mkState (String.length a) p0 c0 EmptyString false l) xs
      (xs ++ [value e],
       mkState (String.length a + String.length (text e))
         p' (Some "}"%char) EmptyString false
         (String.length a + String.length (text e) + 1)).

(** The items of one level, from the start of the first one to the
    closing brace. *)
Lemma runs_items (es : list T) :
  forall e a b p0 c0 l,
    x = a +++ join (str1 d) (map text (e :: es)) +++ "}" +++ b ->
    forallb ok (e :: es) = true -> inv (String.length a) l ->
    exists p', forall xs,
      runs (mkState (String.length a) p0 c0 EmptyString false l) xs
        (xs ++ map value (e :: es),
         mkState
           (String.length a + String.length (join (str1 d) (map text (e :: es))))
           p' (Some "}"%char) EmptyString false
           (String.length a + String.length (join (str1 d) (map text (e :: es)))
            + 1)).
Proof.
  induction es as [|e2 es IH]; intros e a b p0 c0 l Hx Hok Hinv.
  - cbn [map join forallb] in *. apply andb_prop in Hok as [Hok _].
    exact (then_close e a b p0 c0 l Hx Hok Hinv).
  - cbn [forallb] in Hok. apply andb_prop in Hok as [Hok Hrest].
    change (join (str1 d) (map text (e :: e2 :: es)))
      with (text e +++ str1 d +++ join (str1 d) (map text (e2 :: es))) in *.
    set (J := join (str1 d) (map text (e2 :: es))) in *.
    destruct (then_delimiter e a (J +++ "}" +++ b) p0 c0 l)
      as (l' & Hinv' & Hstep);
      [rewrite Hx, !append_assoc; reflexivity|exact Hok|exact Hinv|].
    destruct (IH e2 (a +++ text e +++ str1 d) b (Some d) (Some d) l')
      as (p' & Hrun).
    + rewrite Hx, !append_assoc. reflexivity.
    + exact Hrest.
    + replace (String.length (a +++ text e +++ str1 d))
        with (String.length a + String.length (text e) + 1) by lens.
      exact Hinv'.
    + exists p'. intros xs. apply Hstep.
      fold J in Hrun.
      eapply runs_result; [|eapply runs_eq; [|apply Hrun]].
      * f_equal; [cbn [map]; rewrite <- app_assoc; reflexivity|same_state].
      * same_state.
Qed.

End Level.

Section Arrays.
Variable n : nat.
Hypothesis level : forall (items : list (literal n)) a b p0 c0,
  x = a +++ join (str1 d) (map (literal_text d n) items) +++ "}" +++ b ->
  forallb (literal_ok d n) items = true ->
  exists p', forall xs,
    runs (mkState (String.length a) p0 c0 EmptyString false (String.length a)) xs
      (xs ++ map (literal_value parser n) items,
       mkState
         (String.length a
          + String.length (join (str1 d) (map (literal_text d n) items)))
         p' (Some "}"%char) EmptyString false
         (String.length a
          + String.length (join (str1 d) (map (literal_text d n) items)) + 1)).

(** An array among the items: the loop runs on it and comes back after
    its closing brace. *)
Lemma array_passed (e : literal (S n)) (a r : string) (p0 c0 : option ascii)
    (l : nat) :
  x = a +++ literal_text d (S n) e +++ r ->
  literal_ok d (S n) e = true ->
  forall xs R,
    runs (mkState (String.length a + String.length (literal_text d (S n) e))
            (Some "}"%char) (Some "}"%char) EmptyString false
            (String.length a + String.length (literal_text d (S n) e)))
      (xs ++ [literal_value parser (S n) e]) R ->
    runs (mkState (String.length a) p0 c0 EmptyString false l) xs R.
Proof.
  intros Hx Hok xs R Hrun. cbn [literal_text literal_ok literal_value] in *.
  set (J := join (str1 d) (map (literal_text d n) e)) in *.
  destruct (level e (a +++ "{") r p0 (Some "{"%char)) as (p' & Hin).
  { rewrite Hx, !append_assoc. reflexivity. }
  { exact Hok. }
  fold J in Hin.
  eapply (runs_open x parser typarray a (J +++ "}" +++ r)).
  - rewrite Hx, !append_assoc. reflexivity.
  - reflexivity.
  - reflexivity.
  - fields. eapply runs_eq; [|apply (Hin [])]. same_state.
  - fields. lens.
  - fields. cbn [app]. eapply runs_eq; [|exact Hrun]. same_state.
Qed.

Lemma array_then_delimiter (e : literal (S n)) (a r : string)
    (p0 c0 : option ascii) (l : nat) :
  x = a +++ literal_text d (S n) e +++ String d r ->
  literal_ok d (S n) e = true ->
  forall xs R,
    runs (mkState (String.length a + String.length (literal_text d (S n) e) + 1)
            (Some d) (Some d) EmptyString false
            (String.length a + String.length (literal_text d (S n) e)))
      (xs ++ [literal_value parser (S n) e]) R ->
    runs (mkState (String.length a) p0 c0 EmptyString false l) xs R.
Proof.
  intros Hx Hok xs R Hrun.
  apply (array_passed e a (String d r) p0 c0 l Hx Hok).
  apply (runs_delimiter_skip x parser typarray
           (a +++ literal_text d (S n) e) r);
    [rewrite Hx, !append_assoc; reflexivity|fields; lens|reflexivity
    |reflexivity|].
  fields. eapply runs_eq; [|exact Hrun]. same_state.
Qed.

Lemma array_then_close (e : literal (S n)) (a r : string)
    (p0 c0 : option ascii) (l : nat) :
  x = a +++ literal_text d (S n) e +++ String "}" r ->
  literal_ok d (S n) e = true ->
  forall xs,
    runs (mkState (String.length a) p0 c0 EmptyString false l) xs
      (xs ++ [literal_value parser (S n) e],
       mkState (String.length a + String.length (literal_text d (S n) e))
         (Some "}"%char) (Some "}"%char) EmptyString false
         (String.length a + String.length (literal_text d (S n) e) + 1)).
Proof.
  intros Hx Hok xs.
  apply (array_passed e a (String "}" r) p0 c0 l Hx Hok).
  eapply runs_result;
    [|apply (runs_close x parser typarray (a +++ literal_text d (S n) e) r);
      [rewrite Hx, !append_assoc; reflexivity|fields; lens|reflexivity]].
  fields. rewrite Nat.ltb_irrefl. f_equal; same_state.
Qed.

End Arrays.

(** One level of a literal of any dimension, from its first item to its
    closing brace. *)
Lemma runs_level (n : nat) :
  forall (items : list (literal n)) a b p0 c0,
    x = a +++ join (str1 d) (map (literal_text d n) items) +++ "}" +++ b ->
    forallb (literal_ok d n) items = true ->
    exists p', forall xs,
      runs (mkState (String.length a) p0 c0 EmptyString false (String.length a))
        xs
        (xs ++ map (literal_value parser n) items,
         mkState
           (String.length a
            + String.length (join (str1 d) (map (literal_text d n) items)))
           p' (Some "}"%char) EmptyString false
           (String.length a
            + String.length (join (str1 d) (map (literal_text d n) items)) + 1)).
Proof.
  assert (Hempty : forall a b p0 c0,
    x = a +++ EmptyString +++ "}" +++ b ->
    exists p' : option ascii, forall xs,
      runs (mkState (String.length a) p0 c0 EmptyString false (String.length a))
        xs
        (xs ++ [],
         mkState (String.length a + 0) p' (Some "}"%char) EmptyString false
           (String.length a + 0 + 1))).
  { intros a b p0 c0 Hx. exists p0. intros xs.
    eapply runs_result;
      [|apply (runs_close x parser typarray a b);
        [exact Hx|reflexivity|reflexivity]].
    fields. rewrite Nat.ltb_irrefl, app_nil_r. f_equal; same_state. }
  induction n as [|n IH]; intros items a b p0 c0 Hx Hok.
  - destruct items as [|e es]; [exact (Hempty a b p0 c0 Hx)|].
    apply (runs_items element element_text
             (fun e => apply_parser parser (contents e)) (element_ok d)
             (fun pos l => l = pos)) with (b := b);
      [| |exact Hx|exact Hok|reflexivity].
    + intros e' a' r' p1 c1 l Hx' Hok' ->. eexists. split; [reflexivity|].
      exact (element_then_delimiter e' a' r' p1 c1 Hx' Hok').
    + intros e' a' r' p1 c1 l Hx' Hok' ->.
      exact (element_then_close e' a' r' p1 c1 Hx' Hok').
  - destruct items as [|e es]; [exact (Hempty a b p0 c0 Hx)|].
    apply (runs_items (literal (S n)) (literal_text d (S n))
             (literal_value parser (S n)) (literal_ok d (S n))
             (fun _ _ => True)) with (b := b);
      [| |exact Hx|exact Hok|exact I].
    + intros e' a' r' p1 c1 l Hx' Hok' _. eexists. split; [exact I|].
      exact (array_then_delimiter n IH e' a' r' p1 c1 l Hx' Hok').
    + intros e' a' r' p1 c1 l Hx' Hok' _. eexists.
      exact (array_then_close n IH e' a' r' p1 c1 l Hx' Hok').
Qed.

End LiteralItems.

(** A whole literal, from the state [arrayParser] starts the loop in. *)
Lemma loop_reads_literal {H : Host} (n : nat) (A : literal (S n))
    (parser : option (string -> val)) (typarray : Z)
    (p0 c0 : option ascii) :
  literal_ok (delimiter typarray) (S n) A = true ->
  let x := literal_text (delimiter typarray) (S n) A in
  ArrayParser.loop (S (String.length x))
    (ArrayParser.mkState 0 p0 c0 EmptyString false 0) x parser typarray []
  = Some ([literal_value parser (S n) A],
          ArrayParser.mkState (String.length x) (Some "}"%char) (Some "}"%char)
            EmptyString false (String.length x)).
Proof.
  intros Hok x.
  refine (array_passed x parser typarray n (runs_level x parser typarray n)
            A EmptyString EmptyString p0 c0 0 _ Hok [] _ _
            (S (String.length x)) _).
  - cbn [append]. rewrite append_empty_r. reflexivity.
  - eapply runs_result; [|apply runs_end].
    + unfold ArrayParser.finish.
      cbn [ArrayParser.i ArrayParser.last String.length Nat.add append].
      rewrite Nat.ltb_irrefl. reflexivity.
    + cbn [ArrayParser.i String.length Nat.add]. apply Nat.le_refl.
  - cbn [ArrayParser.i]. lia.
Qed.

(** X18: the parser reads every well-formed array literal.  For an array
    of one or more dimensions whose elements are written bare (non-empty,
    free of quotes, braces and the delimiter of the type) or between
    double quotes with a backslash before each quote and backslash, the
    text parses to one value of the same shape, each element passed
    through the element parser; the delimiter is the semicolon for type
    1020 and the comma otherwise.  This holds from any scratch state that
    is out of quoted mode with no kept text, and the parse leaves the
    scratch state so again. *)
Theorem arrayParser_reads_literals {H : Host} (n : nat) (A : literal (S n))
    (s : ArrayParser.state) (parser : option (string -> val)) (typarray : Z) :
  literal_ok (delimiter typarray) (S n) A = true ->
  ArrayParser.quoted s = false ->
  ArrayParser.str s = EmptyString ->
  exists s',
    ArrayParser.arrayParser s (literal_text (delimiter typarray) (S n) A)
      parser typarray
    = Some ([literal_value parser (S n) A], s')
    /\ ArrayParser.quoted s' = false
    /\ ArrayParser.str s' = EmptyString.
Proof.
  intros Hok Hq Hs.
  destruct s as [i0 p0 c0 st q l0]. cbn in Hq, Hs. subst q st.
  unfold ArrayParser.arrayParser, ArrayParser.arrayParserLoop,
    ArrayParser.fuel_for, ArrayParser.set_last, ArrayParser.set_i.
  cbn [ArrayParser.i ArrayParser.p ArrayParser.char ArrayParser.str
       ArrayParser.quoted ArrayParser.last].
  rewrite (loop_reads_literal n A parser typarray p0 c0 Hok).
  eexists. split; [reflexivity|]. split; reflexivity.
Qed.

Lemma arrayParser_reads_literals_witness :
  exists s',
    ArrayParser.arrayParser (H := evalHost)
      (ArrayParser.mkState 9 (Some "}"%char) (Some "x"%char) EmptyString false 4)
      (literal_text (delimiter 1020) 2
         [[Bare "(1,2),(3,4)"; Quoted ("a" +++ str1 dquote +++ "};b")];
          [Bare "NULL"; Quoted EmptyString]])
      None 1020
    = Some ([literal_value None 2
               [[Bare "(1,2),(3,4)"; Quoted ("a" +++ str1 dquote +++ "};b")];
                [Bare "NULL"; Quoted EmptyString]]], s')
    /\ ArrayParser.quoted s' = false
    /\ ArrayParser.str s' = EmptyString.
Proof.
  apply (arrayParser_reads_literals (H := evalHost) 1
           [[Bare "(1,2),(3,4)"; Quoted ("a" +++ str1 dquote +++ "};b")];
            [Bare "NULL"; Quoted EmptyString]]).
  - reflexivity.
  - reflexivity.
  - reflexivity.
Defined.

Section NestedNumbers.
Context {H : Host}.

Lemma serialize_each_nested (n : nat) (xs : list (numbers n)) :
  (forall a, serialize_value (numbers_value n a)
             = Ok (Some (literal_text "," n (numbers_literal n a)))) ->
  serialize_each serialize_value (map (numbers_value n) xs)
  = Ok (map (fun a => Some (literal_text "," n (numbers_literal n a))) xs).
Proof.
  intros Hone. induction xs as [|a xs IH]; [reflexivity|].
  cbn [map serialize_each].
  replace (match numbers_value n a with
           | VParameter v _ _ => serialize_value v
           | _ => serialize_value (numbers_value n a)
           end) with (serialize_value (numbers_value n a))
    by (destruct n; reflexivity).
  rewrite Hone, IH. reflexivity.
Qed.

Lemma serialize_nested (n : nat) :
  forall a : numbers n,
    serialize_value (numbers_value n a)
    = Ok (Some (literal_text "," n (numbers_literal n a))).
Proof.
  induction n as [|n IH]; intros a; [reflexivity|].
  cbn [numbers_value numbers_literal literal_text].
  rewrite serialize_value_array, (serialize_each_nested n a IH).
  cbn [exc_bind]. rewrite join_opt_some, map_map. reflexivity.
Qed.

Lemma numbers_literal_ok (n : nat) :
  forall a : numbers n,
    numbers_ok n a -> literal_ok "," n (numbers_literal n a) = true.
Proof.
  induction n as [|n IH]; intros a Ha.
  - exact (proj2 Ha).
  - cbn [numbers_ok numbers_literal literal_ok] in *.
    induction Ha as [|b bs Hb _ IHbs]; [reflexivity|].
    cbn [map forallb]. rewrite (IH b Hb), IHbs. reflexivity.
Qed.

Lemma numbers_literal_value (n : nat) :
  forall a : numbers n,
    numbers_ok n a ->
    literal_value (Some numeric) n (numbers_literal n a) = numbers_value n a.
Proof.
  induction n as [|n IH]; intros a Ha.
  - cbn [numbers_literal literal_value contents ArrayParser.apply_parser
         numbers_value].
    unfold numeric. rewrite (proj1 Ha). reflexivity.
  - cbn [numbers_ok numbers_literal literal_value numbers_value] in *.
    f_equal. rewrite map_map.
    induction Ha as [|b bs Hb _ IHbs]; [reflexivity|].
    cbn [map]. rewrite (IH b Hb), IHbs. reflexivity.
Qed.

End NestedNumbers.

(** X19: under the array type 1007 arrays of numbers of any dimension
    round-trip: if the host reads every number back from its text, and the
    texts are non-empty and free of quotes, braces and commas, then the
    serialized text of the nested array deserializes to the nested array,
    from any scratch state out of quoted mode with no kept text. *)
Theorem nested_numbers_round_trip {H : Host} (n : nat) (a : numbers (S n))
    (s : ArrayParser.state) :
  numbers_ok (S n) a ->
  ArrayParser.quoted s = false ->
  ArrayParser.str s = EmptyString ->
  exists text s',
    serialize (numbers_value (S n) a) = Ok (Some text)
    /\ deserialize s text 1007 = (Ok (numbers_value (S n) a), s').
Proof.
  intros Ha Hq Hs.
  exists (literal_text "," (S n) (numbers_literal (S n) a)).
  destruct s as [i0 p0 c0 st q l0]. cbn in Hq, Hs. subst q st.
  eexists. split; [exact (serialize_nested (S n) a)|].
  cbn [deserialize].
  unfold ArrayParser.arrayParser, ArrayParser.arrayParserLoop,
    ArrayParser.fuel_for, ArrayParser.set_last, ArrayParser.set_i.
  cbn [ArrayParser.i ArrayParser.p ArrayParser.char ArrayParser.str
       ArrayParser.quoted ArrayParser.last].
  rewrite (loop_reads_literal n (numbers_literal (S n) a) (Some numeric) 0 p0 c0
             (numbers_literal_ok (S n) a Ha)).
  rewrite (numbers_literal_value (S n) a Ha).
  cbn [numbers_value flat]. rewrite app_nil_r. reflexivity.
Qed.

Lemma nested_numbers_round_trip_witness :
  exists text s',
    serialize (H := evalHost)
      (numbers_value (H := evalHost) 2
         [[EvalHost.Dec 1 0; EvalHost.Dec 25 1];
          [EvalHost.Dec (-3) 0; EvalHost.Dec 4 0]])
    = Ok (Some text)
    /\ deserialize (H := evalHost) ArrayParser.arrayParserState text 1007
       = (Ok (numbers_value (H := evalHost) 2
                [[EvalHost.Dec 1 0; EvalHost.Dec 25 1];
                 [EvalHost.Dec (-3) 0; EvalHost.Dec 4 0]]), s').
Proof.
  apply (nested_numbers_round_trip (H := evalHost) 1
           [[EvalHost.Dec 1 0; EvalHost.Dec 25 1];
            [EvalHost.Dec (-3) 0; EvalHost.Dec 4 0]]).
  - repeat constructor.
  - reflexivity.
  - reflexivity.
Defined.

